(** * The calculator core: lexer, parser, evaluator, context and facade

    A shallow embedding of the C++ sources under
    [workspaces/codex/cpp-calculator_vanilla] (Token.h, Lexer.cpp, AST.h,
    Parser.cpp, Context.cpp, Evaluator.cpp, Calculator.cpp, and the two
    front ends Repl.cpp and main.cpp), followed by the properties of the
    specification that the code is checked against, and by further
    properties of the code.

    Conventions of the embedding:
    - [double] is IEEE-754 binary64, Rocq's primitive [float];
    - [std::size_t] is [nat], [int] is [Z] (the only [int] of the program, a
      history index, is produced by [std::stoi], which refuses what does not
      fit 32 bits);
    - [std::string] is [string], a [char] is an [ascii];
    - a C++ function that may throw returns a [result]; a member function that
      mutates its object returns the new object next to its result, and the
      object is returned also when an exception leaves the function: a C++
      exception rolls nothing back;
    - recursion that is not structural carries a fuel argument, and running
      out of fuel is the separate outcome [OutOfFuel], proved unreachable for
      the fuel the top-level functions supply;
    - an input stream is the list of its lines, as [std::getline] yields
      them, and an output stream is the text written to it. *)

From Stdlib Require Import ZArith Ascii String DecimalString DecimalNat Lia.
From Stdlib Require Import Floats.PrimFloat Floats.SpecFloat Floats.FloatOps.
From Stdlib Require Import Floats.FloatAxioms.
From stdpp Require Import gmap strings list.

Set Warnings "-register-all,-inexact-float".

(** ** Token.h: the exception classes *)

(** [CalcError] has the two subclasses [ParseError] and [EvalError]. The
    standard library conversions used by the lexer throw exceptions of their
    own, which are not [CalcError]s. *)
Inductive exception : Type :=
  | ParseError (message : string)
  | EvalError (message : string)
  | std_out_of_range (what : string)
  | std_invalid_argument (what : string).

Definition is_ParseError (e : exception) : bool :=
  match e with ParseError _ => true | _ => false end.

Definition is_EvalError (e : exception) : bool :=
  match e with EvalError _ => true | _ => false end.

(** [catch (const CalcError&)] catches exactly these. *)
Definition is_CalcError (e : exception) : bool :=
  is_ParseError e || is_EvalError e.

(** The characters of a C string: those before the first NUL. *)
Fixpoint c_str (s : string) : string :=
  match s with
  | EmptyString => EmptyString
  | String c rest => if Ascii.eqb c "000"%char then EmptyString else String c (c_str rest)
  end.

(** [what()] hands out the message as a [const char*], so that what is read
    from it ends at the first NUL of the message. *)
Definition what (e : exception) : string :=
  match e with
  | ParseError m | EvalError m | std_out_of_range m | std_invalid_argument m => c_str m
  end.

(** ** Outcomes of a call *)

Inductive result (A : Type) : Type :=
  | Return (a : A)
  | Throw (e : exception)
  | OutOfFuel.

Arguments Return {A} a.
Arguments Throw {A} e.
Arguments OutOfFuel {A}.

Definition bind {A B : Type} (r : result A) (k : A -> result B) : result B :=
  match r with
  | Return a => k a
  | Throw e => Throw e
  | OutOfFuel => OutOfFuel
  end.

Notation "'let*' p ':=' r 'in' k" := (bind r (fun p => k))
  (at level 10, p pattern, r at level 200, k at level 200).

Definition is_Return {A : Type} (r : result A) : bool :=
  match r with Return _ => true | _ => false end.

Definition is_Throw {A : Type} (r : result A) : bool :=
  match r with Throw _ => true | _ => false end.

(** ** Characters and decimal text *)

(** [<cctype>] in the "C" locale (the program never calls [setlocale]). *)
Definition isdigit (c : ascii) : bool :=
  (48 <=? nat_of_ascii c) && (nat_of_ascii c <=? 57).

Definition isspace (c : ascii) : bool :=
  (nat_of_ascii c =? 32) || ((9 <=? nat_of_ascii c) && (nat_of_ascii c <=? 13)).

Definition isalpha (c : ascii) : bool :=
  ((65 <=? nat_of_ascii c) && (nat_of_ascii c <=? 90))
  || ((97 <=? nat_of_ascii c) && (nat_of_ascii c <=? 122)).

Definition isalnum (c : ascii) : bool := isalpha c || isdigit c.

(** [operator<<] for [std::size_t] and for [int]. *)
Definition size_to_string (n : nat) : string :=
  NilEmpty.string_of_uint (Nat.to_uint n).

Definition int_to_string (z : Z) : string :=
  NilEmpty.string_of_int (Z.to_int z).

Definition digit_value (c : ascii) : Z := Z.of_nat (nat_of_ascii c) - 48.

(** The value of a string of decimal digits, most significant first. *)
Fixpoint digits_value_from (acc : Z) (s : string) : Z :=
  match s with
  | EmptyString => acc
  | String c s' => digits_value_from (10 * acc + digit_value c) s'
  end.

Definition digits_value (s : string) : Z := digits_value_from 0 s.

(** The longest prefix of decimal digits, and what follows it. *)
Fixpoint span_digits (s : string) : string * string :=
  match s with
  | EmptyString => (EmptyString, EmptyString)
  | String c s' =>
      if isdigit c
      then let '(ds, rest) := span_digits s' in (String c ds, rest)
      else (EmptyString, s)
  end.

(** ** The standard conversions [std::stoi] and [std::stod] *)

Definition INT_MAX : Z := 2147483647.

(** [std::stoi] on a text that starts with a digit: the digits are read in
    base 10, a text without digits is [std::invalid_argument], and a value
    that does not fit [int] is [std::out_of_range]. *)
Definition stoi (text : string) : result Z :=
  let '(ds, _) := span_digits text in
  if String.length ds =? 0 then Throw (std_invalid_argument "stoi")
  else if (INT_MAX <? digits_value ds)%Z then Throw (std_out_of_range "stoi")
  else Return (digits_value ds).

(** The binary64 number nearest to [n / d] (ties to even), for positive [n]
    and [d]: the quotient is computed with at least 56 significant bits and
    a sticky bit for the remainder, and rounded once. *)
Definition round_ratio (n d : Z) : spec_float :=
  let s := Z.max 0 (Z.log2 d - Z.log2 n + 56) in
  let q := (n * 2 ^ s / d)%Z in
  let r := ((n * 2 ^ s) mod d)%Z in
  binary_normalize prec emax (2 * q + (if (r =? 0)%Z then 0 else 1)) (- (s + 1)) false.

(** [m * 10 ^ e] is positive and below the least normal number [2 ^ -1022]. *)
Definition below_normal (m e : Z) : bool :=
  if (0 <=? e)%Z then false else (m * 2 ^ 1022 <? 10 ^ (- e))%Z.

Section Strtod.

(** Whether [strtod] reports [ERANGE] when the result underflows is left
    to the implementation by the C standard: it is a parameter, asked
    about the decimal [m * 10 ^ e] only when that lies below the normal
    range. *)
Variable strtod_underflow_erange : Z -> Z -> bool.

(** [strtod] on the decimal [m * 10 ^ e], [m >= 0]: the nearest binary64
    number; [std::stod] throws [std::out_of_range] when [strtod] reports
    [ERANGE], which it does when the value overflows. *)
Definition decimal_to_double (m e : Z) : result float :=
  if (m =? 0)%Z then Return PrimFloat.zero
  else
    let sf := if (0 <=? e)%Z then round_ratio (m * 10 ^ e) 1
              else round_ratio m (10 ^ (- e)) in
    match sf with
    | S754_infinity _ => Throw (std_out_of_range "stod")
    | _ =>
        if below_normal m e && strtod_underflow_erange m e
        then Throw (std_out_of_range "stod")
        else Return (SF2Prim sf)
    end.

(** The exponent part [e], [E] with an optional sign and digits; without
    digits there is no exponent part and [strtod] stops before the [e]. *)
Definition exponent_part (s : string) : Z :=
  match s with
  | String c s1 =>
      if Ascii.eqb c "e"%char || Ascii.eqb c "E"%char then
        match s1 with
        | String sign s2 =>
            if Ascii.eqb sign "-"%char then
              let '(ds, _) := span_digits s2 in
              if String.length ds =? 0 then 0%Z else (- digits_value ds)%Z
            else if Ascii.eqb sign "+"%char then
              let '(ds, _) := span_digits s2 in digits_value ds
            else
              let '(ds, _) := span_digits s1 in digits_value ds
        | EmptyString => 0%Z
        end
      else 0%Z
  | EmptyString => 0%Z
  end.

(** [std::stod] on a text that starts with a digit or a point (the lexer
    passes nothing else): digits, an optional point and digits, an
    optional exponent part; what follows is ignored. *)
Definition stod (text : string) : result float :=
  let '(ip, r1) := span_digits text in
  let '(fp, r2) :=
    match r1 with
    | String c r => if Ascii.eqb c "."%char then span_digits r else (EmptyString, r1)
    | EmptyString => (EmptyString, r1)
    end in
  if String.length ip + String.length fp =? 0
  then Throw (std_invalid_argument "stod")
  else decimal_to_double (digits_value (ip +:+ fp))
                         (exponent_part r2 - Z.of_nat (String.length fp)).

End Strtod.

(** ** Token.h: tokens *)

Inductive TokenType : Type :=
  | End | Number | Identifier | HistoryRef
  | Plus | Minus | Star | Slash | Percent | Caret
  | LParen | RParen | Comma | Assign.

Global Instance TokenType_eq_dec : EqDecision TokenType.
Proof. solve_decision. Defined.

Definition TokenType_eqb (a b : TokenType) : bool := bool_decide (a = b).

Record Token : Type := mkToken {
  type : TokenType;
  lexeme : string;
  position : nat;
  number_value : float;
  history_index : Z
}.

(** A token sequence as the lexer produces it: some tokens and a last one
    of type [End]. *)
Definition ends_with_End (tokens : list Token) : Prop :=
  exists front last, tokens = front ++ [last] /\ type last = End.

(** ** Lexer.cpp *)

Module Lexer.

Record Lexer : Type := mkLexer { input_ : string; pos_ : nat }.

Definition isAtEnd (l : Lexer) : bool := String.length (input_ l) <=? pos_ l.

Definition currentChar (l : Lexer) : ascii :=
  if isAtEnd l then Ascii.zero
  else match String.get (pos_ l) (input_ l) with Some c => c | None => Ascii.zero end.

Definition peekChar (l : Lexer) (offset : nat) : ascii :=
  let idx := pos_ l + offset in
  if idx <? String.length (input_ l)
  then match String.get idx (input_ l) with Some c => c | None => Ascii.zero end
  else Ascii.zero.

Definition advance (l : Lexer) : Lexer :=
  if isAtEnd l then l else mkLexer (input_ l) (S (pos_ l)).

(** The characters still to be read: a bound on the iterations of every
    loop that advances once per iteration. *)
Definition remaining (l : Lexer) : nat := String.length (input_ l) - pos_ l.

(** [while (cond) { ++count; advance(); }]: the lexer and the counter
    after the loop. Every condition of the program is false at the end of
    the input ([currentChar] is [NUL] there), so that the loop has left
    once [remaining] characters are read: [fuel] is [remaining]. *)
Fixpoint advance_while (cond : Lexer -> bool) (fuel : nat) (l : Lexer) (count : nat)
  : Lexer * nat :=
  match fuel with
  | 0 => (l, count)
  | S fuel' =>
      if cond l
      then advance_while cond fuel' (advance l) (S count)
      else (l, count)
  end.

Definition at_digit (l : Lexer) : bool := isdigit (currentChar l).

Definition skipWhitespace (l : Lexer) : Lexer :=
  fst (advance_while (fun l => negb (isAtEnd l) && isspace (currentChar l))
                     (remaining l) l 0).

Definition isIdentifierStart (c : ascii) : bool := isalpha c || Ascii.eqb c "_"%char.

Definition isIdentifierPart (c : ascii) : bool := isalnum c || Ascii.eqb c "_"%char.

Definition char_to_string (c : ascii) : string := String c EmptyString.

Section WithStrtod.

Variable strtod_underflow_erange : Z -> Z -> bool.

Definition lexNumber (l : Lexer) : result (Token * Lexer) :=
  let start := pos_ l in
  let '(l, n1) := advance_while at_digit (remaining l) l 0 in
  let '(l, n2) :=
    if Ascii.eqb (currentChar l) "."%char
    then advance_while at_digit (remaining (advance l)) (advance l) 0
    else (l, 0) in
  let has_digits := (0 <? n1) || (0 <? n2) in
  if negb has_digits then
    Throw (ParseError ("Unexpected token '" +:+ char_to_string (currentChar l)
                       +:+ "' at position " +:+ size_to_string start))
  else
    let* l :=
      (if Ascii.eqb (currentChar l) "e"%char || Ascii.eqb (currentChar l) "E"%char then
         let exp_start := pos_ l in
         let l := advance l in
         let l := if Ascii.eqb (currentChar l) "+"%char || Ascii.eqb (currentChar l) "-"%char
                  then advance l else l in
         let '(l, exp_digits) := advance_while at_digit (remaining l) l 0 in
         if exp_digits =? 0
         then Throw (ParseError ("Invalid number at position " +:+ size_to_string exp_start))
         else Return l
       else Return l) in
    let lexeme := String.substring start (pos_ l - start) (input_ l) in
    let* value := stod strtod_underflow_erange lexeme in
    Return (mkToken Number lexeme start value 0, l).

Definition lexIdentifier (l : Lexer) : Token * Lexer :=
  let start := pos_ l in
  let '(l, _) := advance_while (fun l => isIdentifierPart (currentChar l)) (remaining l) l 0 in
  (mkToken Identifier (String.substring start (pos_ l - start) (input_ l)) start PrimFloat.zero 0, l).

Definition lexHistoryRef (l : Lexer) : result (Token * Lexer) :=
  let start := pos_ l in
  let l := advance l in
  let '(l, digits) := advance_while at_digit (remaining l) l 0 in
  if digits =? 0 then
    Throw (ParseError ("Unexpected token '$' at position " +:+ size_to_string start))
  else
    let text := String.substring (start + 1) digits (input_ l) in
    let* index := stoi text in
    Return (mkToken HistoryRef ("$" +:+ text) start PrimFloat.zero index, l).

(** The single-character tokens of the [switch]. *)
Definition punctuation (c : ascii) : option TokenType :=
  if Ascii.eqb c "+"%char then Some Plus
  else if Ascii.eqb c "-"%char then Some Minus
  else if Ascii.eqb c "*"%char then Some Star
  else if Ascii.eqb c "/"%char then Some Slash
  else if Ascii.eqb c "%"%char then Some Percent
  else if Ascii.eqb c "^"%char then Some Caret
  else if Ascii.eqb c "("%char then Some LParen
  else if Ascii.eqb c ")"%char then Some RParen
  else if Ascii.eqb c ","%char then Some Comma
  else if Ascii.eqb c "="%char then Some Assign
  else None.

Definition end_token (l : Lexer) : Token := mkToken End "" (pos_ l) PrimFloat.zero 0.

(** The [while (!isAtEnd())] loop of [tokenize]; every iteration that
    does not leave the loop reads at least one character. *)
Fixpoint tokenize_loop (fuel : nat) (l : Lexer) (tokens : list Token)
  : result (list Token) :=
  match fuel with
  | 0 => OutOfFuel
  | S fuel' =>
      if isAtEnd l then Return (tokens ++ [end_token l])
      else
        let l := skipWhitespace l in
        if isAtEnd l then Return (tokens ++ [end_token l])
        else
          let c := currentChar l in
          let token_pos := pos_ l in
          if isdigit c || (Ascii.eqb c "."%char && isdigit (peekChar l 1)) then
            let* (token, l) := lexNumber l in
            tokenize_loop fuel' l (tokens ++ [token])
          else if isIdentifierStart c then
            let '(token, l) := lexIdentifier l in
            tokenize_loop fuel' l (tokens ++ [token])
          else if Ascii.eqb c "$"%char then
            let* (token, l) := lexHistoryRef l in
            tokenize_loop fuel' l (tokens ++ [token])
          else
            let l := advance l in
            match punctuation c with
            | Some ty =>
                tokenize_loop fuel' l
                  (tokens ++ [mkToken ty (char_to_string c) token_pos PrimFloat.zero 0])
            | None =>
                Throw (ParseError ("Unexpected token '" +:+ char_to_string c
                                   +:+ "' at position " +:+ size_to_string token_pos))
            end
  end.

(** [Lexer(input).tokenize()]. *)
Definition tokenize (input : string) : result (list Token) :=
  tokenize_loop (S (String.length input)) (mkLexer input 0) [].

End WithStrtod.

End Lexer.

(** ** AST.h *)

Inductive UnaryOp : Type := Negate.

Inductive BinaryOp : Type := Add | Subtract | Multiply | Divide | Modulo | Power.

Inductive Node : Type :=
  | NumberNode (value : float)
  | VariableNode (name : string)
  | HistoryRefNode (index : Z)
  | UnaryNode (op : UnaryOp) (operand : Node)
  | BinaryNode (op : BinaryOp) (lhs rhs : Node)
  | CallNode (name : string) (args : list Node)
  | AssignmentNode (name : string) (expression : Node).

(** ** Parser.cpp *)

Module Parser.

Record Parser : Type := mkParser { tokens_ : list Token; pos_ : nat }.

(** What a read outside [tokens_] yields in the model (undefined behaviour
    in C++; no such read happens on a token sequence of the lexer). *)
Definition no_token : Token := mkToken End "" 0 PrimFloat.zero 0.

Definition current (p : Parser) : Token := nth (pos_ p) (tokens_ p) no_token.

(** [tokens_[pos_ - 1]], the token just matched. *)
Definition previous (p : Parser) : Token := nth (pos_ p - 1) (tokens_ p) no_token.

Definition peek (p : Parser) (offset : nat) : Token :=
  let idx := pos_ p + offset in
  if length (tokens_ p) <=? idx then List.last (tokens_ p) no_token
  else nth idx (tokens_ p) no_token.

Definition check (p : Parser) (ty : TokenType) : bool :=
  TokenType_eqb (type (current p)) ty.

Definition advance (p : Parser) : Parser :=
  if pos_ p <? length (tokens_ p) - 1 then mkParser (tokens_ p) (S (pos_ p)) else p.

Definition match_ (p : Parser) (ty : TokenType) : bool * Parser :=
  if check p ty then (true, advance p) else (false, p).

Definition throwUnexpected (token : Token) : exception :=
  let shown := if String.length (lexeme token) =? 0 then "<end>" else lexeme token in
  ParseError ("Unexpected token '" +:+ shown +:+ "' at position "
              +:+ size_to_string (position token)).

Definition expect (p : Parser) (ty : TokenType) : result Parser :=
  if check p ty then Return (advance p) else Throw (throwUnexpected (current p)).

(** The recursive descent. Each function spends one unit of fuel per call;
    the two [while (true)] loops of the binary levels and the argument loop
    of a call are the functions [additive_loop], [multiplicative_loop] and
    [arguments_loop], which carry the loop's local variable. *)
Fixpoint parseExpression (fuel : nat) (p : Parser) {struct fuel} : result (Node * Parser) :=
  match fuel with
  | 0 => OutOfFuel
  | S fuel => parseAdditive fuel p
  end

with parseAdditive (fuel : nat) (p : Parser) {struct fuel} : result (Node * Parser) :=
  match fuel with
  | 0 => OutOfFuel
  | S fuel =>
      let* (node, p) := parseMultiplicative fuel p in
      additive_loop fuel node p
  end

with additive_loop (fuel : nat) (node : Node) (p : Parser) {struct fuel}
  : result (Node * Parser) :=
  match fuel with
  | 0 => OutOfFuel
  | S fuel =>
      let '(matched, p) := match_ p Plus in
      if matched then
        let* (rhs, p) := parseMultiplicative fuel p in
        additive_loop fuel (BinaryNode Add node rhs) p
      else
        let '(matched, p) := match_ p Minus in
        if matched then
          let* (rhs, p) := parseMultiplicative fuel p in
          additive_loop fuel (BinaryNode Subtract node rhs) p
        else Return (node, p)
  end

with parseMultiplicative (fuel : nat) (p : Parser) {struct fuel} : result (Node * Parser) :=
  match fuel with
  | 0 => OutOfFuel
  | S fuel =>
      let* (node, p) := parseUnary fuel p in
      multiplicative_loop fuel node p
  end

with multiplicative_loop (fuel : nat) (node : Node) (p : Parser) {struct fuel}
  : result (Node * Parser) :=
  match fuel with
  | 0 => OutOfFuel
  | S fuel =>
      let '(matched, p) := match_ p Star in
      if matched then
        let* (rhs, p) := parseUnary fuel p in
        multiplicative_loop fuel (BinaryNode Multiply node rhs) p
      else
        let '(matched, p) := match_ p Slash in
        if matched then
          let* (rhs, p) := parseUnary fuel p in
          multiplicative_loop fuel (BinaryNode Divide node rhs) p
        else
          let '(matched, p) := match_ p Percent in
          if matched then
            let* (rhs, p) := parseUnary fuel p in
            multiplicative_loop fuel (BinaryNode Modulo node rhs) p
          else Return (node, p)
  end

with parseUnary (fuel : nat) (p : Parser) {struct fuel} : result (Node * Parser) :=
  match fuel with
  | 0 => OutOfFuel
  | S fuel =>
      let '(matched, p) := match_ p Minus in
      if matched then
        let* (operand, p) := parseUnary fuel p in
        Return (UnaryNode Negate operand, p)
      else parsePower fuel p
  end

with parsePower (fuel : nat) (p : Parser) {struct fuel} : result (Node * Parser) :=
  match fuel with
  | 0 => OutOfFuel
  | S fuel =>
      let* (node, p) := parsePrimary fuel p in
      let '(matched, p) := match_ p Caret in
      if matched then
        let* (rhs, p) := parseUnary fuel p in
        Return (BinaryNode Power node rhs, p)
      else Return (node, p)
  end

with parsePrimary (fuel : nat) (p : Parser) {struct fuel} : result (Node * Parser) :=
  match fuel with
  | 0 => OutOfFuel
  | S fuel =>
      let '(matched, p) := match_ p Number in
      if matched then Return (NumberNode (number_value (previous p)), p)
      else
        let '(matched, p) := match_ p HistoryRef in
        if matched then Return (HistoryRefNode (history_index (previous p)), p)
        else
          let '(matched, p) := match_ p Identifier in
          if matched then
            let ident := previous p in
            let '(matched, p) := match_ p LParen in
            if matched then
              let* (args, p) :=
                (if negb (check p RParen) then arguments_loop fuel [] p
                 else Return ([], p)) in
              let* p := expect p RParen in
              Return (CallNode (lexeme ident) args, p)
            else Return (VariableNode (lexeme ident), p)
          else
            let '(matched, p) := match_ p LParen in
            if matched then
              let* (node, p) := parseExpression fuel p in
              let* p := expect p RParen in
              Return (node, p)
            else Throw (throwUnexpected (current p))
  end

with arguments_loop (fuel : nat) (args : list Node) (p : Parser) {struct fuel}
  : result (list Node * Parser) :=
  match fuel with
  | 0 => OutOfFuel
  | S fuel =>
      let* (arg, p) := parseExpression fuel p in
      let args := args ++ [arg] in
      let '(matched, p) := match_ p Comma in
      if matched then arguments_loop fuel args p else Return (args, p)
  end.

Definition parseStatement_fuel (fuel : nat) (p : Parser) : result Node :=
  let* (node, p) :=
    (if check p Identifier && TokenType_eqb (type (peek p 1)) Assign then
       let name := lexeme (current p) in
       let p := advance (advance p) in
       let* (expression, p) := parseExpression fuel p in
       Return (AssignmentNode name expression, p)
     else parseExpression fuel p) in
  if negb (check p End) then Throw (throwUnexpected (current p))
  else Return node.

(** Fuel that suffices for a token sequence that ends with [End]: nine
    functions call each other between two tokens read. *)
Definition enough_fuel (tokens : list Token) : nat := 9 * length tokens + 9.

(** [Parser(tokens).parseStatement()]. *)
Definition parseStatement (tokens : list Token) : result Node :=
  parseStatement_fuel (enough_fuel tokens) (mkParser tokens 0).

End Parser.

(** ** The functions of [<cmath>] *)

(** Negation, [std::abs], [std::sqrt] and the four operations are those of
    IEEE-754 and are primitive here; the other functions the program calls
    are library code of the platform, a parameter of the model. *)
Record cmath : Type := mk_cmath {
  std_acos : float -> float;
  std_exp : float -> float;
  std_sin : float -> float;
  std_cos : float -> float;
  std_tan : float -> float;
  std_log : float -> float;
  std_log10 : float -> float;
  std_ceil : float -> float;
  std_floor : float -> float;
  std_fmod : float -> float -> float;
  std_pow : float -> float -> float
}.

(** ** Context.cpp *)

Module Context.

Record EvaluationContext : Type := mkContext {
  variables_ : gmap string float;
  history_ : list float
}.

(** The constructor. *)
Definition new (m : cmath) : EvaluationContext :=
  mkContext (<["e" := std_exp m 1%float]> (<["pi" := std_acos m (-1)%float]> ∅)) [].

Definition hasVariable (ctx : EvaluationContext) (name : string) : bool :=
  bool_decide (is_Some (variables_ ctx !! name)).

Definition getVariable (ctx : EvaluationContext) (name : string) : result float :=
  match variables_ ctx !! name with
  | Some value => Return value
  | None => Throw (EvalError ("Unknown variable '" +:+ name +:+ "'"))
  end.

Definition setVariable (ctx : EvaluationContext) (name : string) (value : float)
  : result unit * EvaluationContext :=
  if String.eqb name "pi" || String.eqb name "e"
  then (Throw (EvalError ("Cannot assign to constant '" +:+ name +:+ "'")), ctx)
  else (Return tt, mkContext (<[name := value]> (variables_ ctx)) (history_ ctx)).

Definition pushHistory (ctx : EvaluationContext) (value : float) : EvaluationContext :=
  mkContext (variables_ ctx) (history_ ctx ++ [value]).

Definition getHistoryValue (ctx : EvaluationContext) (one_based_index : Z) : result float :=
  if (one_based_index <=? 0)%Z || (Z.of_nat (length (history_ ctx)) <? one_based_index)%Z
  then Throw (EvalError ("History reference '$" +:+ int_to_string one_based_index
                         +:+ "' out of range"))
  else Return (nth (Z.to_nat (one_based_index - 1)) (history_ ctx) PrimFloat.zero).

Definition history (ctx : EvaluationContext) : list float := history_ ctx.

End Context.

(** ** Evaluator.cpp *)

Module Evaluator.

Import Context.

(** A member function of [Evaluator] reads and writes the context it
    holds by reference, and may throw. *)
Definition eval (A : Type) : Type := EvaluationContext -> result A * EvaluationContext.

Definition ret {A : Type} (a : A) : eval A := fun ctx => (Return a, ctx).

Definition throw {A : Type} (e : exception) : eval A := fun ctx => (Throw e, ctx).

(** A [const] member function of the context. *)
Definition read {A : Type} (f : EvaluationContext -> result A) : eval A :=
  fun ctx => (f ctx, ctx).

Definition and_then {A B : Type} (c : eval A) (k : A -> eval B) : eval B :=
  fun ctx =>
    match c ctx with
    | (Return a, ctx') => k a ctx'
    | (Throw e, ctx') => (Throw e, ctx')
    | (OutOfFuel, ctx') => (OutOfFuel, ctx')
    end.

Notation "'let!' x ':=' c 'in' k" := (and_then c (fun x => k))
  (at level 10, x pattern, c at level 200, k at level 200).

Definition kZeroEpsilon : float := 1e-12%float.

Definition plural (n : nat) : string := if n =? 1 then "" else "s".

Definition requireArgCount (name : string) (args : list float) (expected : nat)
  : result unit :=
  if negb (length args =? expected) then
    Throw (EvalError ("Function '" +:+ name +:+ "' expects " +:+ size_to_string expected
                      +:+ " argument" +:+ plural expected
                      +:+ " but got " +:+ size_to_string (length args)))
  else Return tt.

Definition requireAtLeastArgs (name : string) (args : list float) (min_count : nat)
  : result unit :=
  if length args <? min_count then
    Throw (EvalError ("Function '" +:+ name +:+ "' expects at least "
                      +:+ size_to_string min_count
                      +:+ " argument" +:+ plural min_count
                      +:+ " but got " +:+ size_to_string (length args)))
  else Return tt.

(** [args[0]]. *)
Definition first_arg (args : list float) : float := nth 0 args PrimFloat.zero.

(** [*std::min_element(first, last)] and [*std::max_element(first, last)]
    on a non-empty range: the first least, the first greatest element
    by [operator<]. *)
Definition min_element (args : list float) : float :=
  match args with
  | [] => PrimFloat.zero
  | x :: xs => fold_left (fun smallest y => if ltb y smallest then y else smallest) xs x
  end.

Definition max_element (args : list float) : float :=
  match args with
  | [] => PrimFloat.zero
  | x :: xs => fold_left (fun largest y => if ltb largest y then y else largest) xs x
  end.

(** The [for] loop of [evalCall]: the values of the arguments, left to
    right, pushed onto [args]. *)
Fixpoint evalArguments (evalNode : Node -> eval float) (nodes : list Node)
  (args : list float) {struct nodes} : eval (list float) :=
  match nodes with
  | [] => ret args
  | arg :: nodes =>
      let! value := evalNode arg in
      evalArguments evalNode nodes (args ++ [value])
  end.

Section WithCmath.

Variable m : cmath.

(** The [switch] of [evalBinary], both operands computed. *)
Definition applyBinary (op : BinaryOp) (lhs rhs : float) : result float :=
  match op with
  | Add => Return (lhs + rhs)%float
  | Subtract => Return (lhs - rhs)%float
  | Multiply => Return (lhs * rhs)%float
  | Divide =>
      if ltb (abs rhs) kZeroEpsilon then Throw (EvalError "Division by zero")
      else Return (lhs / rhs)%float
  | Modulo =>
      if ltb (abs rhs) kZeroEpsilon then Throw (EvalError "Modulo by zero")
      else Return (std_fmod m lhs rhs)
  | Power => Return (std_pow m lhs rhs)
  end.

Definition unary_function (fn : string) (f : float -> float) (args : list float)
  : result float :=
  let* _ := requireArgCount fn args 1 in Return (f (first_arg args)).

(** The dispatch of [evalCall], the arguments computed. *)
Definition applyCall (fn : string) (args : list float) : result float :=
  if String.eqb fn "sin" then unary_function fn (std_sin m) args
  else if String.eqb fn "cos" then unary_function fn (std_cos m) args
  else if String.eqb fn "tan" then unary_function fn (std_tan m) args
  else if String.eqb fn "sqrt" then unary_function fn sqrt args
  else if String.eqb fn "log" then unary_function fn (std_log m) args
  else if String.eqb fn "log10" then unary_function fn (std_log10 m) args
  else if String.eqb fn "abs" then unary_function fn abs args
  else if String.eqb fn "ceil" then unary_function fn (std_ceil m) args
  else if String.eqb fn "floor" then unary_function fn (std_floor m) args
  else if String.eqb fn "min" then
    let* _ := requireAtLeastArgs fn args 1 in Return (min_element args)
  else if String.eqb fn "max" then
    let* _ := requireAtLeastArgs fn args 1 in Return (max_element args)
  else Throw (EvalError ("Unknown function '" +:+ fn +:+ "'")).

Fixpoint evalNode (node : Node) {struct node} : eval float :=
  match node with
  | NumberNode value => ret value
  | VariableNode name => read (fun ctx => getVariable ctx name)
  | HistoryRefNode index => read (fun ctx => getHistoryValue ctx index)
  | UnaryNode Negate operand =>
      (* evalUnary *)
      let! operand := evalNode operand in
      ret (- operand)%float
  | BinaryNode op lhs rhs =>
      (* evalBinary *)
      let! lhs := evalNode lhs in
      let! rhs := evalNode rhs in
      read (fun _ => applyBinary op lhs rhs)
  | CallNode name args =>
      (* evalCall *)
      let! args := evalArguments evalNode args [] in
      read (fun _ => applyCall name args)
  | AssignmentNode name expression =>
      let! value := evalNode expression in
      let! _ := (fun ctx => setVariable ctx name value) in
      ret value
  end.

Definition evaluate (node : Node) : eval float := evalNode node.

End WithCmath.

End Evaluator.

(** ** Calculator.cpp *)

Module Calculator.

Import Context.

Record Calculator : Type := mkCalculator { context_ : EvaluationContext }.

Section WithPlatform.

Variable strtod_underflow_erange : Z -> Z -> bool.
Variable m : cmath.

(** [Calculator() = default]. *)
Definition new : Calculator := mkCalculator (Context.new m).

Definition evaluate (calc : Calculator) (expression : string)
  : result float * Calculator :=
  match Lexer.tokenize strtod_underflow_erange expression with
  | Return tokens =>
      match Parser.parseStatement tokens with
      | Return ast =>
          match Evaluator.evaluate m ast (context_ calc) with
          | (Return value, ctx) => (Return value, mkCalculator (pushHistory ctx value))
          | (Throw e, ctx) => (Throw e, mkCalculator ctx)
          | (OutOfFuel, ctx) => (OutOfFuel, mkCalculator ctx)
          end
      | Throw e => (Throw e, calc)
      | OutOfFuel => (OutOfFuel, calc)
      end
  | Throw e => (Throw e, calc)
  | OutOfFuel => (OutOfFuel, calc)
  end.

Definition history (calc : Calculator) : list float := Context.history (context_ calc).

Definition context (calc : Calculator) : EvaluationContext := context_ calc.

(** A session: the calculator after a sequence of [evaluate] calls, the
    exceptions caught by the caller. *)
Definition session (lines : list string) : Calculator :=
  fold_left (fun calc line => snd (evaluate calc line)) lines new.

End WithPlatform.

End Calculator.

(** ** Repl.cpp *)

(** The character ['\n']. *)
Definition newline : string := String "010"%char EmptyString.

Module Repl.

Import Calculator.

(** [std::find_if(first, last, pred) - first], over the characters from
    [first] on: the index of the first one that satisfies [pred], their
    number if none does. *)
Fixpoint find_if (pred : ascii -> bool) (chars : list ascii) : nat :=
  match chars with
  | [] => 0
  | ch :: chars => if pred ch then 0 else S (find_if pred chars)
  end.

Definition not_space (ch : ascii) : bool := negb (isspace ch).

(** [trim]: [start] and [end] are the iterators of the source as indices;
    the search from [rbegin()] runs over the reversed characters, and
    [base()] of what it finds is the position after the last character that
    is no white space. *)
Definition trim (input : string) : string :=
  let chars := list_ascii_of_string input in
  let start := find_if not_space chars in
  if start =? length chars then ""
  else
    let end_ := length chars - find_if not_space (rev chars) in
    string_of_list_ascii (firstn (end_ - start) (skipn start chars)).

(** The calculator that the REPL refers to, and what was written to the
    streams [out] and [err]. *)
Record State : Type := mkState {
  calculator_ : Calculator;
  out : string;
  err : string
}.

Definition printHelp (out : string) : string :=
  out +:+ "Commands:" +:+ newline
      +:+ "  help      Show this help text" +:+ newline
      +:+ "  history   Show computed results as $1, $2, ..." +:+ newline
      +:+ "  exit      Quit the calculator" +:+ newline
      +:+ newline
      +:+ "Supported operators: +, -, *, /, %, ^" +:+ newline
      +:+ "Functions: sin, cos, tan, sqrt, log, log10, abs, ceil, floor, min, max" +:+ newline
      +:+ "Constants: pi, e" +:+ newline
      +:+ "Variable assignment: x = 3.14" +:+ newline
      +:+ "History references: $1, $2, ..." +:+ newline.

Section WithPlatform.

Variable strtod_underflow_erange : Z -> Z -> bool.
Variable m : cmath.

(** [stream << std::setprecision(15) << value]: the text of a [double] in
    the default format of a stream, with 15 significant digits; library
    code, a parameter of the model. *)
Variable format_double : float -> string.

(** The [for] loop of the command [history], from the index [i] on. *)
Fixpoint print_history (history : list float) (i : nat) (out : string) : string :=
  match history with
  | [] => out
  | value :: history =>
      print_history history (S i)
        (out +:+ "$" +:+ size_to_string (i + 1) +:+ " = "
             +:+ format_double value +:+ newline)
  end.

(** The [while (true)] loop of [run] over the lines that [std::getline]
    yields. An exception that is no [CalcError] leaves the loop and [run]. *)
Fixpoint run_loop (interactive : bool) (lines : list string) (s : State)
  : result unit * State :=
  let s := if interactive then mkState (calculator_ s) (out s +:+ "calc> ") (err s) else s in
  match lines with
  | [] => (Return tt, s)
  | line :: lines =>
      let line := trim line in
      if String.length line =? 0 then run_loop interactive lines s
      else if String.eqb line "exit" || String.eqb line "quit" then (Return tt, s)
      else if String.eqb line "help" then
        run_loop interactive lines (mkState (calculator_ s) (printHelp (out s)) (err s))
      else if String.eqb line "history" then
        run_loop interactive lines
          (mkState (calculator_ s) (print_history (history (calculator_ s)) 0 (out s)) (err s))
      else
        match evaluate strtod_underflow_erange m (calculator_ s) line with
        | (Return value, calculator) =>
            run_loop interactive lines
              (mkState calculator (out s +:+ "= " +:+ format_double value +:+ newline) (err s))
        | (Throw ex, calculator) =>
            if is_CalcError ex
            then run_loop interactive lines
                   (mkState calculator (out s) (err s +:+ what ex +:+ newline))
            else (Throw ex, mkState calculator (out s) (err s))
        | (OutOfFuel, calculator) => (OutOfFuel, mkState calculator (out s) (err s))
        end
  end.

(** [Repl(calculator).run(in, out, err)]; [interactive] is
    [&in == &std::cin], [lines] are the lines of [in]. *)
Definition run (interactive : bool) (lines : list string) (s : State)
  : result unit * State :=
  let s :=
    if interactive
    then mkState (calculator_ s)
                 (out s +:+ "Calculator REPL. Type 'help' for commands, 'exit' to quit."
                        +:+ newline)
                 (err s)
    else s in
  run_loop interactive lines s.

End WithPlatform.

End Repl.

(** ** main.cpp *)

Module Main.

Import Calculator.

(** The same function as in Repl.cpp, defined again in main.cpp. *)
Definition trim (input : string) : string :=
  let chars := list_ascii_of_string input in
  let start := Repl.find_if Repl.not_space chars in
  if start =? length chars then ""
  else
    let end_ := length chars - Repl.find_if Repl.not_space (rev chars) in
    string_of_list_ascii (firstn (end_ - start) (skipn start chars)).

(** What was written to [std::cout] and to [std::cerr]. *)
Record Output : Type := mkOutput { cout : string; cerr : string }.

Definition printUsage (program_name : string) (o : Output) : Output :=
  mkOutput (cout o +:+ "Usage:" +:+ newline
              +:+ "  " +:+ program_name +:+ "                 Start interactive REPL" +:+ newline
              +:+ "  " +:+ program_name +:+ " --file <path>   Evaluate expressions from file"
              +:+ newline
              +:+ "  " +:+ program_name +:+ " <expression>    Evaluate a single expression"
              +:+ newline)
           (cerr o).

(** The loop of [evaluateSingleExpression] over [argv[i]], [argv[i + 1]],
    ... into the stream [oss]. *)
Fixpoint join_arguments (i : nat) (args : list string) (oss : string) : string :=
  match args with
  | [] => oss
  | arg :: args =>
      join_arguments (S i) args ((if 1 <? i then oss +:+ " " else oss) +:+ arg)
  end.

Section WithPlatform.

Variable strtod_underflow_erange : Z -> Z -> bool.
Variable m : cmath.
Variable format_double : float -> string.

(** [std::ifstream file(path)]: the lines of the file, or [None] when it
    cannot be opened. *)
Variable read_lines : string -> option (list string).

(** The [while (std::getline(file, line))] loop of [evaluateFile]. *)
Fixpoint evaluateFile_loop (lines : list string) (calculator : Calculator)
  (line_number : nat) (has_error : bool) (o : Output) : result bool * Output :=
  match lines with
  | [] => (Return has_error, o)
  | line :: lines =>
      let line_number := S line_number in
      let expr := trim line in
      if (String.length expr =? 0)
         || match String.get 0 expr with Some c => Ascii.eqb c "#"%char | None => false end
      then evaluateFile_loop lines calculator line_number has_error o
      else
        match evaluate strtod_underflow_erange m calculator expr with
        | (Return value, calculator) =>
            evaluateFile_loop lines calculator line_number has_error
              (mkOutput (cout o +:+ format_double value +:+ newline) (cerr o))
        | (Throw ex, calculator) =>
            if is_CalcError ex
            then evaluateFile_loop lines calculator line_number true
                   (mkOutput (cout o)
                             (cerr o +:+ "Line " +:+ size_to_string line_number +:+ ": "
                                     +:+ what ex +:+ newline))
            else (Throw ex, o)
        | (OutOfFuel, _) => (OutOfFuel, o)
        end
  end.

Definition evaluateFile (path : string) (o : Output) : result Z * Output :=
  match read_lines path with
  | None =>
      (Return 1%Z, mkOutput (cout o) (cerr o +:+ "Failed to open file: " +:+ path +:+ newline))
  | Some lines =>
      match evaluateFile_loop lines (Calculator.new m) 0 false o with
      | (Return has_error, o) => (Return (if has_error then 1%Z else 0%Z), o)
      | (Throw ex, o) => (Throw ex, o)
      | (OutOfFuel, o) => (OutOfFuel, o)
      end
  end.

(** [evaluateSingleExpression(argc, argv)], [args] being [argv[1]] ...
    [argv[argc - 1]]. *)
Definition evaluateSingleExpression (args : list string) (o : Output) : result Z * Output :=
  match evaluate strtod_underflow_erange m (Calculator.new m) (join_arguments 1 args "") with
  | (Return value, _) =>
      (Return 0%Z, mkOutput (cout o +:+ format_double value +:+ newline) (cerr o))
  | (Throw ex, _) =>
      if is_CalcError ex
      then (Return 1%Z, mkOutput (cout o) (cerr o +:+ what ex +:+ newline))
      else (Throw ex, o)
  | (OutOfFuel, _) => (OutOfFuel, o)
  end.

(** [main(argc, argv)] for [argv] = [program_name :: args], the lines of
    [std::cin] being [stdin]: the exit status, or the exception that
    leaves [main], and what was written. *)
Definition main (program_name : string) (args : list string) (stdin : list string)
  : result Z * Output :=
  match args with
  | [] =>
      match Repl.run strtod_underflow_erange m format_double true stdin
              (Repl.mkState (Calculator.new m) "" "") with
      | (Return _, s) => (Return 0%Z, mkOutput (Repl.out s) (Repl.err s))
      | (Throw ex, s) => (Throw ex, mkOutput (Repl.out s) (Repl.err s))
      | (OutOfFuel, s) => (OutOfFuel, mkOutput (Repl.out s) (Repl.err s))
      end
  | first_arg :: rest =>
      if String.eqb first_arg "--help" || String.eqb first_arg "-h"
      then (Return 0%Z, printUsage program_name (mkOutput "" ""))
      else if String.eqb first_arg "--file" || String.eqb first_arg "-f" then
        match rest with
        | [] =>
            (Return 1%Z,
             printUsage program_name
               (mkOutput "" ("Missing file path for --file" +:+ newline)))
        | path :: _ => evaluateFile path (mkOutput "" "")
        end
      else evaluateSingleExpression args (mkOutput "" "")
  end.

End WithPlatform.

End Main.


(** * Vocabulary of the properties *)

(** ** Induction on trees *)

Section NodeInduction.

Variable P : Node -> Prop.
Hypothesis HNumber : forall value, P (NumberNode value).
Hypothesis HVariable : forall name, P (VariableNode name).
Hypothesis HHistoryRef : forall index, P (HistoryRefNode index).
Hypothesis HUnary : forall op operand, P operand -> P (UnaryNode op operand).
Hypothesis HBinary : forall op lhs rhs, P lhs -> P rhs -> P (BinaryNode op lhs rhs).
Hypothesis HCall : forall name args, Forall P args -> P (CallNode name args).
Hypothesis HAssignment : forall name expression,
  P expression -> P (AssignmentNode name expression).

Fixpoint Node_induction (node : Node) : P node :=
  match node with
  | NumberNode value => HNumber value
  | VariableNode name => HVariable name
  | HistoryRefNode index => HHistoryRef index
  | UnaryNode op operand => HUnary op operand (Node_induction operand)
  | BinaryNode op lhs rhs => HBinary op lhs rhs (Node_induction lhs) (Node_induction rhs)
  | CallNode name args =>
      HCall name args
        ((fix all (nodes : list Node) : Forall P nodes :=
            match nodes with
            | [] => @List.Forall_nil Node P
            | arg :: nodes => @List.Forall_cons Node P arg nodes (Node_induction arg) (all nodes)
            end) args)
  | AssignmentNode name expression =>
      HAssignment name expression (Node_induction expression)
  end.

End NodeInduction.

(** ** Trees and token sequences *)

(** The parser builds an assignment node only in [parseStatement]. *)
Fixpoint has_assignment (node : Node) : bool :=
  match node with
  | NumberNode _ | VariableNode _ | HistoryRefNode _ => false
  | UnaryNode _ operand => has_assignment operand
  | BinaryNode _ lhs rhs => has_assignment lhs || has_assignment rhs
  | CallNode _ args => existsb has_assignment args
  | AssignmentNode _ _ => true
  end.

Definition no_assignment (node : Node) : Prop := has_assignment node = false.

Definition no_assignments (nodes : list Node) : Prop := existsb has_assignment nodes = false.

(** The tree of a statement: an assignment node at the root at most. *)
Definition statement_shape (ast : Node) : Prop :=
  match ast with
  | AssignmentNode _ expression => no_assignment expression
  | _ => no_assignment ast
  end.

(** A text of decimal digits only. *)
Fixpoint all_digits (s : string) : bool :=
  match s with
  | EmptyString => true
  | String c s' => isdigit c && all_digits s'
  end.

(** [n] times the character [c]. *)
Fixpoint repeat_char (c : ascii) (n : nat) : string :=
  match n with
  | 0 => EmptyString
  | S n => String c (repeat_char c n)
  end.

(** The lexer over [String c s] at position [S pos] is the lexer over [s]
    at [pos], shifted. *)
Definition shift (c : ascii) (l : Lexer.Lexer) : Lexer.Lexer :=
  Lexer.mkLexer (String c (Lexer.input_ l)) (S (Lexer.pos_ l)).

(** ** Outcomes of the parser *)

(** With more fuel an outcome other than [OutOfFuel] stays. *)
Definition le_result {A : Type} (r1 r2 : result A) : Prop := r1 = OutOfFuel \/ r1 = r2.

(** A call from state [p] that returns leaves a value that satisfies [ok]
    and a state over the same tokens, not before [p] and inside the tokens
    if [p] is; a call that throws, throws a [ParseError]. *)
Definition parsed {A : Type} (ok : A -> Prop) (p : Parser.Parser)
  (r : result (A * Parser.Parser)) : Prop :=
  match r with
  | Return (a, p') =>
      ok a /\ Parser.tokens_ p' = Parser.tokens_ p /\ Parser.pos_ p <= Parser.pos_ p'
      /\ (Parser.pos_ p < length (Parser.tokens_ p) ->
          Parser.pos_ p' < length (Parser.tokens_ p))
  | Throw e => is_ParseError e = true
  | OutOfFuel => True
  end.

(** The tokens not yet read. *)
Definition tokens_left (p : Parser.Parser) : nat :=
  length (Parser.tokens_ p) - Parser.pos_ p.

(** [f] parses the tokens from [p] up to [p'] into [a], given enough fuel. *)
Definition parses {A : Type} (f : nat -> Parser.Parser -> result (A * Parser.Parser))
  (p : Parser.Parser) (a : A) (p' : Parser.Parser) : Prop :=
  exists fuel, f fuel p = Return (a, p').

(** The operators of the two [while] loops of the parser, by token type. *)
Definition additive_op (ty : TokenType) : option BinaryOp :=
  match ty with Plus => Some Add | Minus => Some Subtract | _ => None end.

Definition multiplicative_op (ty : TokenType) : option BinaryOp :=
  match ty with
  | Star => Some Multiply | Slash => Some Divide | Percent => Some Modulo
  | _ => None
  end.

(** ** Outcomes of the evaluator *)

(** What a walk of a tree from the context [ctx] leaves: it never touches
    the history; it touches no variable when the tree is [pure] (has no
    assignment node); what it throws is an [EvalError]. *)
Definition evaluated {A : Type} (pure : Prop) (ctx : Context.EvaluationContext)
  (r : result A * Context.EvaluationContext) : Prop :=
  Context.history_ (snd r) = Context.history_ ctx /\
  (pure -> snd r = ctx) /\
  match fst r with
  | Return _ => True
  | Throw e => is_EvalError e = true
  | OutOfFuel => False
  end.

(** The constants of a context, as the constructor binds them. *)
Definition constants_bound (m : cmath) (ctx : Context.EvaluationContext) : Prop :=
  Context.variables_ ctx !! "pi" = Some (std_acos m (-1)%float) /\
  Context.variables_ ctx !! "e" = Some (std_exp m 1%float).

(** ** A platform to run examples on *)

(** [strtod] reports every underflow, and the library functions are exact
    on the arguments the examples use (and not a number elsewhere). *)
Definition sample_underflow_erange : Z -> Z -> bool := fun _ _ => true.

Definition sample_pow (x y : float) : float :=
  if PrimFloat.eqb y 2 then (x * x)%float
  else if PrimFloat.eqb y 9 then (x * x * x * x * x * x * x * x * x)%float
  else if PrimFloat.eqb y (-2) then (1 / (x * x))%float
  else nan.

Definition sample_cmath : cmath :=
  mk_cmath (fun x => if PrimFloat.eqb x (-1) then 0x1.921fb54442d18p+1%float else nan)
           (fun x => if PrimFloat.eqb x 1 then 0x1.5bf0a8b145769p+1%float else nan)
           (fun _ => nan) (fun _ => nan) (fun _ => nan) (fun _ => nan) (fun _ => nan)
           (fun _ => nan) (fun _ => nan) (fun _ _ => nan) sample_pow.

(** ** Tokens over their input *)

(** Every character of [s] is of the class [P]. *)
Fixpoint string_forallb (P : ascii -> bool) (s : string) : bool :=
  match s with
  | EmptyString => true
  | String c s' => P c && string_forallb P s'
  end.

(** A name: a letter or an underscore, then letters, digits, underscores. *)
Definition is_identifier (s : string) : bool :=
  match s with
  | EmptyString => false
  | String c rest =>
      Lexer.isIdentifierStart c && string_forallb Lexer.isIdentifierPart rest
  end.

(** The position after the last character of a token. *)
Definition token_end (t : Token) : nat := position t + String.length (lexeme t).

(** A token other than [End] that is a piece of [input]: its lexeme is not
    empty and is the text of [input] at its position. *)
Definition token_of (input : string) (t : Token) : Prop :=
  type t <> End /\ 0 < String.length (lexeme t) /\
  String.substring (position t) (String.length (lexeme t)) input = lexeme t.

(** What the fields of a token are to each other, by type. *)
Definition token_shape (strtod_underflow_erange : Z -> Z -> bool) (t : Token) : Prop :=
  match type t with
  | End => lexeme t = EmptyString
  | Number => stod strtod_underflow_erange (lexeme t) = Return (number_value t)
  | Identifier => is_identifier (lexeme t) = true
  | HistoryRef =>
      exists ds, lexeme t = String "$"%char ds /\ 0 < String.length ds /\
                 all_digits ds = true /\ stoi ds = Return (history_index t)
  | ty => exists c, lexeme t = String c EmptyString /\ Lexer.punctuation c = Some ty
  end.

(** The tokens [ts] lie in [input] before [pos], one after the other, and
    what they leave out of the first [pos] characters is white space. *)
Definition covers (input : string) (ts : list Token) (pos : nat) : Prop :=
  Forall (token_of input) ts /\
  Forall (fun t => token_end t <= pos) ts /\
  (forall i j t1 t2, i < j -> ts !! i = Some t1 -> ts !! j = Some t2 ->
                     token_end t1 <= position t2) /\
  (forall i c, i < pos -> String.get i input = Some c ->
               isspace c = true \/
               exists t, t ∈ ts /\ position t <= i < token_end t).

(** The failures of [tokenize], by case: a character that starts no token,
    an exponent without digits, and the two range errors of the standard
    conversions. *)
Definition lexer_failure (input : string) (x : exception) : Prop :=
  (exists k c,
     String.get k input = Some c /\
     isdigit c = false /\ Lexer.isIdentifierStart c = false /\ Lexer.punctuation c = None /\
     x = ParseError ("Unexpected token '" +:+ Lexer.char_to_string c
                     +:+ "' at position " +:+ size_to_string k)) \/
  (exists k c,
     String.get k input = Some c /\ (c = "e"%char \/ c = "E"%char) /\
     x = ParseError ("Invalid number at position " +:+ size_to_string k)) \/
  x = std_out_of_range "stod" \/
  x = std_out_of_range "stoi".

(** ** Errors of the parser *)

(** What the parser throws is [throwUnexpected] of one of its tokens. *)
Definition reports {A : Type} (tokens : list Token) (r : result A) : Prop :=
  match r with
  | Throw e => exists t, t ∈ tokens /\ e = Parser.throwUnexpected t
  | _ => True
  end.

(** ** Names in a tree *)

(** The tree reads or assigns the variable [name]. *)
Fixpoint mentions (name : string) (node : Node) : bool :=
  match node with
  | NumberNode _ | HistoryRefNode _ => false
  | VariableNode n => String.eqb n name
  | UnaryNode _ operand => mentions name operand
  | BinaryNode _ lhs rhs => mentions name lhs || mentions name rhs
  | CallNode _ args => existsb (mentions name) args
  | AssignmentNode n expression => String.eqb n name || mentions name expression
  end.

(** Two contexts with one history that agree on the variables of [S]. *)
Definition agree (S : string -> Prop) (ctx1 ctx2 : Context.EvaluationContext) : Prop :=
  Context.history_ ctx1 = Context.history_ ctx2 /\
  forall name, S name -> Context.variables_ ctx1 !! name = Context.variables_ ctx2 !! name.

(** A computation that agreeing contexts cannot tell apart: it ends the
    same way, in contexts that agree. *)
Definition same {A : Type} (S : string -> Prop) (c : Evaluator.eval A) : Prop :=
  forall ctx1 ctx2, agree S ctx1 ctx2 ->
    fst (c ctx1) = fst (c ctx2) /\ agree S (snd (c ctx1)) (snd (c ctx2)).

(** ** The built-in functions *)

(** The built-in functions of one argument. *)
Definition unary_functions : list string :=
  ["sin"; "cos"; "tan"; "sqrt"; "log"; "log10"; "abs"; "ceil"; "floor"].

(** ** Sequences of calls *)

(** The calculator after [evaluate] was called on each of [lines] in turn,
    from the state [calc], the exceptions caught by the caller. *)
Definition after (strtod_underflow_erange : Z -> Z -> bool) (m : cmath)
  (calc : Calculator.Calculator) (lines : list string) : Calculator.Calculator :=
  fold_left (fun calc line => snd (Calculator.evaluate strtod_underflow_erange m calc line))
            lines calc.

(** The values that these calls return, in order. *)
Fixpoint returned (strtod_underflow_erange : Z -> Z -> bool) (m : cmath)
  (calc : Calculator.Calculator) (lines : list string) : list float :=
  match lines with
  | [] => []
  | line :: lines =>
      match Calculator.evaluate strtod_underflow_erange m calc line with
      | (Return value, calc') => value :: returned strtod_underflow_erange m calc' lines
      | (_, calc') => returned strtod_underflow_erange m calc' lines
      end
  end.

(** ** The front ends *)

(** [trim] on the characters. *)
Definition trim_chars (chars : list ascii) : list ascii :=
  let start := Repl.find_if Repl.not_space chars in
  if start =? length chars then []
  else take (length chars - Repl.find_if Repl.not_space (rev chars) - start) (drop start chars).


(** The lines of its input that the REPL hands to [evaluate]: trimmed,
    neither empty nor a command, up to the first [exit] or [quit]. *)
Fixpoint expressions (lines : list string) : list string :=
  match lines with
  | [] => []
  | line :: lines =>
      let line := Repl.trim line in
      if String.length line =? 0 then expressions lines
      else if String.eqb line "exit" || String.eqb line "quit" then []
      else if String.eqb line "help" || String.eqb line "history" then expressions lines
      else line :: expressions lines
  end.

(** A line of a file that [evaluateFile] skips: blank, or a comment. *)
Definition skipped (line : string) : bool :=
  match Main.trim line with
  | EmptyString => true
  | String c _ => Ascii.eqb c "#"%char
  end.

(** The options of the command line. *)
Definition is_option (arg : string) : bool :=
  String.eqb arg "--help" || String.eqb arg "-h"
  || String.eqb arg "--file" || String.eqb arg "-f".

(** Each argument after a space. *)
Fixpoint spaced (args : list string) : string :=
  match args with
  | [] => EmptyString
  | arg :: args => " " +:+ arg +:+ spaced args
  end.

Definition no_space (c : ascii) : bool := negb (Ascii.eqb c " "%char).

(** ** A platform to run the front ends on *)

(** The text of the numbers that the examples print, [?] for the others. *)
Definition sample_format_double (value : float) : string :=
  if PrimFloat.eqb value 5 then "5"
  else if PrimFloat.eqb value 2 then "2"
  else "?".

(** A file system with one file. *)
Definition sample_read_lines (path : string) : option (list string) :=
  if String.eqb path "input.txt"
  then Some ["# a comment"; "x = 2"; ""; "x + 3"; "1 / 0"]
  else None.

(** * Properties *)
(** ** The lexer *)

Module LexerFacts.
Import Lexer.

Lemma advance_input l : input_ (advance l) = input_ l.
Proof. unfold advance. destruct (isAtEnd l); reflexivity. Qed.

Lemma advance_forward l : pos_ l <= pos_ (advance l).
Proof. unfold advance. destruct (isAtEnd l); simpl; lia. Qed.

Lemma advance_pos l : isAtEnd l = false -> pos_ (advance l) = S (pos_ l).
Proof. unfold advance. intros ->. reflexivity. Qed.

Lemma isAtEnd_false l : isAtEnd l = false <-> pos_ l < String.length (input_ l).
Proof. unfold isAtEnd. rewrite Nat.leb_gt. reflexivity. Qed.

Lemma remaining_pos l : isAtEnd l = false -> exists k, remaining l = S k.
Proof.
intros H. apply isAtEnd_false in H. unfold remaining.
exists (String.length (input_ l) - pos_ l - 1). lia.
Qed.

Lemma advance_while_state cond fuel : forall l n l' n',
advance_while cond fuel l n = (l', n') ->
input_ l' = input_ l /\ pos_ l <= pos_ l'.
Proof.
induction fuel as [|fuel IH]; simpl; intros l n l' n' H.
- inversion H; subst. split; [reflexivity | lia].
- destruct (cond l).
  + apply IH in H. destruct H as [Hi Hp]. rewrite advance_input in Hi.
    pose proof (advance_forward l). split; [assumption | lia].
  + inversion H; subst. split; [reflexivity | lia].
Qed.

Lemma advance_while_progress cond l n l' n' :
advance_while cond (remaining l) l n = (l', n') ->
cond l = true -> isAtEnd l = false -> pos_ l < pos_ l'.
Proof.
intros H Hc He. destruct (remaining_pos l He) as [k Hk]. rewrite Hk in H.
simpl in H. rewrite Hc in H.
apply advance_while_state in H. destruct H as [_ H].
rewrite (advance_pos l He) in H. lia.
Qed.

Lemma skipWhitespace_state l :
input_ (skipWhitespace l) = input_ l /\ pos_ l <= pos_ (skipWhitespace l).
Proof.
unfold skipWhitespace.
destruct (advance_while _ (remaining l) l 0) as [l' n'] eqn:E.
apply advance_while_state in E. exact E.
Qed.

(** The class of an exception of the conversions. *)
Lemma stoi_throws text e : stoi text = Throw e -> is_CalcError e = false.
Proof.
unfold stoi. destruct (span_digits text) as [ds rest].
destruct (String.length ds =? 0); [intros [= <-]; reflexivity|].
destruct (INT_MAX <? digits_value ds)%Z; [intros [= <-]; reflexivity | discriminate].
Qed.

Lemma stod_throws uf text e : stod uf text = Throw e -> is_CalcError e = false.
Proof.
unfold stod. destruct (span_digits text) as [ip r1].
destruct (match r1 with String c r => _ | EmptyString => _ end) as [fp r2].
destruct (_ =? 0); [intros [= <-]; reflexivity|].
unfold decimal_to_double.
destruct (_ =? 0)%Z; [discriminate|].
destruct (if (0 <=? _)%Z then _ else _); try discriminate;
  try (destruct (_ && _); [intros [= <-]; reflexivity | discriminate]).
intros [= <-]; reflexivity.
Qed.

Lemma stoi_returns text : stoi text <> OutOfFuel.
Proof.
unfold stoi. destruct (span_digits text) as [ds rest].
destruct (String.length ds =? 0); [discriminate|].
destruct (INT_MAX <? digits_value ds)%Z; discriminate.
Qed.

Lemma stod_returns uf text : stod uf text <> OutOfFuel.
Proof.
unfold stod. destruct (span_digits text) as [ip r1].
destruct (match r1 with String c r => _ | EmptyString => _ end) as [fp r2].
destruct (_ =? 0); [discriminate|].
unfold decimal_to_double.
destruct (_ =? 0)%Z; [discriminate|].
destruct (if (0 <=? _)%Z then _ else _); try discriminate;
  destruct (_ && _); discriminate.
Qed.

Section WithStrtod.
Variable uf : Z -> Z -> bool.

Lemma lexNumber_state l token l' :
lexNumber uf l = Return (token, l') ->
input_ l' = input_ l /\
(isdigit (currentChar l) || Ascii.eqb (currentChar l) "."%char = true ->
 isAtEnd l = false -> pos_ l < pos_ l').
Proof.
unfold lexNumber.
destruct (advance_while at_digit (remaining l) l 0) as [l1 n1] eqn:E1.
destruct (if Ascii.eqb (currentChar l1) "."%char then _ else _) as [l2 n2] eqn:E2.
destruct (negb _); [discriminate|].
destruct (if Ascii.eqb (currentChar l2) "e"%char || _ then _ else _) as [l3| |] eqn:E3;
  simpl; try discriminate.
destruct (stod uf _); simpl; try discriminate.
intros [= <- <-].
assert (H1 := advance_while_state _ _ _ _ _ _ E1). destruct H1 as [Hi1 Hp1].
assert (H2 : input_ l2 = input_ l1 /\ pos_ l1 <= pos_ l2
             /\ (Ascii.eqb (currentChar l1) "."%char = true -> isAtEnd l1 = false ->
                 pos_ l1 < pos_ l2)).
{ destruct (Ascii.eqb (currentChar l1) "."%char).
  - apply advance_while_state in E2. rewrite advance_input in E2.
    destruct E2 as [Hi Hp]. pose proof (advance_forward l1).
    split; [assumption|]. split; [lia|]. intros _ He.
    rewrite (advance_pos l1 He) in Hp. lia.
  - inversion E2; subst. split; [reflexivity|]. split; [lia | discriminate]. }
destruct H2 as (Hi2 & Hp2 & Hdot).
assert (H3 : input_ l3 = input_ l2 /\ pos_ l2 <= pos_ l3).
{ cbv zeta in E3. destruct (Ascii.eqb (currentChar l2) "e"%char || _).
  - match type of E3 with
    | context [advance_while at_digit (remaining ?x) ?x 0] =>
        assert (Hx : input_ x = input_ l2 /\ pos_ l2 <= pos_ x)
          by (pose proof (advance_forward l2); pose proof (advance_forward (advance l2));
              pose proof (advance_input l2); pose proof (advance_input (advance l2));
              destruct (_ || _); split; try congruence; lia);
        destruct (advance_while at_digit (remaining x) x 0) as [l4 n4] eqn:E4
    end.
    destruct (n4 =? 0); [discriminate|]. inversion E3; subst l4.
    apply advance_while_state in E4. destruct E4 as [Hi Hp].
    destruct Hx as [Hi' Hp']. split; [congruence | lia].
  - inversion E3; subst. split; [reflexivity | lia]. }
destruct H3 as [Hi3 Hp3].
split; [congruence|].
intros Hc He.
destruct (isdigit (currentChar l)) eqn:Hd.
- pose proof (advance_while_progress _ _ _ _ _ E1 Hd He). lia.
- simpl in Hc.
  destruct (remaining_pos l He) as [k Hk]. rewrite Hk in E1. simpl in E1.
  unfold at_digit in E1 at 1. rewrite Hd in E1. inversion E1; subst l1 n1.
  specialize (Hdot Hc He). lia.
Qed.

Lemma lexNumber_throws l e : lexNumber uf l = Throw e -> is_EvalError e = false.
Proof.
unfold lexNumber.
destruct (advance_while at_digit (remaining l) l 0) as [l1 n1].
destruct (if Ascii.eqb (currentChar l1) "."%char then _ else _) as [l2 n2].
destruct (negb _); [intros [= <-]; reflexivity|].
destruct (if Ascii.eqb (currentChar l2) "e"%char || _ then _ else _) as [l3| e3 |] eqn:E3;
  simpl; try discriminate.
- destruct (stod uf _) eqn:Es; simpl; try discriminate.
  intros [= <-]. apply stod_throws in Es.
  unfold is_CalcError in Es. apply orb_false_iff in Es. tauto.
- intros [= <-]. cbv zeta in E3.
  destruct (Ascii.eqb (currentChar l2) "e"%char || _); [|discriminate].
  destruct (advance_while at_digit _ _ 0) as [l4 n4].
  destruct (n4 =? 0); [|discriminate]. inversion E3. reflexivity.
Qed.

Lemma lexNumber_returns l : lexNumber uf l <> OutOfFuel.
Proof.
unfold lexNumber.
destruct (advance_while at_digit (remaining l) l 0) as [l1 n1].
destruct (if Ascii.eqb (currentChar l1) "."%char then _ else _) as [l2 n2].
destruct (negb _); [discriminate|].
destruct (if Ascii.eqb (currentChar l2) "e"%char || _ then _ else _) as [l3| e3 |] eqn:E3;
  simpl; try discriminate.
- destruct (stod uf _) eqn:Es; simpl; try discriminate.
  exfalso. apply (stod_returns _ _ Es).
- cbv zeta in E3.
  destruct (Ascii.eqb (currentChar l2) "e"%char || _); [|discriminate].
  destruct (advance_while at_digit _ _ 0) as [l4 n4].
  destruct (n4 =? 0); discriminate.
Qed.

Lemma lexIdentifier_state l token l' :
lexIdentifier l = (token, l') ->
input_ l' = input_ l /\
(isIdentifierStart (currentChar l) = true -> isAtEnd l = false -> pos_ l < pos_ l').
Proof.
unfold lexIdentifier.
destruct (advance_while _ (remaining l) l 0) as [l1 n1] eqn:E1.
intros [= <- <-].
split; [apply (advance_while_state _ _ _ _ _ _ E1)|].
intros Hs He.
apply (advance_while_progress _ _ _ _ _ E1); [|assumption].
unfold isIdentifierStart, isIdentifierPart, isalnum in *.
destruct (isalpha (currentChar l)); [reflexivity|].
simpl in *. rewrite Hs. apply orb_true_r.
Qed.

Lemma lexHistoryRef_state l token l' :
lexHistoryRef l = Return (token, l') ->
input_ l' = input_ l /\ (isAtEnd l = false -> pos_ l < pos_ l').
Proof.
unfold lexHistoryRef.
destruct (advance_while at_digit _ (advance l) 0) as [l1 n1] eqn:E1.
destruct (n1 =? 0); [discriminate|].
destruct (stoi _); simpl; try discriminate.
intros [= <- <-].
apply advance_while_state in E1. rewrite advance_input in E1.
destruct E1 as [Hi Hp]. split; [assumption|].
intros He. rewrite (advance_pos l He) in Hp. lia.
Qed.

Lemma lexHistoryRef_throws l e : lexHistoryRef l = Throw e -> is_EvalError e = false.
Proof.
unfold lexHistoryRef.
destruct (advance_while at_digit _ (advance l) 0) as [l1 n1].
destruct (n1 =? 0); [intros [= <-]; reflexivity|].
destruct (stoi _) eqn:Es; simpl; try discriminate.
intros [= <-]. apply stoi_throws in Es.
unfold is_CalcError in Es. apply orb_false_iff in Es. tauto.
Qed.

Lemma lexHistoryRef_returns l : lexHistoryRef l <> OutOfFuel.
Proof.
unfold lexHistoryRef.
destruct (advance_while at_digit _ (advance l) 0) as [l1 n1].
destruct (n1 =? 0); [discriminate|].
destruct (stoi _) eqn:Es; simpl; try discriminate.
exfalso. apply (stoi_returns _ Es).
Qed.

Lemma tokenize_loop_spec fuel : forall l tokens,
remaining l < fuel ->
match tokenize_loop uf fuel l tokens with
| Return ts => ends_with_End ts
| Throw e => is_EvalError e = false
| OutOfFuel => False
end.
Proof.
induction fuel as [|fuel IH]; intros l tokens Hfuel; [lia|].
simpl.
destruct (isAtEnd l) eqn:He0.
{ exists tokens, (end_token l). split; reflexivity. }
destruct (skipWhitespace_state l) as [Hi Hp].
set (l1 := skipWhitespace l) in *.
destruct (isAtEnd l1) eqn:He.
{ exists tokens, (end_token l1). split; reflexivity. }
assert (Hrem : remaining l1 <= remaining l).
{ unfold remaining. rewrite Hi. lia. }
assert (Hnext : forall l2 ts, input_ l2 = input_ l1 -> pos_ l1 < pos_ l2 ->
          match tokenize_loop uf fuel l2 ts with
          | Return ts => ends_with_End ts
          | Throw e => is_EvalError e = false
          | OutOfFuel => False
          end).
{ intros l2 ts Hi2 Hp2. apply IH. apply isAtEnd_false in He.
  unfold remaining in *. rewrite Hi2. lia. }
destruct (isdigit (currentChar l1) || _) eqn:Hnum.
{ destruct (lexNumber uf l1) as [[token l2]| e |] eqn:E; simpl.
  - apply lexNumber_state in E. destruct E as [Hi2 Hp2].
    apply Hnext; [assumption|]. apply Hp2; [|assumption].
    destruct (isdigit (currentChar l1)); [reflexivity|]. simpl in *.
    apply andb_true_iff in Hnum. tauto.
  - apply (lexNumber_throws _ _ E).
  - apply (lexNumber_returns _ E). }
destruct (isIdentifierStart (currentChar l1)) eqn:Hid.
{ destruct (lexIdentifier l1) as [token l2] eqn:E.
  apply lexIdentifier_state in E. destruct E as [Hi2 Hp2].
  apply Hnext; [assumption|]. apply Hp2; assumption. }
destruct (Ascii.eqb (currentChar l1) "$"%char) eqn:Hdollar.
{ destruct (lexHistoryRef l1) as [[token l2]| e |] eqn:E; simpl.
  - apply lexHistoryRef_state in E. destruct E as [Hi2 Hp2].
    apply Hnext; [assumption|]. apply Hp2; assumption.
  - apply (lexHistoryRef_throws _ _ E).
  - apply (lexHistoryRef_returns _ E). }
destruct (punctuation (currentChar l1)); [|reflexivity].
apply Hnext; [apply advance_input|].
rewrite (advance_pos l1 He). lia.
Qed.

Lemma tokenize_spec input :
match tokenize uf input with
| Return ts => ends_with_End ts
| Throw e => is_EvalError e = false
| OutOfFuel => False
end.
Proof. apply tokenize_loop_spec. unfold remaining. simpl. lia. Qed.

End WithStrtod.
End LexerFacts.

(** ** Literals of digits *)

Module DigitsFacts.
Import Lexer LexerFacts.

Lemma currentChar_shift c l : currentChar (shift c l) = currentChar l.
Proof. reflexivity. Qed.

Lemma advance_shift c l : advance (shift c l) = shift c (advance l).
Proof. unfold advance, isAtEnd. simpl. destruct (_ <=? _); reflexivity. Qed.

Lemma remaining_shift c l : remaining (shift c l) = remaining l.
Proof. reflexivity. Qed.

Lemma advance_while_shift c fuel : forall l count,
advance_while at_digit fuel (shift c l) count =
(shift c (fst (advance_while at_digit fuel l count)),
 snd (advance_while at_digit fuel l count)).
Proof.
induction fuel as [|fuel IH]; intros l count; simpl; [reflexivity|].
unfold at_digit at 1 3 5. rewrite currentChar_shift.
destruct (isdigit (currentChar l)); [|reflexivity].
rewrite advance_shift. apply IH.
Qed.

Lemma advance_while_S cond fuel l count :
advance_while cond (S fuel) l count =
if cond l then advance_while cond fuel (advance l) (S count) else (l, count).
Proof. reflexivity. Qed.

Lemma length_append (s1 s2 : string) :
String.length (s1 +:+ s2) = String.length s1 + String.length s2.
Proof.
induction s1 as [|c s1 IH]; [reflexivity|].
change (String.length (String c s1 +:+ s2)) with (S (String.length (s1 +:+ s2))).
rewrite IH. reflexivity.
Qed.

(** The digits loop reads the digits [ds] and stops before [rest]. *)
Lemma advance_while_digits ds rest : forall count,
all_digits ds = true ->
match rest with String c _ => isdigit c = false | EmptyString => True end ->
advance_while at_digit (String.length (ds +:+ rest)) (mkLexer (ds +:+ rest) 0) count
= (mkLexer (ds +:+ rest) (String.length ds), count + String.length ds).
Proof.
induction ds as [|c ds IH]; intros count Hds Hrest.
- simpl. rewrite Nat.add_0_r. destruct rest as [|c rest]; [reflexivity|].
  simpl. unfold at_digit, currentChar. simpl. rewrite Hrest. reflexivity.
- simpl in Hds. apply andb_true_iff in Hds. destruct Hds as [Hc Hds].
  change (String.length (String c ds +:+ rest)) with (S (String.length (ds +:+ rest))).
  change (String c ds +:+ rest) with (String c (ds +:+ rest)).
  rewrite advance_while_S.
  assert (Hd : at_digit (mkLexer (String c (ds +:+ rest)) 0) = true) by exact Hc.
  assert (Ha : advance (mkLexer (String c (ds +:+ rest)) 0)
               = shift c (mkLexer (ds +:+ rest) 0)) by reflexivity.
  rewrite Hd, Ha, advance_while_shift, (IH (S count) Hds Hrest). unfold shift. simpl.
  f_equal. lia.
Qed.

Lemma get_append_length (ds : string) c rest :
String.get (String.length ds) (ds +:+ String c rest) = Some c.
Proof. induction ds as [|d ds IH]; simpl; [reflexivity | exact IH]. Qed.

Lemma substring_all (s : string) : String.substring 0 (String.length s) s = s.
Proof.
induction s as [|c s IH]; [reflexivity|].
change (String.substring 0 (String.length (String c s)) (String c s))
  with (String c (String.substring 0 (String.length s) s)).
f_equal. exact IH.
Qed.

Lemma span_digits_append ds rest :
all_digits ds = true ->
match rest with String c _ => isdigit c = false | EmptyString => True end ->
span_digits (ds +:+ rest) = (ds, rest).
Proof.
intros Hds Hrest. induction ds as [|c ds IH]; simpl.
- destruct rest as [|c rest]; [reflexivity|]. simpl. rewrite Hrest. reflexivity.
- simpl in Hds. apply andb_true_iff in Hds. destruct Hds as [Hc Hds].
  rewrite Hc, (IH Hds). reflexivity.
Qed.

Lemma append_empty (s : string) : s +:+ "" = s.
Proof.
induction s as [|c s IH]; [reflexivity|].
change (String c s +:+ "") with (String c (s +:+ "")). f_equal. exact IH.
Qed.

(** [std::stod] reads a trailing point as nothing. *)
Lemma stod_trailing_point uf ds :
all_digits ds = true -> stod uf (ds +:+ ".") = stod uf ds.
Proof.
intros Hds. unfold stod.
rewrite (span_digits_append ds "." Hds) by reflexivity.
pose proof (span_digits_append ds "" Hds I) as H. rewrite append_empty in H.
rewrite H. reflexivity.
Qed.

Lemma isdigit_not_space c : isdigit c = true -> isspace c = false.
Proof.
unfold isdigit, isspace. intros H. apply andb_true_iff in H. destruct H as [H1 H2].
apply Nat.leb_le in H1, H2.
apply orb_false_iff. split; [apply Nat.eqb_neq; lia|].
apply andb_false_iff. right. apply Nat.leb_gt. lia.
Qed.

Section WithStrtod.
Variable uf : Z -> Z -> bool.

(** Digits and a trailing point are one number token, of the value that
[std::stod] gives the digits. *)
Lemma lexNumber_trailing_point c ds :
isdigit c = true -> all_digits ds = true ->
lexNumber uf (mkLexer (String c ds +:+ ".") 0) =
let* value := stod uf (String c ds) in
Return (mkToken Number (String c ds +:+ ".") 0 value 0,
      mkLexer (String c ds +:+ ".") (S (S (String.length ds)))).
Proof.
intros Hc Hds.
assert (Hall : all_digits (String c ds) = true) by (simpl; rewrite Hc, Hds; reflexivity).
set (s := String c ds +:+ ".").
assert (Hlen : String.length s = S (S (String.length ds))).
{ unfold s. rewrite length_append. simpl. lia. }
unfold lexNumber.
replace (remaining (mkLexer s 0)) with (String.length s)
by (unfold remaining; cbn [pos_ input_]; lia).
unfold s at 1 2. rewrite (advance_while_digits (String c ds) "." 0 Hall) by reflexivity.
fold s. cbn [String.length Nat.add].
assert (Hcur : currentChar (mkLexer s (S (String.length ds))) = "."%char).
{ unfold currentChar, isAtEnd. simpl pos_. simpl input_. rewrite Hlen.
destruct (Nat.leb_spec (S (S (String.length ds))) (S (String.length ds))); [lia|].
unfold s. change (S (String.length ds)) with (String.length (String c ds)).
rewrite get_append_length. reflexivity. }
rewrite Hcur. cbn [Ascii.eqb Bool.eqb]. 
assert (Hadv : advance (mkLexer s (S (String.length ds)))
             = mkLexer s (S (S (String.length ds)))).
{ unfold advance, isAtEnd. cbn [pos_ input_]. rewrite Hlen.
destruct (Nat.leb_spec (S (S (String.length ds))) (S (String.length ds))); [lia|].
reflexivity. }
rewrite Hadv.
replace (remaining (mkLexer s (S (S (String.length ds))))) with 0
by (unfold remaining; cbn [pos_ input_]; lia).
cbn [advance_while].
assert (Hend : currentChar (mkLexer s (S (S (String.length ds)))) = Ascii.zero).
{ unfold currentChar, isAtEnd. cbn [pos_ input_]. rewrite Hlen, Nat.leb_refl. reflexivity. }
rewrite Hend. cbn -[stod String.substring String.length s].
rewrite <- Hlen, substring_all. unfold s at 1.
rewrite (stod_trailing_point uf (String c ds) Hall). reflexivity.
Qed.

Theorem tokenize_trailing_point c ds :
isdigit c = true -> all_digits ds = true ->
tokenize uf (String c ds +:+ ".") =
let* value := stod uf (String c ds) in
Return [mkToken Number (String c ds +:+ ".") 0 value 0;
      mkToken End "" (S (S (String.length ds))) 0 0].
Proof.
intros Hc Hds. unfold tokenize.
set (s := String c ds +:+ ".").
assert (Hlen : String.length s = S (S (String.length ds))).
{ unfold s. rewrite length_append. simpl. lia. }
rewrite Hlen. cbn [tokenize_loop].
assert (Hcur : currentChar (mkLexer s 0) = c) by reflexivity.
assert (Hskip : skipWhitespace (mkLexer s 0) = mkLexer s 0).
{ unfold skipWhitespace, remaining. cbn [pos_ input_]. rewrite Hlen.
cbn [Nat.sub advance_while]. rewrite Hcur, (isdigit_not_space c Hc), andb_false_r.
reflexivity. }
assert (He : isAtEnd (mkLexer s 0) = false) by reflexivity.
rewrite He, Hskip, He, Hcur, Hc. cbn [orb].
unfold s. rewrite (lexNumber_trailing_point c ds Hc Hds). fold s.
destruct (stod uf (String c ds)) as [value| e |]; cbn [bind]; try reflexivity.
unfold isAtEnd. cbn [pos_ input_]. rewrite Hlen, Nat.leb_refl. reflexivity.
Qed.

End WithStrtod.
(** *** Decimal text of a number *)

Lemma string_of_uint_digits d : all_digits (NilEmpty.string_of_uint d) = true.
Proof. induction d; simpl; auto. Qed.

Lemma string_of_uint_value d : forall acc,
  digits_value_from (Z.of_nat acc) (NilEmpty.string_of_uint d)
  = Z.of_nat (Nat.of_uint_acc d acc).
Proof.
  induction d; intros acc; simpl; [reflexivity | ..];
    rewrite Nat.tail_mul_spec, <- IHd; f_equal.
  all: match goal with |- context [digit_value ?c] =>
         let v := eval vm_compute in (digit_value c) in change (digit_value c) with v end.
  all: lia.
Qed.

Lemma size_to_string_digits n : all_digits (size_to_string n) = true.
Proof. apply string_of_uint_digits. Qed.

Lemma size_to_string_value n : digits_value (size_to_string n) = Z.of_nat n.
Proof.
  unfold digits_value, size_to_string.
  change 0%Z with (Z.of_nat 0).
  rewrite (string_of_uint_value (Nat.to_uint n) 0).
  change (Nat.of_uint_acc (Nat.to_uint n) 0) with (Nat.of_uint (Nat.to_uint n)).
  rewrite DecimalNat.Unsigned.of_to. reflexivity.
Qed.

Lemma size_to_string_not_empty n : 0 < String.length (size_to_string n).
Proof.
  unfold size_to_string.
  rewrite <- (DecimalNat.Unsigned.of_to n) at 1.
  rewrite DecimalNat.Unsigned.to_of. unfold Decimal.unorm.
  destruct (Decimal.nzhead (Nat.to_uint n)); simpl; lia.
Qed.

Lemma substring_shift c s n : String.substring 1 n (String c s) = String.substring 0 n s.
Proof. destruct n; reflexivity. Qed.

Lemma stoi_size_to_string n :
  (Z.of_nat n <= INT_MAX)%Z -> stoi (size_to_string n) = Return (Z.of_nat n).
Proof.
  intros Hn. unfold stoi.
  pose proof (span_digits_append (size_to_string n) "" (size_to_string_digits n) I) as H.
  rewrite append_empty in H. rewrite H.
  pose proof (size_to_string_not_empty n) as Hne.
  destruct (Nat.eqb_spec (String.length (size_to_string n)) 0) as [H0 | _]; [lia|].
  rewrite size_to_string_value.
  destruct (Z.ltb_spec INT_MAX (Z.of_nat n)); [lia | reflexivity].
Qed.

(** An index that does not fit [int] is refused by [std::stoi]. *)
Lemma stoi_size_to_string_large n :
  (INT_MAX < Z.of_nat n)%Z -> stoi (size_to_string n) = Throw (std_out_of_range "stoi").
Proof.
  intros Hn. unfold stoi.
  pose proof (span_digits_append (size_to_string n) "" (size_to_string_digits n) I) as H.
  rewrite append_empty in H. rewrite H.
  pose proof (size_to_string_not_empty n) as Hne.
  destruct (Nat.eqb_spec (String.length (size_to_string n)) 0) as [H0 | _]; [lia|].
  rewrite size_to_string_value.
  destruct (Z.ltb_spec INT_MAX (Z.of_nat n)); [reflexivity | lia].
Qed.

Section HistoryReference.
Variable uf : Z -> Z -> bool.

(** [$] and digits are one history reference token, with the index that
    [std::stoi] gives the digits. *)
Lemma tokenize_history_reference ds :
  0 < String.length ds -> all_digits ds = true ->
  tokenize uf (String "$" ds) =
  let* index := stoi ds in
  Return [mkToken HistoryRef ("$" +:+ ds) 0 0 index;
          mkToken End "" (S (String.length ds)) 0 0].
Proof.
  intros Hne Hds. unfold tokenize.
  set (s := String "$" ds).
  assert (Hlen : String.length s = S (String.length ds)) by reflexivity.
  rewrite Hlen. cbn [tokenize_loop].
  assert (He : isAtEnd (mkLexer s 0) = false) by reflexivity.
  assert (Hskip : skipWhitespace (mkLexer s 0) = mkLexer s 0) by reflexivity.
  assert (Hcur : currentChar (mkLexer s 0) = "$"%char) by reflexivity.
  rewrite He, Hskip, He, Hcur.
  change (isdigit "$" || Ascii.eqb "$" "." && isdigit (peekChar (mkLexer s 0) 1)) with false.
  change (isIdentifierStart "$") with false. change (Ascii.eqb "$" "$") with true.
  cbv iota.
  assert (Hlex : lexHistoryRef (mkLexer s 0) =
                 let* index := stoi ds in
                 Return (mkToken HistoryRef ("$" +:+ ds) 0 0 index,
                         mkLexer s (S (String.length ds)))).
  { unfold lexHistoryRef.
    change (advance (mkLexer s 0)) with (shift "$" (mkLexer ds 0)).
    rewrite remaining_shift.
    replace (remaining (mkLexer ds 0)) with (String.length ds)
      by (unfold remaining; cbn [pos_ input_]; lia).
    rewrite advance_while_shift.
    pose proof (advance_while_digits ds "" 0 Hds I) as Hloop.
    rewrite append_empty in Hloop. rewrite Hloop. cbn [fst snd Nat.add].
    destruct (Nat.eqb_spec (String.length ds) 0) as [H0 | _]; [lia|].
    unfold shift. cbn [pos_ input_ Nat.add].
    rewrite substring_shift, substring_all. reflexivity. }
  rewrite Hlex.
  destruct (stoi ds) as [index| e |]; cbn [bind]; try reflexivity.
  unfold isAtEnd. cbn [pos_ input_]. rewrite Hlen, Nat.leb_refl. reflexivity.
Qed.

End HistoryReference.

End DigitsFacts.

(** ** The parser *)

Module ParserFacts.
Import Parser.

(** *** Unfolding equations *)

Lemma parseExpression_S n p : parseExpression (S n) p = parseAdditive n p.
Proof. reflexivity. Qed.

Lemma parseAdditive_S n p :
parseAdditive (S n) p =
let* (node, p) := parseMultiplicative n p in additive_loop n node p.
Proof. reflexivity. Qed.

Lemma additive_loop_S n node p :
additive_loop (S n) node p =
if check p Plus then
  let* (rhs, p) := parseMultiplicative n (advance p) in
  additive_loop n (BinaryNode Add node rhs) p
else if check p Minus then
  let* (rhs, p) := parseMultiplicative n (advance p) in
  additive_loop n (BinaryNode Subtract node rhs) p
else Return (node, p).
Proof.
cbn [additive_loop]. unfold match_.
destruct (check p Plus); [reflexivity|]. destruct (check p Minus); reflexivity.
Qed.

Lemma parseMultiplicative_S n p :
parseMultiplicative (S n) p =
let* (node, p) := parseUnary n p in multiplicative_loop n node p.
Proof. reflexivity. Qed.

Lemma multiplicative_loop_S n node p :
multiplicative_loop (S n) node p =
if check p Star then
  let* (rhs, p) := parseUnary n (advance p) in
  multiplicative_loop n (BinaryNode Multiply node rhs) p
else if check p Slash then
  let* (rhs, p) := parseUnary n (advance p) in
  multiplicative_loop n (BinaryNode Divide node rhs) p
else if check p Percent then
  let* (rhs, p) := parseUnary n (advance p) in
  multiplicative_loop n (BinaryNode Modulo node rhs) p
else Return (node, p).
Proof.
cbn [multiplicative_loop]. unfold match_.
destruct (check p Star); [reflexivity|]. destruct (check p Slash); [reflexivity|].
destruct (check p Percent); reflexivity.
Qed.

Lemma parseUnary_S n p :
parseUnary (S n) p =
if check p Minus then
  let* (operand, p) := parseUnary n (advance p) in
  Return (UnaryNode Negate operand, p)
else parsePower n p.
Proof. cbn [parseUnary]. unfold match_. destruct (check p Minus); reflexivity. Qed.

Lemma parsePower_S n p :
parsePower (S n) p =
let* (node, p) := parsePrimary n p in
if check p Caret then
  let* (rhs, p) := parseUnary n (advance p) in
  Return (BinaryNode Power node rhs, p)
else Return (node, p).
Proof.
cbn [parsePower]. unfold match_. destruct (parsePrimary n p) as [[node p1]| |]; simpl;
  try reflexivity.
destruct (check p1 Caret); reflexivity.
Qed.

Lemma parsePrimary_S n p :
parsePrimary (S n) p =
if check p Number then Return (NumberNode (number_value (previous (advance p))), advance p)
else if check p HistoryRef
then Return (HistoryRefNode (history_index (previous (advance p))), advance p)
else if check p Identifier then
  let ident := previous (advance p) in
  let p := advance p in
  if check p LParen then
    let p := advance p in
    let* (args, p) :=
      (if negb (check p RParen) then arguments_loop n [] p else Return ([], p)) in
    let* p := expect p RParen in
    Return (CallNode (lexeme ident) args, p)
  else Return (VariableNode (lexeme ident), p)
else if check p LParen then
  let* (node, p) := parseExpression n (advance p) in
  let* p := expect p RParen in
  Return (node, p)
else Throw (throwUnexpected (current p)).
Proof.
cbn [parsePrimary]. unfold match_.
destruct (check p Number); [reflexivity|].
destruct (check p HistoryRef); [reflexivity|].
destruct (check p Identifier).
- cbv zeta. destruct (check (advance p) LParen); reflexivity.
- destruct (check p LParen); reflexivity.
Qed.

Lemma arguments_loop_S n args p :
arguments_loop (S n) args p =
let* (arg, p) := parseExpression n p in
if check p Comma then arguments_loop n (args ++ [arg]) (advance p)
else Return (args ++ [arg], p).
Proof.
cbn [arguments_loop]. unfold match_.
destruct (parseExpression n p) as [[arg p1]| |]; simpl; try reflexivity.
destruct (check p1 Comma); reflexivity.
Qed.

Lemma parser_O :
(forall p, parseExpression 0 p = OutOfFuel) /\ (forall p, parseAdditive 0 p = OutOfFuel) /\
(forall x p, additive_loop 0 x p = OutOfFuel) /\ (forall p, parseMultiplicative 0 p = OutOfFuel) /\
(forall x p, multiplicative_loop 0 x p = OutOfFuel) /\ (forall p, parseUnary 0 p = OutOfFuel) /\
(forall p, parsePower 0 p = OutOfFuel) /\ (forall p, parsePrimary 0 p = OutOfFuel) /\
(forall x p, arguments_loop 0 x p = OutOfFuel).
Proof. repeat split. Qed.

(** *** More fuel changes no outcome but [OutOfFuel] *)

Lemma le_result_refl {A : Type} (r : result A) : le_result r r.
Proof. right. reflexivity. Qed.

Lemma le_result_bind {A B : Type} (r1 r2 : result A) (k1 k2 : A -> result B) :
le_result r1 r2 -> (forall a, le_result (k1 a) (k2 a)) ->
le_result (bind r1 k1) (bind r2 k2).
Proof.
intros [-> | ->] Hk; [left; reflexivity|].
destruct r2; simpl; [apply Hk | right; reflexivity | left; reflexivity].
Qed.

Ltac fuel_step :=
first
  [ apply le_result_refl
  | apply le_result_bind; [ | intros ? ]
  | match goal with
    | |- le_result (if ?b then _ else _) (if ?b then _ else _) => destruct b
    | |- le_result (let '(_, _) := ?x in _) (let '(_, _) := ?x in _) => destruct x
    | |- le_result (let _ := _ in _) _ => cbv zeta
    | H : _ |- _ => apply H
    end ].

Lemma parser_fuel_S n :
(forall p, le_result (parseExpression n p) (parseExpression (S n) p)) /\
(forall p, le_result (parseAdditive n p) (parseAdditive (S n) p)) /\
(forall x p, le_result (additive_loop n x p) (additive_loop (S n) x p)) /\
(forall p, le_result (parseMultiplicative n p) (parseMultiplicative (S n) p)) /\
(forall x p, le_result (multiplicative_loop n x p) (multiplicative_loop (S n) x p)) /\
(forall p, le_result (parseUnary n p) (parseUnary (S n) p)) /\
(forall p, le_result (parsePower n p) (parsePower (S n) p)) /\
(forall p, le_result (parsePrimary n p) (parsePrimary (S n) p)) /\
(forall x p, le_result (arguments_loop n x p) (arguments_loop (S n) x p)).
Proof.
induction n as [|n IH].
- repeat split; intros; left; reflexivity.
- destruct IH as (IH1 & IH2 & IH3 & IH4 & IH5 & IH6 & IH7 & IH8 & IH9).
  repeat split; intros.
  + rewrite (parseExpression_S (S n)), (parseExpression_S n). apply IH2.
  + rewrite (parseAdditive_S (S n)), (parseAdditive_S n). repeat fuel_step.
  + rewrite (additive_loop_S (S n)), (additive_loop_S n). repeat fuel_step.
  + rewrite (parseMultiplicative_S (S n)), (parseMultiplicative_S n). repeat fuel_step.
  + rewrite (multiplicative_loop_S (S n)), (multiplicative_loop_S n). repeat fuel_step.
  + rewrite (parseUnary_S (S n)), (parseUnary_S n). repeat fuel_step.
  + rewrite (parsePower_S (S n)), (parsePower_S n). repeat fuel_step.
  + rewrite (parsePrimary_S (S n)), (parsePrimary_S n). repeat fuel_step.
  + rewrite (arguments_loop_S (S n)), (arguments_loop_S n). repeat fuel_step.
Qed.


(** *** What a parser function returns *)

Lemma advance_tokens p : tokens_ (advance p) = tokens_ p.
Proof. unfold advance. destruct (_ <? _); reflexivity. Qed.

Lemma advance_not_back p : pos_ p <= pos_ (advance p).
Proof. unfold advance. destruct (_ <? _); simpl; lia. Qed.

Lemma advance_inside p :
pos_ p < length (tokens_ p) -> pos_ (advance p) < length (tokens_ p).
Proof. unfold advance. destruct (_ <? _) eqn:E; simpl; [apply Nat.ltb_lt in E|]; lia. Qed.

Lemma parsed_Return {A : Type} (ok : A -> Prop) p a : ok a -> parsed ok p (Return (a, p)).
Proof. intros H. simpl. repeat split; [assumption | lia | tauto]. Qed.

Lemma parsed_advance {A : Type} (ok : A -> Prop) p r :
parsed ok (advance p) r -> parsed ok p r.
Proof.
destruct r as [[a p']| |]; simpl; try tauto.
rewrite advance_tokens. pose proof (advance_not_back p). pose proof (advance_inside p).
intros (? & ? & ? & ?). repeat split; [assumption | assumption | lia | tauto].
Qed.

Lemma parsed_bind {A B : Type} (okA : A -> Prop) (okB : B -> Prop) p r k :
parsed okA p r -> (forall a p', okA a -> parsed okB p' (k (a, p'))) ->
parsed okB p (bind r k).
Proof.
destruct r as [[a p']| |]; simpl; try tauto.
intros (Ha & Ht & Hp & Hi) Hk. specialize (Hk a p' Ha).
destruct (k (a, p')) as [[b p'']| |]; simpl in *; try tauto.
rewrite Ht in Hk. destruct Hk as (? & ? & ? & ?).
repeat split; [assumption | assumption | lia | tauto].
Qed.

Lemma parsed_expect {A : Type} (ok : A -> Prop) p ty a :
ok a -> parsed ok p (let* p := expect p ty in Return (a, p)).
Proof.
intros H. unfold expect. destruct (check p ty); simpl; [|reflexivity].
rewrite advance_tokens. pose proof (advance_not_back p). pose proof (advance_inside p).
repeat split; [assumption | lia | tauto].
Qed.

Lemma no_assignments_snoc args arg :
no_assignments args -> no_assignment arg -> no_assignments (args ++ [arg]).
Proof.
unfold no_assignments, no_assignment. intros H1 H2.
rewrite existsb_app. simpl. rewrite H1, H2. reflexivity.
Qed.

Lemma parser_parsed n :
(forall p, parsed no_assignment p (parseExpression n p)) /\
(forall p, parsed no_assignment p (parseAdditive n p)) /\
(forall x p, no_assignment x -> parsed no_assignment p (additive_loop n x p)) /\
(forall p, parsed no_assignment p (parseMultiplicative n p)) /\
(forall x p, no_assignment x -> parsed no_assignment p (multiplicative_loop n x p)) /\
(forall p, parsed no_assignment p (parseUnary n p)) /\
(forall p, parsed no_assignment p (parsePower n p)) /\
(forall p, parsed no_assignment p (parsePrimary n p)) /\
(forall x p, no_assignments x -> parsed no_assignments p (arguments_loop n x p)).
Proof.
induction n as [|n IH].
- repeat split.
- destruct IH as (IH1 & IH2 & IH3 & IH4 & IH5 & IH6 & IH7 & IH8 & IH9).
  assert (Hbin : forall op x y, no_assignment x -> no_assignment y ->
                                no_assignment (BinaryNode op x y)).
  { unfold no_assignment. simpl. intros op x y -> ->. reflexivity. }
  repeat split; intros.
  + rewrite parseExpression_S. apply IH2.
  + rewrite parseAdditive_S. eapply parsed_bind; [apply IH4|].
    intros a p' Ha. apply IH3, Ha.
  + rewrite additive_loop_S.
    destruct (check p Plus); [|destruct (check p Minus)].
    * apply parsed_advance. eapply parsed_bind; [apply IH4|].
      intros a p' Ha. apply IH3. auto.
    * apply parsed_advance. eapply parsed_bind; [apply IH4|].
      intros a p' Ha. apply IH3. auto.
    * apply parsed_Return. assumption.
  + rewrite parseMultiplicative_S. eapply parsed_bind; [apply IH6|].
    intros a p' Ha. apply IH5, Ha.
  + rewrite multiplicative_loop_S.
    destruct (check p Star); [|destruct (check p Slash); [|destruct (check p Percent)]].
    * apply parsed_advance. eapply parsed_bind; [apply IH6|].
      intros a p' Ha. apply IH5. auto.
    * apply parsed_advance. eapply parsed_bind; [apply IH6|].
      intros a p' Ha. apply IH5. auto.
    * apply parsed_advance. eapply parsed_bind; [apply IH6|].
      intros a p' Ha. apply IH5. auto.
    * apply parsed_Return. assumption.
  + rewrite parseUnary_S. destruct (check p Minus); [|apply IH7].
    apply parsed_advance. eapply parsed_bind; [apply IH6|].
    intros a p' Ha. apply parsed_Return. exact Ha.
  + rewrite parsePower_S. eapply parsed_bind; [apply IH8|].
    intros a p' Ha. destruct (check p' Caret); [|apply parsed_Return, Ha].
    apply parsed_advance. eapply parsed_bind; [apply IH6|].
    intros b p'' Hb. apply parsed_Return. auto.
  + rewrite parsePrimary_S.
    destruct (check p Number); [apply parsed_advance, parsed_Return; reflexivity|].
    destruct (check p HistoryRef); [apply parsed_advance, parsed_Return; reflexivity|].
    destruct (check p Identifier).
    * cbv zeta. apply parsed_advance.
      destruct (check (advance p) LParen); [|apply parsed_Return; reflexivity].
      apply parsed_advance.
      eapply (parsed_bind no_assignments).
      { destruct (negb _); [apply IH9; reflexivity | apply parsed_Return; reflexivity]. }
      intros args p' Hargs. apply parsed_expect. exact Hargs.
    * destruct (check p LParen); [|reflexivity].
      apply parsed_advance. eapply parsed_bind; [apply IH1|].
      intros a p' Ha. apply parsed_expect. exact Ha.
  + rewrite arguments_loop_S. eapply parsed_bind; [apply IH1|].
    intros a p' Ha. pose proof (no_assignments_snoc _ _ H Ha).
    destruct (check p' Comma); [|apply parsed_Return; assumption].
    apply parsed_advance. apply IH9. assumption.
Qed.


(** *** Enough fuel *)

Lemma nth_last_End (front : list Token) (last : Token) i :
type last = End -> length front <= i -> type (nth i (front ++ [last]) no_token) = End.
Proof.
intros Hl Hi. destruct (decide (i = length front)) as [-> | Hne].
- rewrite app_nth2 by lia. rewrite Nat.sub_diag. exact Hl.
- rewrite nth_overflow; [reflexivity|]. rewrite length_app. simpl. lia.
Qed.

(** A token that is not [End] is not the last one: [advance] moves on. *)
Lemma check_advance p ty :
ends_with_End (tokens_ p) -> check p ty = true -> ty <> End ->
tokens_left (advance p) < tokens_left p.
Proof.
intros (front & last & Ht & Hl) Hc Hty.
unfold check, TokenType_eqb in Hc. apply bool_decide_eq_true in Hc.
assert (Hpos : pos_ p < length front).
{ destruct (le_lt_dec (length front) (pos_ p)) as [Hge|]; [|assumption].
  exfalso. apply Hty. rewrite <- Hc. unfold current. rewrite Ht.
  apply nth_last_End; assumption. }
assert (Hlen : length (tokens_ p) = S (length front)).
{ rewrite Ht, length_app. simpl. lia. }
unfold tokens_left, advance.
destruct (_ <? _) eqn:E; [simpl | apply Nat.ltb_ge in E]; lia.
Qed.

Lemma returns_bind {A B : Type} (r : result A) (k : A -> result B) :
r <> OutOfFuel -> (forall a, r = Return a -> k a <> OutOfFuel) -> bind r k <> OutOfFuel.
Proof. destruct r; simpl; [intros _ H; apply H; reflexivity | discriminate | congruence]. Qed.

Lemma parsed_left {A : Type} (ok : A -> Prop) p r a p' :
parsed ok p r -> r = Return (a, p') ->
tokens_ p' = tokens_ p /\ tokens_left p' <= tokens_left p.
Proof.
intros H ->. simpl in H. destruct H as (_ & Ht & Hp & _).
unfold tokens_left. rewrite Ht. split; [reflexivity | lia].
Qed.

Lemma returns_expect {A : Type} p ty (a : A) :
(let* p := expect p ty in Return (a, p)) <> OutOfFuel.
Proof. unfold expect. destruct (check p ty); discriminate. Qed.

Ltac after_call P :=
let a := fresh "a" in let p' := fresh "p'" in let E := fresh "E" in
let Ht := fresh "Ht" in let Hl := fresh "Hl" in
intros [a p'] E; destruct (parsed_left _ _ _ _ _ P E) as [Ht Hl].

Ltac advanced p ty :=
let H := fresh "Hadv" in
assert (H : tokens_left (advance p) < tokens_left p)
  by (apply (check_advance p ty); [assumption | assumption | discriminate]);
pose proof (advance_tokens p).

Lemma parser_returns n :
(forall p, ends_with_End (tokens_ p) -> 9 * tokens_left p + 7 < n ->
           parseExpression n p <> OutOfFuel) /\
(forall p, ends_with_End (tokens_ p) -> 9 * tokens_left p + 6 < n ->
           parseAdditive n p <> OutOfFuel) /\
(forall x p, ends_with_End (tokens_ p) -> 9 * tokens_left p + 5 < n ->
             additive_loop n x p <> OutOfFuel) /\
(forall p, ends_with_End (tokens_ p) -> 9 * tokens_left p + 4 < n ->
           parseMultiplicative n p <> OutOfFuel) /\
(forall x p, ends_with_End (tokens_ p) -> 9 * tokens_left p + 3 < n ->
             multiplicative_loop n x p <> OutOfFuel) /\
(forall p, ends_with_End (tokens_ p) -> 9 * tokens_left p + 2 < n ->
           parseUnary n p <> OutOfFuel) /\
(forall p, ends_with_End (tokens_ p) -> 9 * tokens_left p + 1 < n ->
           parsePower n p <> OutOfFuel) /\
(forall p, ends_with_End (tokens_ p) -> 9 * tokens_left p < n ->
           parsePrimary n p <> OutOfFuel) /\
(forall x p, ends_with_End (tokens_ p) -> 9 * tokens_left p + 8 < n ->
             arguments_loop n x p <> OutOfFuel).
Proof.
induction n as [|n IH].
- repeat split; intros; lia.
- destruct IH as (IH1 & IH2 & IH3 & IH4 & IH5 & IH6 & IH7 & IH8 & IH9).
  destruct (parser_parsed n) as (P1 & P2 & _ & P4 & _ & P6 & _ & P8 & P9).
  repeat split; intros.
  + rewrite parseExpression_S. apply IH2; [assumption | lia].
  + rewrite parseAdditive_S. apply returns_bind; [apply IH4; [assumption | lia]|].
    after_call (P4 p). apply IH3; [congruence | lia].
  + rewrite additive_loop_S.
    destruct (check p Plus) eqn:C1; [|destruct (check p Minus) eqn:C2].
    * advanced p Plus.
      apply returns_bind; [apply IH4; [congruence | lia]|].
      after_call (P4 (advance p)). apply IH3; [congruence | lia].
    * advanced p Minus.
      apply returns_bind; [apply IH4; [congruence | lia]|].
      after_call (P4 (advance p)). apply IH3; [congruence | lia].
    * discriminate.
  + rewrite parseMultiplicative_S. apply returns_bind; [apply IH6; [assumption | lia]|].
    after_call (P6 p). apply IH5; [congruence | lia].
  + rewrite multiplicative_loop_S.
    destruct (check p Star) eqn:C1;
      [|destruct (check p Slash) eqn:C2; [|destruct (check p Percent) eqn:C3]].
    * advanced p Star.
      apply returns_bind; [apply IH6; [congruence | lia]|].
      after_call (P6 (advance p)). apply IH5; [congruence | lia].
    * advanced p Slash.
      apply returns_bind; [apply IH6; [congruence | lia]|].
      after_call (P6 (advance p)). apply IH5; [congruence | lia].
    * advanced p Percent.
      apply returns_bind; [apply IH6; [congruence | lia]|].
      after_call (P6 (advance p)). apply IH5; [congruence | lia].
    * discriminate.
  + rewrite parseUnary_S. destruct (check p Minus) eqn:C1.
    * advanced p Minus.
      apply returns_bind; [apply IH6; [congruence | lia]|]. intros [a p']; discriminate.
    * apply IH7; [assumption | lia].
  + rewrite parsePower_S. apply returns_bind; [apply IH8; [assumption | lia]|].
    after_call (P8 p). destruct (check p' Caret) eqn:C1; [|discriminate].
    assert (ends_with_End (tokens_ p')) by congruence.
    advanced p' Caret.
    apply returns_bind; [apply IH6; [congruence | lia]|]. intros [b p'']; discriminate.
  + rewrite parsePrimary_S.
    destruct (check p Number); [discriminate|].
    destruct (check p HistoryRef); [discriminate|].
    destruct (check p Identifier) eqn:C1.
    * cbv zeta. advanced p Identifier.
      destruct (check (advance p) LParen) eqn:C2; [|discriminate].
      assert (ends_with_End (tokens_ (advance p))) by congruence.
      advanced (advance p) LParen.
      apply returns_bind.
      { destruct (negb _); [apply IH9; [congruence | lia] | discriminate]. }
      intros [args p'] _. apply returns_expect.
    * destruct (check p LParen) eqn:C2; [|discriminate].
      advanced p LParen.
      apply returns_bind; [apply IH1; [congruence | lia]|].
      intros [a p'] _. apply returns_expect.
  + rewrite arguments_loop_S. apply returns_bind; [apply IH1; [assumption | lia]|].
    after_call (P1 p). destruct (check p' Comma) eqn:C1; [|discriminate].
    assert (ends_with_End (tokens_ p')) by congruence.
    advanced p' Comma.
    apply IH9; [congruence | lia].
Qed.


(** *** Statements *)

Lemma parseStatement_fuel_parsed n p :
match parseStatement_fuel n p with
| Return ast => statement_shape ast
| Throw e => is_ParseError e = true
| OutOfFuel => True
end.
Proof.
unfold parseStatement_fuel.
destruct (parser_parsed n) as (P1 & _).
destruct (check p Identifier && _).
- cbv zeta. specialize (P1 (advance (advance p))).
  destruct (parseExpression n (advance (advance p))) as [[expression p']| |]; simpl in *;
    [|assumption | exact I].
  destruct (negb _); [reflexivity|]. apply P1.
- specialize (P1 p).
  destruct (parseExpression n p) as [[node p']| |]; simpl in *; [|assumption | exact I].
  destruct (negb _); [reflexivity|].
  destruct P1 as [P1 _]. destruct node; try exact P1. discriminate P1.
Qed.

Lemma parseStatement_fuel_returns n p :
ends_with_End (tokens_ p) -> 9 * tokens_left p + 7 < n ->
parseStatement_fuel n p <> OutOfFuel.
Proof.
intros Hend Hn. unfold parseStatement_fuel.
destruct (parser_returns n) as (R1 & _).
assert (Hadv : forall q, tokens_left (advance q) <= tokens_left q).
{ intros q. unfold tokens_left. rewrite advance_tokens.
  pose proof (advance_not_back q). lia. }
apply returns_bind.
- destruct (check p Identifier && _).
  + cbv zeta. apply returns_bind.
    * apply R1; [rewrite !advance_tokens; assumption|].
      pose proof (Hadv p). pose proof (Hadv (advance p)). lia.
    * intros [expression p']; discriminate.
  + apply R1; assumption.
- intros [node p'] _. destruct (negb _); discriminate.
Qed.

Lemma parseStatement_fuel_S n p :
le_result (parseStatement_fuel n p) (parseStatement_fuel (S n) p).
Proof.
unfold parseStatement_fuel. destruct (parser_fuel_S n) as (M1 & _).
apply le_result_bind; [|intros a; apply le_result_refl].
destruct (check p Identifier && _); [|apply M1].
cbv zeta. apply le_result_bind; [apply M1 | intros a; apply le_result_refl].
Qed.

Lemma le_result_trans {A : Type} (r1 r2 r3 : result A) :
le_result r1 r2 -> le_result r2 r3 -> le_result r1 r3.
Proof. intros [-> | ->]; [left; reflexivity | tauto]. Qed.

Lemma parseStatement_fuel_le n k p :
le_result (parseStatement_fuel n p) (parseStatement_fuel (n + k) p).
Proof.
induction k as [|k IH].
- rewrite Nat.add_0_r. apply le_result_refl.
- rewrite Nat.add_succ_r. eapply le_result_trans; [exact IH | apply parseStatement_fuel_S].
Qed.

(** The outcome of [parseStatement] is the outcome with any fuel that
  suffices. *)
Lemma parseStatement_any_fuel tokens n r :
ends_with_End tokens ->
parseStatement_fuel n (mkParser tokens 0) = r -> r <> OutOfFuel ->
parseStatement tokens = r.
Proof.
intros Hend Hn Hr. unfold parseStatement.
set (p := mkParser tokens 0) in *. set (e := enough_fuel tokens).
assert (He : parseStatement_fuel e p <> OutOfFuel).
{ apply parseStatement_fuel_returns; [exact Hend|].
  unfold tokens_left, e, enough_fuel. simpl. lia. }
destruct (parseStatement_fuel_le e n p) as [H1 | H1]; [contradiction|].
destruct (parseStatement_fuel_le n e p) as [H2 | H2]; [congruence|].
rewrite H1, Nat.add_comm, <- H2. exact Hn.
Qed.

Lemma parseStatement_spec tokens :
ends_with_End tokens ->
match parseStatement tokens with
| Return ast => statement_shape ast
| Throw e => is_ParseError e = true
| OutOfFuel => False
end.
Proof.
intros Hend. unfold parseStatement.
pose proof (parseStatement_fuel_parsed (enough_fuel tokens) (mkParser tokens 0)) as H.
pose proof (parseStatement_fuel_returns (enough_fuel tokens) (mkParser tokens 0) Hend) as R.
destruct (parseStatement_fuel _ _); try assumption.
apply R; [|reflexivity]. unfold tokens_left, enough_fuel. simpl. lia.
Qed.

Lemma parseStatement_throws tokens e :
parseStatement tokens = Throw e -> is_ParseError e = true.
Proof.
intros H. unfold parseStatement in H.
pose proof (parseStatement_fuel_parsed (enough_fuel tokens) (mkParser tokens 0)) as P.
rewrite H in P. exact P.
Qed.

End ParserFacts.

(** ** The grammar of the parser *)

Module ParserRules.
Import Parser ParserFacts.

Lemma fuel_mono {A : Type} (f : nat -> result A) :
(forall n, le_result (f n) (f (S n))) ->
forall n k x, n <= k -> f n = Return x -> f k = Return x.
Proof.
intros Hf n k x Hle Hn. induction Hle as [|k Hle IH]; [exact Hn|].
destruct (Hf k) as [H | H]; congruence.
Qed.

Lemma check_type p ty : check p ty = true <-> type (current p) = ty.
Proof. unfold check, TokenType_eqb. apply bool_decide_eq_true. Qed.

Lemma check_other p ty ty' : check p ty = true -> ty <> ty' -> check p ty' = false.
Proof.
intros H Hne. apply check_type in H. unfold check, TokenType_eqb.
apply bool_decide_eq_false. congruence.
Qed.

Section Rules.

Variable n : nat.

Lemma parsePrimary_fuel p k x : n <= k -> parsePrimary n p = Return x -> parsePrimary k p = Return x.
Proof. apply (fuel_mono (fun n => parsePrimary n p)). intros i. apply (parser_fuel_S i). Qed.

Lemma parsePower_fuel p k x : n <= k -> parsePower n p = Return x -> parsePower k p = Return x.
Proof. apply (fuel_mono (fun n => parsePower n p)). intros i. apply (parser_fuel_S i). Qed.

Lemma parseUnary_fuel p k x : n <= k -> parseUnary n p = Return x -> parseUnary k p = Return x.
Proof. apply (fuel_mono (fun n => parseUnary n p)). intros i. apply (parser_fuel_S i). Qed.

Lemma multiplicative_loop_fuel a p k x :
n <= k -> multiplicative_loop n a p = Return x -> multiplicative_loop k a p = Return x.
Proof. apply (fuel_mono (fun n => multiplicative_loop n a p)). intros i. apply (parser_fuel_S i). Qed.

Lemma parseMultiplicative_fuel p k x :
n <= k -> parseMultiplicative n p = Return x -> parseMultiplicative k p = Return x.
Proof. apply (fuel_mono (fun n => parseMultiplicative n p)). intros i. apply (parser_fuel_S i). Qed.

Lemma additive_loop_fuel a p k x :
n <= k -> additive_loop n a p = Return x -> additive_loop k a p = Return x.
Proof. apply (fuel_mono (fun n => additive_loop n a p)). intros i. apply (parser_fuel_S i). Qed.

Lemma parseAdditive_fuel p k x :
n <= k -> parseAdditive n p = Return x -> parseAdditive k p = Return x.
Proof. apply (fuel_mono (fun n => parseAdditive n p)). intros i. apply (parser_fuel_S i). Qed.

Lemma parseExpression_fuel p k x :
n <= k -> parseExpression n p = Return x -> parseExpression k p = Return x.
Proof. apply (fuel_mono (fun n => parseExpression n p)). intros i. apply (parser_fuel_S i). Qed.

End Rules.

(** A primary starts with no minus sign. *)
Lemma primary_not_minus p a p' : parses parsePrimary p a p' -> check p Minus = false.
Proof.
intros [[|n] H]; [discriminate|]. rewrite parsePrimary_S in H.
destruct (check p Number) eqn:C1; [apply (check_other _ _ _ C1); discriminate|].
destruct (check p HistoryRef) eqn:C2; [apply (check_other _ _ _ C2); discriminate|].
destruct (check p Identifier) eqn:C3; [apply (check_other _ _ _ C3); discriminate|].
destruct (check p LParen) eqn:C4; [apply (check_other _ _ _ C4); discriminate|].
discriminate.
Qed.

(** *** The grammar, rule by rule *)

Lemma power_alone p a p1 :
parses parsePrimary p a p1 -> check p1 Caret = false -> parses parsePower p a p1.
Proof.
intros [n H] C. exists (S n). rewrite parsePower_S, H. simpl. rewrite C. reflexivity.
Qed.

Lemma power_caret p a p1 b p2 :
parses parsePrimary p a p1 -> check p1 Caret = true ->
parses parseUnary (advance p1) b p2 ->
parses parsePower p (BinaryNode Power a b) p2.
Proof.
intros [n1 H1] C [n2 H2]. exists (S (n1 + n2)).
rewrite parsePower_S, (parsePrimary_fuel n1 _ (n1 + n2) _ ltac:(lia) H1). simpl.
rewrite C, (parseUnary_fuel n2 _ (n1 + n2) _ ltac:(lia) H2). reflexivity.
Qed.

Lemma unary_minus p a p1 :
check p Minus = true -> parses parseUnary (advance p) a p1 ->
parses parseUnary p (UnaryNode Negate a) p1.
Proof.
intros C [n H]. exists (S n). rewrite parseUnary_S, C, H. reflexivity.
Qed.

Lemma unary_power p a p1 :
check p Minus = false -> parses parsePower p a p1 -> parses parseUnary p a p1.
Proof.
intros C [n H]. exists (S n). rewrite parseUnary_S, C. exact H.
Qed.

Lemma multiplicative_loop_done x p :
multiplicative_op (type (current p)) = None ->
parses (fun fuel => multiplicative_loop fuel x) p x p.
Proof.
intros H. exists 1. rewrite multiplicative_loop_S.
unfold check, TokenType_eqb. destruct (type (current p)); try discriminate; reflexivity.
Qed.

Lemma multiplicative_loop_step x p op b p1 r p2 :
multiplicative_op (type (current p)) = Some op ->
parses parseUnary (advance p) b p1 ->
parses (fun fuel => multiplicative_loop fuel (BinaryNode op x b)) p1 r p2 ->
parses (fun fuel => multiplicative_loop fuel x) p r p2.
Proof.
intros Hop [n1 H1] [n2 H2]. exists (S (n1 + n2)). rewrite multiplicative_loop_S.
rewrite (parseUnary_fuel n1 _ (n1 + n2) _ ltac:(lia) H1).
pose proof (multiplicative_loop_fuel n2 _ _ (n1 + n2) _ ltac:(lia) H2) as H2'.
unfold check, TokenType_eqb.
destruct (type (current p)); try discriminate; injection Hop as <-; exact H2'.
Qed.

Lemma rule_multiplicative p a p1 r p2 :
parses parseUnary p a p1 ->
parses (fun fuel => multiplicative_loop fuel a) p1 r p2 ->
parses parseMultiplicative p r p2.
Proof.
intros [n1 H1] [n2 H2]. exists (S (n1 + n2)). rewrite parseMultiplicative_S.
rewrite (parseUnary_fuel n1 _ (n1 + n2) _ ltac:(lia) H1). simpl.
apply (multiplicative_loop_fuel n2 _ _ (n1 + n2) _ ltac:(lia) H2).
Qed.

Lemma additive_loop_done x p :
additive_op (type (current p)) = None ->
parses (fun fuel => additive_loop fuel x) p x p.
Proof.
intros H. exists 1. rewrite additive_loop_S.
unfold check, TokenType_eqb. destruct (type (current p)); try discriminate; reflexivity.
Qed.

Lemma additive_loop_step x p op b p1 r p2 :
additive_op (type (current p)) = Some op ->
parses parseMultiplicative (advance p) b p1 ->
parses (fun fuel => additive_loop fuel (BinaryNode op x b)) p1 r p2 ->
parses (fun fuel => additive_loop fuel x) p r p2.
Proof.
intros Hop [n1 H1] [n2 H2]. exists (S (n1 + n2)). rewrite additive_loop_S.
rewrite (parseMultiplicative_fuel n1 _ (n1 + n2) _ ltac:(lia) H1).
pose proof (additive_loop_fuel n2 _ _ (n1 + n2) _ ltac:(lia) H2) as H2'.
unfold check, TokenType_eqb.
destruct (type (current p)); try discriminate; injection Hop as <-; exact H2'.
Qed.

Lemma rule_additive p a p1 r p2 :
parses parseMultiplicative p a p1 ->
parses (fun fuel => additive_loop fuel a) p1 r p2 ->
parses parseAdditive p r p2.
Proof.
intros [n1 H1] [n2 H2]. exists (S (n1 + n2)). rewrite parseAdditive_S.
rewrite (parseMultiplicative_fuel n1 _ (n1 + n2) _ ltac:(lia) H1). simpl.
apply (additive_loop_fuel n2 _ _ (n1 + n2) _ ltac:(lia) H2).
Qed.

Lemma rule_expression p a p1 : parses parseAdditive p a p1 -> parses parseExpression p a p1.
Proof. intros [n H]. exists (S n). exact H. Qed.

(** A statement that does not start with [IDENT =] is an expression up to [End]. *)
Lemma statement_expression tokens a p1 :
ends_with_End tokens ->
check (mkParser tokens 0) Identifier = false ->
parses parseExpression (mkParser tokens 0) a p1 ->
check p1 End = true ->
parseStatement tokens = Return a.
Proof.
intros Hend C [n H] CE. apply (parseStatement_any_fuel tokens n); [exact Hend | | discriminate].
unfold parseStatement_fuel. rewrite C, H. simpl. rewrite CE. reflexivity.
Qed.

(** A unary expression alone is a multiplicative, additive expression when
  no operator of the level follows it. *)
Lemma unary_is_multiplicative p a p1 :
parses parseUnary p a p1 -> multiplicative_op (type (current p1)) = None ->
parses parseMultiplicative p a p1.
Proof. intros H Hop. eapply rule_multiplicative; [exact H | apply multiplicative_loop_done, Hop]. Qed.

Lemma multiplicative_is_additive p a p1 :
parses parseMultiplicative p a p1 -> additive_op (type (current p1)) = None ->
parses parseAdditive p a p1.
Proof. intros H Hop. eapply rule_additive; [exact H | apply additive_loop_done, Hop]. Qed.

(** *** The fuel of [parseStatement] suffices *)

Lemma enough_fuel_suffices {A : Type} (f : nat -> result A) n k x :
  (forall i, le_result (f i) (f (S i))) ->
  f n = Return x -> f k <> OutOfFuel -> f k = Return x.
Proof.
  intros Hf Hn Hk. destruct (le_lt_dec n k) as [Hle | Hlt].
  - apply (fuel_mono f Hf n k x Hle Hn).
  - destruct (f k) as [y| e |] eqn:E; [| |contradiction].
    + rewrite <- Hn. symmetry. apply (fuel_mono f Hf k n y); [lia | exact E].
    + assert (Hge : forall j, k <= j -> f j = Throw e).
      { intros j Hj. induction Hj as [|j Hj IH]; [exact E|].
        destruct (Hf j) as [H | H]; congruence. }
      rewrite (Hge n) in Hn by lia. discriminate.
Qed.

(** Whatever a function of the parser parses with some fuel, it parses with
    the fuel that [parseStatement] supplies. *)
Lemma parses_with_enough_fuel p :
  ends_with_End (tokens_ p) ->
  (forall a p', parses parseExpression p a p' ->
                parseExpression (enough_fuel (tokens_ p)) p = Return (a, p')) /\
  (forall a p', parses parseAdditive p a p' ->
                parseAdditive (enough_fuel (tokens_ p)) p = Return (a, p')) /\
  (forall a p', parses parseMultiplicative p a p' ->
                parseMultiplicative (enough_fuel (tokens_ p)) p = Return (a, p')) /\
  (forall a p', parses parseUnary p a p' ->
                parseUnary (enough_fuel (tokens_ p)) p = Return (a, p')) /\
  (forall a p', parses parsePower p a p' ->
                parsePower (enough_fuel (tokens_ p)) p = Return (a, p')) /\
  (forall a p', parses parsePrimary p a p' ->
                parsePrimary (enough_fuel (tokens_ p)) p = Return (a, p')).
Proof.
  intros Hend.
  destruct (parser_returns (enough_fuel (tokens_ p)))
    as (R1 & R2 & _ & R4 & _ & R6 & R7 & R8 & _).
  assert (Hfuel : 9 * tokens_left p + 7 < enough_fuel (tokens_ p))
    by (unfold tokens_left, enough_fuel; lia).
  repeat split; intros a p' [n H].
  - apply (enough_fuel_suffices (fun i => parseExpression i p) n); [|exact H|].
    + intros i. apply (parser_fuel_S i).
    + apply R1; [exact Hend | lia].
  - apply (enough_fuel_suffices (fun i => parseAdditive i p) n); [|exact H|].
    + intros i. apply (parser_fuel_S i).
    + apply R2; [exact Hend | lia].
  - apply (enough_fuel_suffices (fun i => parseMultiplicative i p) n); [|exact H|].
    + intros i. apply (parser_fuel_S i).
    + apply R4; [exact Hend | lia].
  - apply (enough_fuel_suffices (fun i => parseUnary i p) n); [|exact H|].
    + intros i. apply (parser_fuel_S i).
    + apply R6; [exact Hend | lia].
  - apply (enough_fuel_suffices (fun i => parsePower i p) n); [|exact H|].
    + intros i. apply (parser_fuel_S i).
    + apply R7; [exact Hend | lia].
  - apply (enough_fuel_suffices (fun i => parsePrimary i p) n); [|exact H|].
    + intros i. apply (parser_fuel_S i).
    + apply R8; [exact Hend | lia].
Qed.

(** *** Precedence and associativity *)

Lemma additive_not_multiplicative ty op :
  additive_op ty = Some op -> multiplicative_op ty = None.
Proof. destruct ty; simpl; congruence. Qed.

Lemma multiplicative_not_additive ty op :
  multiplicative_op ty = Some op -> additive_op ty = None.
Proof. destruct ty; simpl; congruence. Qed.

(** [a + b * c]: the product is the right operand of the sum. *)
Lemma multiplicative_binds_tighter_right p a p1 o1 b p2 o2 c p3 :
  parses Parser.parseUnary p a p1 ->
  additive_op (type (Parser.current p1)) = Some o1 ->
  parses Parser.parseUnary (Parser.advance p1) b p2 ->
  multiplicative_op (type (Parser.current p2)) = Some o2 ->
  parses Parser.parseUnary (Parser.advance p2) c p3 ->
  multiplicative_op (type (Parser.current p3)) = None ->
  additive_op (type (Parser.current p3)) = None ->
  parses Parser.parseAdditive p (BinaryNode o1 a (BinaryNode o2 b c)) p3.
Proof.
  intros Ha H1 Hb H2 Hc H3 H3'.
  eapply rule_additive.
  - eapply unary_is_multiplicative; [exact Ha|].
    apply (additive_not_multiplicative _ _ H1).
  - eapply additive_loop_step; [exact H1 | | apply additive_loop_done, H3'].
    eapply rule_multiplicative; [exact Hb|].
    eapply multiplicative_loop_step; [exact H2 | exact Hc |].
    apply multiplicative_loop_done, H3.
Qed.

(** [a * b + c]: the product is the left operand of the sum. *)
Lemma multiplicative_binds_tighter_left p a p1 o2 b p2 o1 c p3 :
  parses Parser.parseUnary p a p1 ->
  multiplicative_op (type (Parser.current p1)) = Some o2 ->
  parses Parser.parseUnary (Parser.advance p1) b p2 ->
  additive_op (type (Parser.current p2)) = Some o1 ->
  parses Parser.parseUnary (Parser.advance p2) c p3 ->
  multiplicative_op (type (Parser.current p3)) = None ->
  additive_op (type (Parser.current p3)) = None ->
  parses Parser.parseAdditive p (BinaryNode o1 (BinaryNode o2 a b) c) p3.
Proof.
  intros Ha H1 Hb H2 Hc H3 H3'.
  eapply rule_additive.
  - eapply rule_multiplicative; [exact Ha|].
    eapply multiplicative_loop_step; [exact H1 | exact Hb |].
    apply multiplicative_loop_done, (additive_not_multiplicative _ _ H2).
  - eapply additive_loop_step; [exact H2 | | apply additive_loop_done, H3'].
    eapply unary_is_multiplicative; [exact Hc | exact H3].
Qed.

(** [a - b - c] is [(a - b) - c]. *)
Lemma additive_left_associative p a p1 o1 b p2 o2 c p3 :
  parses Parser.parseMultiplicative p a p1 ->
  additive_op (type (Parser.current p1)) = Some o1 ->
  parses Parser.parseMultiplicative (Parser.advance p1) b p2 ->
  additive_op (type (Parser.current p2)) = Some o2 ->
  parses Parser.parseMultiplicative (Parser.advance p2) c p3 ->
  additive_op (type (Parser.current p3)) = None ->
  parses Parser.parseAdditive p (BinaryNode o2 (BinaryNode o1 a b) c) p3.
Proof.
  intros Ha H1 Hb H2 Hc H3.
  eapply rule_additive; [exact Ha|].
  eapply additive_loop_step; [exact H1 | exact Hb |].
  eapply additive_loop_step; [exact H2 | exact Hc |].
  apply additive_loop_done, H3.
Qed.

(** [a / b / c] is [(a / b) / c]. *)
Lemma multiplicative_left_associative p a p1 o1 b p2 o2 c p3 :
  parses Parser.parseUnary p a p1 ->
  multiplicative_op (type (Parser.current p1)) = Some o1 ->
  parses Parser.parseUnary (Parser.advance p1) b p2 ->
  multiplicative_op (type (Parser.current p2)) = Some o2 ->
  parses Parser.parseUnary (Parser.advance p2) c p3 ->
  multiplicative_op (type (Parser.current p3)) = None ->
  parses Parser.parseMultiplicative p (BinaryNode o2 (BinaryNode o1 a b) c) p3.
Proof.
  intros Ha H1 Hb H2 Hc H3.
  eapply rule_multiplicative; [exact Ha|].
  eapply multiplicative_loop_step; [exact H1 | exact Hb |].
  eapply multiplicative_loop_step; [exact H2 | exact Hc |].
  apply multiplicative_loop_done, H3.
Qed.

(** [a ^ b ^ c] is [a ^ (b ^ c)]. *)
Lemma power_right_associative p a p1 b p2 c p3 :
  parses Parser.parsePrimary p a p1 ->
  Parser.check p1 Caret = true ->
  parses Parser.parsePrimary (Parser.advance p1) b p2 ->
  Parser.check p2 Caret = true ->
  parses Parser.parseUnary (Parser.advance p2) c p3 ->
  parses Parser.parsePower p (BinaryNode Power a (BinaryNode Power b c)) p3.
Proof.
  intros Ha C1 Hb C2 Hc.
  eapply power_caret; [exact Ha | exact C1 |].
  apply unary_power; [apply (primary_not_minus _ _ _ Hb)|].
  eapply power_caret; eassumption.
Qed.

(** Every statement [- P ^ E], [P] a primary and [E] a unary expression, is
    the negation of the power. *)
Lemma minus_wraps_power tokens P pP E pE :
  ends_with_End tokens ->
  Parser.check (Parser.mkParser tokens 0) Minus = true ->
  parses Parser.parsePrimary (Parser.advance (Parser.mkParser tokens 0)) P pP ->
  Parser.check pP Caret = true ->
  parses Parser.parseUnary (Parser.advance pP) E pE ->
  Parser.check pE End = true ->
  Parser.parseStatement tokens = Return (UnaryNode Negate (BinaryNode Power P E)).
Proof.
  intros Hend C0 HP CP HE CE.
  apply check_type in CE.
  apply (statement_expression tokens _ pE Hend).
  - apply (check_other _ _ _ C0). discriminate.
  - apply rule_expression, multiplicative_is_additive; [|rewrite CE; reflexivity].
    apply unary_is_multiplicative; [|rewrite CE; reflexivity].
    apply unary_minus; [exact C0|].
    apply unary_power; [apply (primary_not_minus _ _ _ HP)|].
    eapply power_caret; eassumption.
  - apply check_type, CE.
Qed.

(** A minus sign may follow [^]. *)
Lemma minus_after_caret p P pP E pE :
  parses Parser.parsePrimary p P pP ->
  Parser.check pP Caret = true ->
  Parser.check (Parser.advance pP) Minus = true ->
  parses Parser.parseUnary (Parser.advance (Parser.advance pP)) E pE ->
  parses Parser.parsePower p (BinaryNode Power P (UnaryNode Negate E)) pE.
Proof.
  intros HP CP CM HE. eapply power_caret; [exact HP | exact CP |].
  apply unary_minus; assumption.
Qed.

End ParserRules.

(** ** The evaluator *)

Module EvaluatorFacts.
Import Context Evaluator.

Lemma evaluated_ret {A : Type} pure ctx (a : A) : evaluated pure ctx (ret a ctx).
Proof. repeat split. Qed.

Lemma evaluated_read {A : Type} pure ctx (f : EvaluationContext -> result A) :
match f ctx with Return _ => True | Throw e => is_EvalError e = true | OutOfFuel => False end ->
evaluated pure ctx (read f ctx).
Proof. intros H. repeat split. exact H. Qed.

Lemma evaluated_and_then {A B : Type} (pure1 pure2 pure : Prop) ctx
(c : eval A) (k : A -> eval B) :
(pure -> pure1) -> (pure -> pure2) ->
evaluated pure1 ctx (c ctx) ->
(forall a ctx', evaluated pure2 ctx' (k a ctx')) ->
evaluated pure ctx (and_then c k ctx).
Proof.
intros H1 H2 (Hh & Hp & Hr) Hk. unfold and_then.
destruct (c ctx) as [[a| e |] ctx']; simpl in *.
- destruct (Hk a ctx') as (Hh' & Hp' & Hr').
  split; [congruence|]. split; [|exact Hr'].
  intros Hpure. rewrite Hp' by auto. auto.
- repeat split; auto.
- contradiction.
Qed.

Lemma getVariable_class ctx name :
match getVariable ctx name with
| Return _ => True | Throw e => is_EvalError e = true | OutOfFuel => False
end.
Proof. unfold getVariable. destruct (_ !! _); reflexivity. Qed.

Lemma getHistoryValue_class ctx index :
match getHistoryValue ctx index with
| Return _ => True | Throw e => is_EvalError e = true | OutOfFuel => False
end.
Proof. unfold getHistoryValue. destruct (_ || _); reflexivity. Qed.

Lemma setVariable_class ctx name value :
history_ (snd (setVariable ctx name value)) = history_ ctx /\
match fst (setVariable ctx name value) with
| Return _ => True | Throw e => is_EvalError e = true | OutOfFuel => False
end.
Proof. unfold setVariable. destruct (_ || _); split; reflexivity. Qed.

Section WithCmath.
Variable m : cmath.

Lemma applyBinary_class op lhs rhs :
match applyBinary m op lhs rhs with
| Return _ => True | Throw e => is_EvalError e = true | OutOfFuel => False
end.
Proof. destruct op; simpl; try exact I; destruct (ltb _ _); reflexivity. Qed.

Lemma unary_function_class fn f args :
match unary_function fn f args with
| Return _ => True | Throw e => is_EvalError e = true | OutOfFuel => False
end.
Proof.
unfold unary_function, requireArgCount. destruct (negb _); reflexivity.
Qed.

Lemma applyCall_class fn args :
match applyCall m fn args with
| Return _ => True | Throw e => is_EvalError e = true | OutOfFuel => False
end.
Proof.
unfold applyCall.
repeat (destruct (String.eqb fn _); [apply unary_function_class|]).
repeat (destruct (String.eqb fn _);
        [unfold requireAtLeastArgs; destruct (_ <? _); reflexivity|]).
reflexivity.
Qed.

Lemma evalArguments_evaluated nodes : forall args ctx,
Forall (fun node => forall ctx, evaluated (no_assignment node) ctx (evalNode m node ctx))
       nodes ->
evaluated (no_assignments nodes) ctx (evalArguments (evalNode m) nodes args ctx).
Proof.
induction nodes as [|node nodes IH]; intros args ctx Hall.
- apply evaluated_ret.
- inversion Hall as [|? ? Hnode Hnodes]; subst. simpl.
  eapply (evaluated_and_then (no_assignment node) (no_assignments nodes)).
  + unfold no_assignments, no_assignment. simpl. intros H.
    apply orb_false_iff in H. tauto.
  + unfold no_assignments, no_assignment. simpl. intros H.
    apply orb_false_iff in H. tauto.
  + apply Hnode.
  + intros value ctx'. apply IH. assumption.
Qed.

Lemma evalNode_evaluated node : forall ctx,
evaluated (no_assignment node) ctx (evalNode m node ctx).
Proof.
induction node as [value|name|index|op operand IH|op lhs rhs IHl IHr|name args IH
                  |name expression IH] using Node_induction; intros ctx.
- apply evaluated_ret.
- apply evaluated_read, getVariable_class.
- apply evaluated_read, getHistoryValue_class.
- destruct op. simpl.
  eapply (evaluated_and_then (no_assignment operand) True); [tauto | tauto | apply IH |].
  intros a ctx'. apply evaluated_ret.
- simpl.
  eapply (evaluated_and_then (no_assignment lhs) (no_assignment rhs)).
  + unfold no_assignment. simpl. intros H. apply orb_false_iff in H. tauto.
  + unfold no_assignment. simpl. intros H. apply orb_false_iff in H. tauto.
  + apply IHl.
  + intros a ctx'.
    eapply (evaluated_and_then (no_assignment rhs) True); [tauto | tauto | apply IHr |].
    intros b ctx''. apply evaluated_read, applyBinary_class.
- simpl.
  eapply (evaluated_and_then (no_assignments args) True); [tauto | tauto | |].
  + apply evalArguments_evaluated, IH.
  + intros a ctx'. apply evaluated_read, applyCall_class.
- simpl.
  eapply (evaluated_and_then (no_assignment expression) False);
    [discriminate | discriminate | apply IH |].
  intros value ctx'.
  eapply (evaluated_and_then False True); [tauto | tauto | |].
  + destruct (setVariable_class ctx' name value) as [Hh Hr].
    split; [exact Hh|]. split; [contradiction | exact Hr].
  + intros [] ctx''. apply evaluated_ret.
Qed.

End WithCmath.
End EvaluatorFacts.

(** ** The calculator *)

Module CalculatorFacts.
Import Context Calculator.
Import ParserFacts EvaluatorFacts.

Lemma Calculator_eta calc : mkCalculator (context_ calc) = calc.
Proof. destruct calc; reflexivity. Qed.

Lemma EvaluationContext_eta ctx : mkContext (variables_ ctx) (history_ ctx) = ctx.
Proof. destruct ctx; reflexivity. Qed.

Section WithCmath.

Variable m : cmath.

(** What the walk of the tree of a statement does to the context. *)
Lemma evaluate_statement ast ctx :
statement_shape ast ->
match Evaluator.evaluate m ast ctx with
| (Return value, ctx') =>
    history_ ctx' = history_ ctx /\
    match ast with
    | AssignmentNode name expression =>
        String.eqb name "pi" || String.eqb name "e" = false /\
        Evaluator.evaluate m expression ctx = (Return value, ctx) /\
        variables_ ctx' = <[name := value]> (variables_ ctx)
    | _ => ctx' = ctx
    end
| (Throw e, ctx') =>
    ctx' = ctx /\ is_EvalError e = true /\
    match ast with
    | AssignmentNode name expression =>
        is_Return (fst (Evaluator.evaluate m expression ctx)) = true ->
        e = EvalError ("Cannot assign to constant '" +:+ name +:+ "'")
    | _ => True
    end
| (OutOfFuel, _) => False
end.
Proof.
intros Hshape. unfold Evaluator.evaluate.
assert (Hpure : forall node, no_assignment node ->
          (forall name expression, node <> AssignmentNode name expression) ->
          match Evaluator.evalNode m node ctx with
          | (Return value, ctx') =>
              history_ ctx' = history_ ctx /\
              match node with
              | AssignmentNode _ _ => False
              | _ => ctx' = ctx
              end
          | (Throw e, ctx') =>
              ctx' = ctx /\ is_EvalError e = true /\
              match node with AssignmentNode _ _ => False | _ => True end
          | (OutOfFuel, _) => False
          end).
{ intros node Hno Hne. destruct (evalNode_evaluated m node ctx) as (Hh & Hp & Hr).
  destruct (Evaluator.evalNode m node ctx) as [[value| e |] ctx']; simpl in *;
    try assumption.
  - split; [assumption|]. destruct node; auto. eapply Hne; reflexivity.
  - split; [auto|]. split; [assumption|]. destruct node; auto. eapply Hne; reflexivity. }
destruct ast as [value|name|index|op operand|op lhs rhs|name args|name expression];
  try (specialize (Hpure _ Hshape ltac:(discriminate));
       destruct (Evaluator.evalNode m _ ctx) as [[?| ? |] ?]; tauto).
simpl in Hshape. simpl. unfold Evaluator.and_then.
destruct (evalNode_evaluated m expression ctx) as (Hh & Hp & Hr).
destruct (Evaluator.evalNode m expression ctx) as [[value| e |] ctx1]; simpl in *.
- rewrite (Hp Hshape). unfold setVariable.
  destruct (String.eqb name "pi" || String.eqb name "e"); simpl.
  + repeat split.
  + repeat split.
- repeat split; auto. discriminate.
- contradiction.
Qed.

End WithCmath.

Section WithPlatform.

Variable strtod_underflow_erange : Z -> Z -> bool.
Variable m : cmath.

(** A call of [evaluate] returns or throws. *)
Lemma evaluate_returns_or_throws calc text :
fst (evaluate strtod_underflow_erange m calc text) <> OutOfFuel.
Proof.
unfold evaluate.
pose proof (LexerFacts.tokenize_spec strtod_underflow_erange text) as HL.
destruct (Lexer.tokenize strtod_underflow_erange text) as [tokens| e |];
  [|discriminate | contradiction].
pose proof (parseStatement_spec tokens HL) as HP.
destruct (Parser.parseStatement tokens) as [ast| e |]; [|discriminate | contradiction].
pose proof (evaluate_statement m ast (context_ calc) HP) as HE.
destruct (Evaluator.evaluate m ast (context_ calc)) as [[value| e |] ctx'];
  [discriminate | discriminate | contradiction].
Qed.

(** The two ways [evaluate] ends. *)
Lemma evaluate_throws calc text e calc' :
evaluate strtod_underflow_erange m calc text = (Throw e, calc') -> calc' = calc.
Proof.
unfold evaluate.
pose proof (LexerFacts.tokenize_spec strtod_underflow_erange text) as HL.
destruct (Lexer.tokenize strtod_underflow_erange text) as [tokens| e0 |];
  [|intros [= _ <-]; reflexivity | contradiction].
pose proof (parseStatement_spec tokens HL) as HP.
destruct (Parser.parseStatement tokens) as [ast| e0 |];
  [|intros [= _ <-]; reflexivity | contradiction].
pose proof (evaluate_statement m ast (context_ calc) HP) as HE.
destruct (Evaluator.evaluate m ast (context_ calc)) as [[value| e0 |] ctx'];
  [discriminate | | contradiction].
intros [= _ <-]. destruct HE as [-> _]. apply Calculator_eta.
Qed.

Lemma evaluate_returns calc text value calc' :
evaluate strtod_underflow_erange m calc text = (Return value, calc') ->
exists tokens ast ctx',
  Lexer.tokenize strtod_underflow_erange text = Return tokens /\
  Parser.parseStatement tokens = Return ast /\
  statement_shape ast /\
  Evaluator.evaluate m ast (context_ calc) = (Return value, ctx') /\
  calc' = mkCalculator (pushHistory ctx' value).
Proof.
unfold evaluate.
pose proof (LexerFacts.tokenize_spec strtod_underflow_erange text) as HL.
destruct (Lexer.tokenize strtod_underflow_erange text) as [tokens| e0 |] eqn:EL;
  [|discriminate | contradiction].
pose proof (parseStatement_spec tokens HL) as HP.
destruct (Parser.parseStatement tokens) as [ast| e0 |] eqn:EP;
  [|discriminate | contradiction].
destruct (Evaluator.evaluate m ast (context_ calc)) as [[v| e0 |] ctx'] eqn:HE;
  [|discriminate | discriminate].
intros [= <- <-]. exists tokens, ast, ctx'. repeat split; assumption.
Qed.

End WithPlatform.
End CalculatorFacts.

(** ** The claims of the specification *)

Import Context Calculator.
Import ParserFacts EvaluatorFacts CalculatorFacts ParserRules.

(** C2 on the code. The lexer always returns or throws, and it throws a
    [ParseError] in the three cases of the specification; but it has a
    fourth way to fail: a literal too large for [double] and a history index
    too large for [int] leave [tokenize] as the [std::out_of_range] of
    [std::stod] and [std::stoi], which is no [CalcError], so that the
    [catch (const CalcError&)] of the callers lets it pass. *)
Theorem tokenize_out_of_range (strtod_underflow_erange : Z -> Z -> bool) :
  Lexer.tokenize strtod_underflow_erange "1e999" = Throw (std_out_of_range "stod") /\
  Lexer.tokenize strtod_underflow_erange "$99999999999" = Throw (std_out_of_range "stoi") /\
  is_CalcError (std_out_of_range "stod") = false /\
  is_CalcError (std_out_of_range "stoi") = false /\
  (forall input, Lexer.tokenize strtod_underflow_erange input <> OutOfFuel) /\
  Lexer.tokenize strtod_underflow_erange "2 @ 3"
    = Throw (ParseError "Unexpected token '@' at position 2") /\
  Lexer.tokenize strtod_underflow_erange "1e"
    = Throw (ParseError "Invalid number at position 1") /\
  Lexer.tokenize strtod_underflow_erange "$"
    = Throw (ParseError "Unexpected token '$' at position 0").
Proof.
  split; [vm_compute; reflexivity|]. split; [vm_compute; reflexivity|].
  split; [reflexivity|]. split; [reflexivity|].
  split; [|repeat split; vm_compute; reflexivity].
  intros input H. pose proof (LexerFacts.tokenize_spec strtod_underflow_erange input) as HL.
  rewrite H in HL. exact HL.
Qed.

(** C3 on the code: a failure of the lexer and a failure of the parser are
    exceptions of one class, [ParseError]. *)
Lemma lexical_and_syntax_errors_share_a_class :
  Lexer.tokenize sample_underflow_erange "@"
    = Throw (ParseError "Unexpected token '@' at position 0") /\
  (let* tokens := Lexer.tokenize sample_underflow_erange ")" in Parser.parseStatement tokens)
    = Throw (ParseError "Unexpected token ')' at position 0").
Proof. split; vm_compute; reflexivity. Qed.

(** C3, as the code has it. The calculator's exceptions are of two disjoint
    classes under [CalcError]: what the parser throws is a [ParseError], what
    the evaluator throws is an [EvalError], and a [CalcError] that the lexer
    throws is a [ParseError] like the parser's. *)
Theorem error_taxonomy :
  (forall strtod_underflow_erange input e,
     Lexer.tokenize strtod_underflow_erange input = Throw e ->
     is_CalcError e = true -> is_ParseError e = true) /\
  (forall tokens e, Parser.parseStatement tokens = Throw e -> is_ParseError e = true) /\
  (forall m node ctx e ctx',
     Evaluator.evaluate m node ctx = (Throw e, ctx') -> is_EvalError e = true) /\
  (forall e, is_ParseError e && is_EvalError e = false) /\
  (forall e, is_CalcError e = is_ParseError e || is_EvalError e).
Proof.
  split; [|split; [|split; [|split]]].
  - intros uf input e H Hc.
    pose proof (LexerFacts.tokenize_spec uf input) as HL. rewrite H in HL.
    unfold is_CalcError in Hc. rewrite HL, orb_false_r in Hc. exact Hc.
  - apply parseStatement_throws.
  - intros m node ctx e ctx' H.
    pose proof (evalNode_evaluated m node ctx) as (_ & _ & Hr).
    unfold Evaluator.evaluate in H. rewrite H in Hr. exact Hr.
  - intros []; reflexivity.
  - reflexivity.
Qed.

(** C9 on the code. Digits and a trailing point are one number token, with
    the value that [std::stod] gives the digits alone: so ["1."] is the
    number 1; but [tokenize] succeeds only if [std::stod] does, and digits
    too many for a [double] make it throw [std::out_of_range]. *)
Theorem trailing_point_literal (strtod_underflow_erange : Z -> Z -> bool) :
  (forall c ds,
     isdigit c = true -> all_digits ds = true ->
     Lexer.tokenize strtod_underflow_erange (String c ds +:+ ".") =
     let* value := stod strtod_underflow_erange (String c ds) in
     Return [mkToken Number (String c ds +:+ ".") 0 value 0;
             mkToken End "" (S (S (String.length ds))) 0 0]) /\
  Lexer.tokenize strtod_underflow_erange "1."
    = Return [mkToken Number "1." 0 1 0; mkToken End "" 2 0 0] /\
  Lexer.tokenize strtod_underflow_erange (String "1" (repeat_char "0" 309) +:+ ".")
    = Throw (std_out_of_range "stod").
Proof.
  split; [apply DigitsFacts.tokenize_trailing_point|].
  split; vm_compute; reflexivity.
Qed.

Section WithPlatform.

Variable strtod_underflow_erange : Z -> Z -> bool.
Variable m : cmath.

Abbreviation evaluate := (Calculator.evaluate strtod_underflow_erange m).
Abbreviation tokenize := (Lexer.tokenize strtod_underflow_erange).
Abbreviation session := (Calculator.session strtod_underflow_erange m).

(** C1. Failure atomicity: a call of [evaluate] that throws, whatever the
    exception (of the lexer, of the parser, of the evaluator or of a standard
    conversion) and whatever was computed before, leaves the calculator as
    it was: no history entry, no variable created or changed. *)
Theorem evaluate_failure_atomic (calc : Calculator) (text : string)
  (e : exception) (calc' : Calculator) :
  evaluate calc text = (Throw e, calc') -> calc' = calc.
Proof. apply evaluate_throws. Qed.

(** C8. Success frame: a call of [evaluate] that returns [value] appends
    [value] to the history and changes nothing else, except that the
    statement [name = expr] binds [name] to [value]. *)
Theorem evaluate_success_frame (calc : Calculator) (text : string)
  (value : float) (calc' : Calculator) :
  evaluate calc text = (Return value, calc') ->
  exists tokens ast,
    tokenize text = Return tokens /\
    Parser.parseStatement tokens = Return ast /\
    history calc' = history calc ++ [value] /\
    variables_ (context_ calc') =
      match ast with
      | AssignmentNode name _ => <[name := value]> (variables_ (context_ calc))
      | _ => variables_ (context_ calc)
      end.
Proof.
  intros H. apply evaluate_returns in H.
  destruct H as (tokens & ast & ctx' & HL & HP & Hshape & HE & ->).
  exists tokens, ast. split; [exact HL|]. split; [exact HP|].
  pose proof (evaluate_statement m ast (context_ calc) Hshape) as HS.
  rewrite HE in HS. destruct HS as [Hh Hv]. unfold history, Context.history. simpl.
  split; [rewrite Hh; reflexivity|].
  destruct ast; try (rewrite Hv; reflexivity). tauto.
Qed.

(** The statement [$N]. *)
Lemma parse_history_reference lexeme position value index end_position :
  Parser.parseStatement [mkToken HistoryRef lexeme position value index;
                         mkToken End "" end_position 0 0]
  = Return (HistoryRefNode index).
Proof. reflexivity. Qed.

(** C6 on the code. History references: [$N] evaluated in a context whose
    history has [L] entries yields the [N]-th entry when [1 <= N <= L] and
    throws an [EvalError] otherwise; a walk of a tree never touches the
    history, so that every reference of a call reads the history as it was
    when the call began; [evaluate] appends exactly its value when it
    returns and nothing when it throws. The text [$N] behaves so for every
    [N] that [std::stoi] reads into an [int]; for a larger [N] the lexer
    lets the [std::out_of_range] of [std::stoi] escape, which is no
    [EvalError], as for ["$2147483648"]. *)
Theorem history_reference_semantics (calc : Calculator) (N : Z) :
  ((1 <= N <= Z.of_nat (length (history calc)))%Z ->
   exists value,
     history calc !! Z.to_nat (N - 1) = Some value /\
     Evaluator.evaluate m (HistoryRefNode N) (context_ calc) = (Return value, context_ calc)) /\
  (~ (1 <= N <= Z.of_nat (length (history calc)))%Z ->
   exists message,
     Evaluator.evaluate m (HistoryRefNode N) (context_ calc)
     = (Throw (EvalError message), context_ calc)) /\
  (forall node, history_ (snd (Evaluator.evaluate m node (context_ calc))) = history calc) /\
  (forall text value calc',
     evaluate calc text = (Return value, calc') -> history calc' = history calc ++ [value]) /\
  (forall text e calc',
     evaluate calc text = (Throw e, calc') -> history calc' = history calc) /\
  (forall n : nat,
     evaluate calc (String "$" (size_to_string n)) =
     if (Z.of_nat n <=? INT_MAX)%Z then
       if (1 <=? n) && (n <=? length (history calc))
       then (Return (nth (n - 1) (history calc) 0%float),
             mkCalculator (pushHistory (context_ calc) (nth (n - 1) (history calc) 0%float)))
       else (Throw (EvalError ("History reference '$" +:+ int_to_string (Z.of_nat n)
                               +:+ "' out of range")), calc)
     else (Throw (std_out_of_range "stoi"), calc)) /\
  evaluate calc "$2147483648" = (Throw (std_out_of_range "stoi"), calc) /\
  is_EvalError (std_out_of_range "stoi") = false.
Proof.
  unfold history, Context.history.
  split; [|split; [|split; [|split; [|split; [|split; [|split; [|reflexivity]]]]]]].
  - intros HN. unfold Evaluator.evaluate. simpl. unfold Evaluator.read, getHistoryValue.
    destruct (Z.leb_spec N 0); [lia|].
    destruct (Z.ltb_spec (Z.of_nat (length (history_ (context_ calc)))) N); [lia|].
    simpl.
    destruct (lookup_lt_is_Some_2 (history_ (context_ calc)) (Z.to_nat (N - 1))) as [v Hv];
      [lia|].
    exists v. split; [exact Hv|]. f_equal. f_equal.
    apply nth_lookup_Some with (d := PrimFloat.zero) in Hv. exact Hv.
  - intros HN. unfold Evaluator.evaluate. simpl. unfold Evaluator.read, getHistoryValue.
    destruct (Z.leb_spec N 0); simpl; [eexists; reflexivity|].
    destruct (Z.ltb_spec (Z.of_nat (length (history_ (context_ calc)))) N); [|lia].
    eexists; reflexivity.
  - intros node. apply (evalNode_evaluated m node (context_ calc)).
  - intros text value calc' H. apply evaluate_returns in H.
    destruct H as (tokens & ast & ctx' & _ & _ & _ & HE & ->). simpl.
    pose proof (evalNode_evaluated m ast (context_ calc)) as (Hh & _).
    unfold Evaluator.evaluate in HE. rewrite HE in Hh. simpl in Hh. rewrite Hh. reflexivity.
  - intros text e calc' H. apply evaluate_throws in H. subst. reflexivity.
  - intros n. unfold Calculator.evaluate.
    rewrite (DigitsFacts.tokenize_history_reference strtod_underflow_erange
               (size_to_string n) (DigitsFacts.size_to_string_not_empty n)
               (DigitsFacts.size_to_string_digits n)).
    destruct (Z.leb_spec (Z.of_nat n) INT_MAX) as [Hn | Hn];
      [|rewrite (DigitsFacts.stoi_size_to_string_large n Hn); reflexivity].
    rewrite (DigitsFacts.stoi_size_to_string n Hn). cbn [bind].
    rewrite parse_history_reference.
    unfold Evaluator.evaluate. cbn [Evaluator.evalNode].
    unfold Evaluator.read, getHistoryValue.
    replace (Z.to_nat (Z.of_nat n - 1)) with (n - 1) by lia.
    destruct (Z.leb_spec (Z.of_nat n) 0) as [H0 | H0];
      destruct (Nat.leb_spec 1 n) as [H1 | H1]; try lia; cbn [orb andb].
    + rewrite Calculator_eta. reflexivity.
    + destruct (Z.ltb_spec (Z.of_nat (length (history_ (context_ calc)))) (Z.of_nat n));
        destruct (Nat.leb_spec n (length (history_ (context_ calc)))); try lia.
      * rewrite Calculator_eta. reflexivity.
      * reflexivity.
  - unfold Calculator.evaluate.
    replace (tokenize "$2147483648") with (@Throw (list Token) (std_out_of_range "stoi"))
      by (vm_compute; reflexivity).
    reflexivity.
Qed.

Lemma evaluate_keeps_constants calc text :
  constants_bound m (context_ calc) ->
  constants_bound m (context_ (snd (evaluate calc text))).
Proof.
  intros Hc. destruct (evaluate calc text) as [[value| e |] calc'] eqn:H; simpl.
  - apply evaluate_returns in H.
    destruct H as (tokens & ast & ctx' & _ & _ & Hshape & HE & ->). simpl.
    pose proof (evaluate_statement m ast (context_ calc) Hshape) as HS.
    rewrite HE in HS. destruct HS as [_ Hv]. unfold constants_bound in *. simpl.
    destruct ast; try (rewrite Hv; exact Hc).
    destruct Hv as (Hname & _ & ->). apply orb_false_iff in Hname.
    destruct Hname as [Hpi He]. apply String.eqb_neq in Hpi, He.
    rewrite !lookup_insert_ne by congruence. exact Hc.
  - apply evaluate_throws in H. subst. exact Hc.
  - exfalso. apply (evaluate_returns_or_throws strtod_underflow_erange m calc text).
    rewrite H. reflexivity.
Qed.

Lemma session_constants lines : constants_bound m (context_ (session lines)).
Proof.
  unfold Calculator.session.
  assert (Hnew : constants_bound m (context_ (Calculator.new m))) by (split; reflexivity).
  revert Hnew. generalize (Calculator.new m) as calc.
  induction lines as [|line lines IH]; intros calc Hc; simpl; [exact Hc|].
  apply IH, evaluate_keeps_constants, Hc.
Qed.

(** C7, as the code has it. In every state of a session [pi] and [e] are
    bound to [acos(-1)] and [exp(1)]; a statement [pi = E] or [e = E] (one
    that parses as an assignment to the constant) throws an [EvalError] and
    leaves the calculator as it was; the walk of [E] returns or throws, the
    error is the one that names the constant when it returns, and it is the
    error of [E] when it throws. *)
Theorem protected_constants :
  (forall lines,
     variables_ (context_ (session lines)) !! "pi" = Some (std_acos m (-1)%float) /\
     variables_ (context_ (session lines)) !! "e" = Some (std_exp m 1%float)) /\
  (forall calc text tokens name expression,
     name = "pi" \/ name = "e" ->
     tokenize text = Return tokens ->
     Parser.parseStatement tokens = Return (AssignmentNode name expression) ->
     exists e,
       evaluate calc text = (Throw e, calc) /\
       is_EvalError e = true /\
       (is_Return (fst (Evaluator.evaluate m expression (context_ calc))) = true ->
        e = EvalError ("Cannot assign to constant '" +:+ name +:+ "'")) /\
       (forall e',
          fst (Evaluator.evaluate m expression (context_ calc)) = Throw e' -> e = e') /\
       fst (Evaluator.evaluate m expression (context_ calc)) <> OutOfFuel).
Proof.
  split; [apply session_constants|].
  intros calc text tokens name expression Hname HL HP.
  pose proof (LexerFacts.tokenize_spec strtod_underflow_erange text) as Hend.
  rewrite HL in Hend.
  pose proof (parseStatement_spec tokens Hend) as Hshape. rewrite HP in Hshape.
  pose proof (evaluate_statement m _ (context_ calc) Hshape) as HS.
  assert (Hthrow : forall e',
            fst (Evaluator.evaluate m expression (context_ calc)) = Throw e' ->
            fst (Evaluator.evaluate m (AssignmentNode name expression) (context_ calc))
            = Throw e').
  { intros e'. unfold Evaluator.evaluate. cbn [Evaluator.evalNode].
    unfold Evaluator.and_then.
    destruct (Evaluator.evalNode m expression (context_ calc)) as [[value| e |] ctx'];
      simpl; intros H; try discriminate H. exact H. }
  assert (Hfuel : fst (Evaluator.evaluate m expression (context_ calc)) <> OutOfFuel).
  { pose proof (evalNode_evaluated m expression (context_ calc)) as (_ & _ & Hr).
    unfold Evaluator.evaluate. intros H. rewrite H in Hr. exact Hr. }
  unfold Calculator.evaluate. rewrite HL, HP.
  destruct (Evaluator.evaluate m (AssignmentNode name expression) (context_ calc))
    as [[value| e |] ctx'].
  - exfalso. destruct HS as (_ & Hprot & _).
    destruct Hname as [-> | ->]; discriminate Hprot.
  - destruct HS as (-> & He & Hmsg). exists e.
    rewrite Calculator_eta.
    split; [reflexivity|]. split; [exact He|]. split; [exact Hmsg|].
    split; [|exact Hfuel].
    intros e' H. apply Hthrow in H. simpl in H. congruence.
  - contradiction.
Qed.

(** C10. Assignment evaluates its right-hand side first, against the
    context as it was: the walk of [name = expression] is the walk of
    [expression] from the same context followed by [setVariable]; so
    ["x = x + 1"] binds [x] to its prior value plus one, and throws for an
    unknown variable, the calculator unchanged, when [x] was unbound. *)
Theorem assignment_evaluates_rhs_first (calc : Calculator) :
  (forall name expression,
     no_assignment expression ->
     Evaluator.evaluate m (AssignmentNode name expression) (context_ calc) =
     match Evaluator.evaluate m expression (context_ calc) with
     | (Return value, _) =>
         match setVariable (context_ calc) name value with
         | (Return _, ctx') => (Return value, ctx')
         | (Throw e, ctx') => (Throw e, ctx')
         | (OutOfFuel, ctx') => (OutOfFuel, ctx')
         end
     | (Throw e, _) => (Throw e, context_ calc)
     | (OutOfFuel, _) => (OutOfFuel, context_ calc)
     end) /\
  (forall v,
     variables_ (context_ calc) !! "x" = Some v ->
     evaluate calc "x = x + 1" =
     (Return (v + 1)%float,
      mkCalculator (mkContext (<["x" := (v + 1)%float]> (variables_ (context_ calc)))
                              (history calc ++ [(v + 1)%float])))) /\
  (variables_ (context_ calc) !! "x" = None ->
   evaluate calc "x = x + 1" = (Throw (EvalError "Unknown variable 'x'"), calc)).
Proof.
  assert (HL : tokenize "x = x + 1" =
               Return [mkToken Identifier "x" 0 0 0; mkToken Assign "=" 2 0 0;
                       mkToken Identifier "x" 4 0 0; mkToken Plus "+" 6 0 0;
                       mkToken Number "1" 8 1 0; mkToken End "" 9 0 0])
    by (vm_compute; reflexivity).
  assert (HP : Parser.parseStatement
                 [mkToken Identifier "x" 0 0 0; mkToken Assign "=" 2 0 0;
                  mkToken Identifier "x" 4 0 0; mkToken Plus "+" 6 0 0;
                  mkToken Number "1" 8 1 0; mkToken End "" 9 0 0]
               = Return (AssignmentNode "x"
                           (BinaryNode Add (VariableNode "x") (NumberNode 1))))
    by (vm_compute; reflexivity).
  split; [|split].
  - intros name expression Hno. unfold Evaluator.evaluate. simpl.
    unfold Evaluator.and_then.
    destruct (evalNode_evaluated m expression (context_ calc)) as (_ & Hp & Hr).
    destruct (Evaluator.evalNode m expression (context_ calc)) as [[value| e |] ctx'];
      simpl in *; rewrite (Hp Hno).
    + destruct (setVariable (context_ calc) name value) as [[[]| e |] ctx'']; reflexivity.
    + reflexivity.
    + reflexivity.
  - intros v Hv. unfold Calculator.evaluate. rewrite HL, HP.
    unfold Evaluator.evaluate. simpl.
    unfold Evaluator.and_then, Evaluator.read, Evaluator.ret, getVariable.
    rewrite Hv. reflexivity.
  - intros Hv. unfold Calculator.evaluate. rewrite HL, HP.
    unfold Evaluator.evaluate. simpl.
    unfold Evaluator.and_then, Evaluator.read, Evaluator.ret, getVariable.
    rewrite Hv. rewrite Calculator_eta. reflexivity.
Qed.

(** C4. Unary minus and power: [- P ^ E] parses as the negation of [P ^ E],
    a minus sign may follow [^] (with the fuel that [parseStatement]
    supplies, whenever with any), and, where [std::pow] is exact on these
    arguments, ["-2^2"] is -4 and ["2^-2"] is 0.25. *)
Theorem unary_minus_and_power :
  std_pow m 2 2 = 4%float ->
  std_pow m 2 (-2) = 0.25%float ->
  (forall tokens P pP E pE,
     ends_with_End tokens ->
     Parser.check (Parser.mkParser tokens 0) Minus = true ->
     parses Parser.parsePrimary (Parser.advance (Parser.mkParser tokens 0)) P pP ->
     Parser.check pP Caret = true ->
     parses Parser.parseUnary (Parser.advance pP) E pE ->
     Parser.check pE End = true ->
     Parser.parseStatement tokens = Return (UnaryNode Negate (BinaryNode Power P E))) /\
  (forall p P pP E pE,
     parses Parser.parsePrimary p P pP ->
     Parser.check pP Caret = true ->
     Parser.check (Parser.advance pP) Minus = true ->
     parses Parser.parseUnary (Parser.advance (Parser.advance pP)) E pE ->
     parses Parser.parsePower p (BinaryNode Power P (UnaryNode Negate E)) pE) /\
  (forall p a p',
     ends_with_End (Parser.tokens_ p) ->
     parses Parser.parsePower p a p' ->
     Parser.parsePower (Parser.enough_fuel (Parser.tokens_ p)) p = Return (a, p')) /\
  (let* tokens := tokenize "-2^2" in Parser.parseStatement tokens)
    = Return (UnaryNode Negate (BinaryNode Power (NumberNode 2) (NumberNode 2))) /\
  (forall calc,
     evaluate calc "-2^2"
     = (Return (-4)%float, mkCalculator (pushHistory (context_ calc) (-4)%float))) /\
  (let* tokens := tokenize "2^-2" in Parser.parseStatement tokens)
    = Return (BinaryNode Power (NumberNode 2) (UnaryNode Negate (NumberNode 2))) /\
  (forall calc,
     evaluate calc "2^-2"
     = (Return 0.25%float, mkCalculator (pushHistory (context_ calc) 0.25%float))).
Proof.
  intros Hpow1 Hpow2.
  assert (H1 : (let* tokens := tokenize "-2^2" in Parser.parseStatement tokens)
               = Return (UnaryNode Negate (BinaryNode Power (NumberNode 2) (NumberNode 2))))
    by (vm_compute; reflexivity).
  assert (H2 : (let* tokens := tokenize "2^-2" in Parser.parseStatement tokens)
               = Return (BinaryNode Power (NumberNode 2) (UnaryNode Negate (NumberNode 2))))
    by (vm_compute; reflexivity).
  split; [apply minus_wraps_power|]. split; [apply minus_after_caret|].
  split; [intros p a p' Hend; apply (parses_with_enough_fuel p Hend)|].
  split; [exact H1|]. split; [|split; [exact H2|]].
  - intros calc. unfold Calculator.evaluate.
    destruct (tokenize "-2^2") as [tokens| |]; try discriminate H1. simpl in H1.
    rewrite H1. unfold Evaluator.evaluate. simpl.
    unfold Evaluator.and_then, Evaluator.read, Evaluator.ret. simpl.
    rewrite Hpow1. reflexivity.
  - intros calc. unfold Calculator.evaluate.
    destruct (tokenize "2^-2") as [tokens| |]; try discriminate H2. simpl in H2.
    rewrite H2. unfold Evaluator.evaluate. simpl.
    unfold Evaluator.and_then, Evaluator.read, Evaluator.ret. simpl.
    replace (- (2))%float with (-2)%float by reflexivity.
    rewrite Hpow2. reflexivity.
Qed.

(** C5. Precedence and associativity: [* / %] bind tighter than [+ -], on
    either side; both levels associate to the left and [^] to the right
    (with the fuel that [parseStatement] supplies, whenever with any);
    ["2 + 3 * 4"] is 14, ["(2 + 3) * 4"] is 20 and, where [std::pow] is
    exact on these arguments, ["2^3^2"] is 512. *)
Theorem operator_precedence_and_associativity :
  std_pow m 3 2 = 9%float ->
  std_pow m 2 9 = 512%float ->
  (forall p a p1 o1 b p2 o2 c p3,
     parses Parser.parseUnary p a p1 ->
     additive_op (type (Parser.current p1)) = Some o1 ->
     parses Parser.parseUnary (Parser.advance p1) b p2 ->
     multiplicative_op (type (Parser.current p2)) = Some o2 ->
     parses Parser.parseUnary (Parser.advance p2) c p3 ->
     multiplicative_op (type (Parser.current p3)) = None ->
     additive_op (type (Parser.current p3)) = None ->
     parses Parser.parseAdditive p (BinaryNode o1 a (BinaryNode o2 b c)) p3) /\
  (forall p a p1 o2 b p2 o1 c p3,
     parses Parser.parseUnary p a p1 ->
     multiplicative_op (type (Parser.current p1)) = Some o2 ->
     parses Parser.parseUnary (Parser.advance p1) b p2 ->
     additive_op (type (Parser.current p2)) = Some o1 ->
     parses Parser.parseUnary (Parser.advance p2) c p3 ->
     multiplicative_op (type (Parser.current p3)) = None ->
     additive_op (type (Parser.current p3)) = None ->
     parses Parser.parseAdditive p (BinaryNode o1 (BinaryNode o2 a b) c) p3) /\
  (forall p a p1 o1 b p2 o2 c p3,
     parses Parser.parseMultiplicative p a p1 ->
     additive_op (type (Parser.current p1)) = Some o1 ->
     parses Parser.parseMultiplicative (Parser.advance p1) b p2 ->
     additive_op (type (Parser.current p2)) = Some o2 ->
     parses Parser.parseMultiplicative (Parser.advance p2) c p3 ->
     additive_op (type (Parser.current p3)) = None ->
     parses Parser.parseAdditive p (BinaryNode o2 (BinaryNode o1 a b) c) p3) /\
  (forall p a p1 o1 b p2 o2 c p3,
     parses Parser.parseUnary p a p1 ->
     multiplicative_op (type (Parser.current p1)) = Some o1 ->
     parses Parser.parseUnary (Parser.advance p1) b p2 ->
     multiplicative_op (type (Parser.current p2)) = Some o2 ->
     parses Parser.parseUnary (Parser.advance p2) c p3 ->
     multiplicative_op (type (Parser.current p3)) = None ->
     parses Parser.parseMultiplicative p (BinaryNode o2 (BinaryNode o1 a b) c) p3) /\
  (forall p a p1 b p2 c p3,
     parses Parser.parsePrimary p a p1 ->
     Parser.check p1 Caret = true ->
     parses Parser.parsePrimary (Parser.advance p1) b p2 ->
     Parser.check p2 Caret = true ->
     parses Parser.parseUnary (Parser.advance p2) c p3 ->
     parses Parser.parsePower p (BinaryNode Power a (BinaryNode Power b c)) p3) /\
  (forall p a p',
     ends_with_End (Parser.tokens_ p) ->
     (parses Parser.parseAdditive p a p' ->
      Parser.parseAdditive (Parser.enough_fuel (Parser.tokens_ p)) p = Return (a, p')) /\
     (parses Parser.parseMultiplicative p a p' ->
      Parser.parseMultiplicative (Parser.enough_fuel (Parser.tokens_ p)) p = Return (a, p')) /\
     (parses Parser.parsePower p a p' ->
      Parser.parsePower (Parser.enough_fuel (Parser.tokens_ p)) p = Return (a, p'))) /\
  (forall calc,
     evaluate calc "2 + 3 * 4"
     = (Return 14%float, mkCalculator (pushHistory (context_ calc) 14%float))) /\
  (forall calc,
     evaluate calc "(2 + 3) * 4"
     = (Return 20%float, mkCalculator (pushHistory (context_ calc) 20%float))) /\
  (let* tokens := tokenize "2^3^2" in Parser.parseStatement tokens)
    = Return (BinaryNode Power (NumberNode 2)
                (BinaryNode Power (NumberNode 3) (NumberNode 2))) /\
  (forall calc,
     evaluate calc "2^3^2"
     = (Return 512%float, mkCalculator (pushHistory (context_ calc) 512%float))).
Proof.
  intros Hpow1 Hpow2.
  assert (H1 : (let* tokens := tokenize "2 + 3 * 4" in Parser.parseStatement tokens)
               = Return (BinaryNode Add (NumberNode 2)
                           (BinaryNode Multiply (NumberNode 3) (NumberNode 4))))
    by (vm_compute; reflexivity).
  assert (H2 : (let* tokens := tokenize "(2 + 3) * 4" in Parser.parseStatement tokens)
               = Return (BinaryNode Multiply
                           (BinaryNode Add (NumberNode 2) (NumberNode 3)) (NumberNode 4)))
    by (vm_compute; reflexivity).
  assert (H3 : (let* tokens := tokenize "2^3^2" in Parser.parseStatement tokens)
               = Return (BinaryNode Power (NumberNode 2)
                           (BinaryNode Power (NumberNode 3) (NumberNode 2))))
    by (vm_compute; reflexivity).
  split; [apply multiplicative_binds_tighter_right|].
  split; [apply multiplicative_binds_tighter_left|].
  split; [apply additive_left_associative|].
  split; [apply multiplicative_left_associative|].
  split; [apply power_right_associative|].
  split.
  { intros p a p' Hend.
    destruct (parses_with_enough_fuel p Hend) as (_ & Ha & Hm & _ & Hp & _).
    repeat split; [apply Ha | apply Hm | apply Hp]. }
  split; [|split; [|split; [exact H3|]]].
  - intros calc. unfold Calculator.evaluate.
    destruct (tokenize "2 + 3 * 4") as [tokens| |]; try discriminate H1. simpl in H1.
    rewrite H1. reflexivity.
  - intros calc. unfold Calculator.evaluate.
    destruct (tokenize "(2 + 3) * 4") as [tokens| |]; try discriminate H2. simpl in H2.
    rewrite H2. reflexivity.
  - intros calc. unfold Calculator.evaluate.
    destruct (tokenize "2^3^2") as [tokens| |]; try discriminate H3. simpl in H3.
    rewrite H3. unfold Evaluator.evaluate. simpl.
    unfold Evaluator.and_then, Evaluator.read, Evaluator.ret. simpl.
    rewrite Hpow1, Hpow2. reflexivity.
Qed.

End WithPlatform.

(** C1 at work: the division by zero is found after the product was
    computed, and the session is as it was. *)
Lemma evaluate_failure_atomic_witness :
  snd (Calculator.evaluate sample_underflow_erange sample_cmath
         (Calculator.session sample_underflow_erange sample_cmath ["x = 4"]) "x = 2 * 3 / 0")
  = Calculator.session sample_underflow_erange sample_cmath ["x = 4"].
Proof.
  apply (evaluate_failure_atomic sample_underflow_erange sample_cmath
           (Calculator.session sample_underflow_erange sample_cmath ["x = 4"])
           "x = 2 * 3 / 0" (EvalError "Division by zero")).
  vm_compute. reflexivity.
Defined.

(** C8 at work: an assignment on a new calculator. *)
Lemma evaluate_success_frame_witness :
  exists tokens ast,
    Lexer.tokenize sample_underflow_erange "x = 2 + 3" = Return tokens /\
    Parser.parseStatement tokens = Return ast /\
    history (snd (Calculator.evaluate sample_underflow_erange sample_cmath
                    (Calculator.new sample_cmath) "x = 2 + 3"))
    = history (Calculator.new sample_cmath) ++ [5%float] /\
    variables_ (context_ (snd (Calculator.evaluate sample_underflow_erange sample_cmath
                                 (Calculator.new sample_cmath) "x = 2 + 3"))) =
      match ast with
      | AssignmentNode name _ =>
          <[name := 5%float]> (variables_ (context_ (Calculator.new sample_cmath)))
      | _ => variables_ (context_ (Calculator.new sample_cmath))
      end.
Proof.
  apply (evaluate_success_frame sample_underflow_erange sample_cmath
           (Calculator.new sample_cmath) "x = 2 + 3" 5%float).
  vm_compute. reflexivity.
Defined.

(** C4 at work, on the sample platform. *)
Lemma unary_minus_and_power_witness :
  Calculator.evaluate sample_underflow_erange sample_cmath (Calculator.new sample_cmath) "-2^2"
  = (Return (-4)%float,
     mkCalculator (pushHistory (context_ (Calculator.new sample_cmath)) (-4)%float)).
Proof.
  assert (H1 : std_pow sample_cmath 2 2 = 4%float) by (vm_compute; reflexivity).
  assert (H2 : std_pow sample_cmath 2 (-2) = 0.25%float) by (vm_compute; reflexivity).
  destruct (unary_minus_and_power sample_underflow_erange sample_cmath H1 H2)
    as (_ & _ & _ & _ & H & _).
  exact (H (Calculator.new sample_cmath)).
Defined.

(** C5 at work, on the sample platform. *)
Lemma operator_precedence_and_associativity_witness :
  Calculator.evaluate sample_underflow_erange sample_cmath (Calculator.new sample_cmath) "2^3^2"
  = (Return 512%float,
     mkCalculator (pushHistory (context_ (Calculator.new sample_cmath)) 512%float)).
Proof.
  assert (H1 : std_pow sample_cmath 3 2 = 9%float) by (vm_compute; reflexivity).
  assert (H2 : std_pow sample_cmath 2 9 = 512%float) by (vm_compute; reflexivity).
  destruct (operator_precedence_and_associativity sample_underflow_erange sample_cmath H1 H2)
    as (_ & _ & _ & _ & _ & _ & _ & _ & _ & H).
  exact (H (Calculator.new sample_cmath)).
Defined.

(** C7 on the code: the assignment to [pi] fails with the error of its
    right-hand side, which does not name the constant. *)
Lemma assignment_to_constant_reports_operand_error :
  Calculator.evaluate sample_underflow_erange sample_cmath (Calculator.new sample_cmath)
    "pi = 1/0"
  = (Throw (EvalError "Division by zero"), Calculator.new sample_cmath).
Proof. vm_compute. reflexivity. Qed.

(** ** The cases of the test suite

    The checks of [tests/test_calculator.cpp] that do not depend on the
    library functions of the platform, on every platform. *)
Example test_calculator (strtod_underflow_erange : Z -> Z -> bool) (m : cmath) :
  fst (Calculator.evaluate strtod_underflow_erange m (Calculator.new m) "2 + 3 * 4")
    = Return 14%float /\
  fst (Calculator.evaluate strtod_underflow_erange m (Calculator.new m) "(2 + 3) * 4")
    = Return 20%float /\
  fst (Calculator.evaluate strtod_underflow_erange m (Calculator.new m) "-5")
    = Return (-5)%float /\
  fst (Calculator.evaluate strtod_underflow_erange m (Calculator.new m) "-(3+2)")
    = Return (-5)%float /\
  fst (Calculator.evaluate strtod_underflow_erange m (Calculator.new m) "sqrt(9)")
    = Return 3%float /\
  fst (Calculator.evaluate strtod_underflow_erange m (Calculator.new m) "min(5, 2, 7)")
    = Return 2%float /\
  fst (Calculator.evaluate strtod_underflow_erange m (Calculator.new m) "max(5, 2, 7)")
    = Return 7%float /\
  fst (Calculator.evaluate strtod_underflow_erange m (Calculator.new m) "x = 3.14")
    = Return 3.14%float /\
  fst (Calculator.evaluate strtod_underflow_erange m
         (Calculator.session strtod_underflow_erange m ["x = 3.14"]) "x * 2")
    = Return 6.28%float /\
  fst (Calculator.evaluate strtod_underflow_erange m (Calculator.new m) "e")
    = Return (std_exp m 1) /\
  fst (Calculator.evaluate strtod_underflow_erange m
         (Calculator.session strtod_underflow_erange m ["10"; "20"]) "$1 + $2")
    = Return 30%float /\
  fst (Calculator.evaluate strtod_underflow_erange m (Calculator.new m) "foo(1)")
    = Throw (EvalError "Unknown function 'foo'") /\
  fst (Calculator.evaluate strtod_underflow_erange m (Calculator.new m) "2 + * 3")
    = Throw (ParseError "Unexpected token '*' at position 4").
Proof. repeat split; vm_compute; reflexivity. Qed.

(** * More about the code *)

(** ** Texts *)

Module StringFacts.

Lemma get_Some_lt s : forall i c, String.get i s = Some c -> i < String.length s.
Proof.
  induction s as [|a s IH]; intros i c H; [destruct i; discriminate|].
  destruct i as [|i]; simpl in *; [lia|]. apply IH in H. lia.
Qed.

Lemma get_lt_Some s : forall i, i < String.length s -> exists c, String.get i s = Some c.
Proof.
  induction s as [|a s IH]; intros i H; simpl in H; [lia|].
  destruct i as [|i]; simpl; [eauto|]. apply IH. lia.
Qed.

Lemma substring_length s : forall n m,
  n + m <= String.length s -> String.length (String.substring n m s) = m.
Proof.
  induction s as [|a s IH]; intros n m H; simpl in H.
  - assert (n = 0) by lia. assert (m = 0) by lia. subst. reflexivity.
  - destruct n as [|n]; simpl.
    + destruct m as [|m]; simpl; [reflexivity|]. f_equal. apply IH. simpl. lia.
    + apply IH. lia.
Qed.

Lemma substring_get s : forall n m c,
  String.get n s = Some c ->
  String.substring n (S m) s = String c (String.substring (S n) m s).
Proof.
  induction s as [|a s IH]; intros n m c H; [destruct n; discriminate|].
  destruct n as [|n]; simpl in H.
  - injection H as ->. simpl. destruct m; reflexivity.
  - simpl. rewrite (IH n m c H). reflexivity.
Qed.

Lemma substring_one s n c :
  String.get n s = Some c -> String.substring n 1 s = String c EmptyString.
Proof.
  intros H. rewrite (substring_get s n 0 c H). f_equal.
  clear H. revert n. induction s as [|a s IH]; intros n; [reflexivity|].
  destruct n; simpl; [destruct s; reflexivity | apply IH].
Qed.

Lemma substring_forallb (P : ascii -> bool) s : forall n m,
  (forall i, n <= i < n + m -> exists c, String.get i s = Some c /\ P c = true) ->
  string_forallb P (String.substring n m s) = true.
Proof.
  induction s as [|a s IH]; intros n m H.
  - destruct m as [|m]; [destruct n; reflexivity|].
    destruct (H n) as (c & Hc & _); [lia|]. destruct n; discriminate.
  - destruct n as [|n]; simpl.
    + destruct m as [|m]; [reflexivity|]. simpl.
      destruct (H 0) as (c & Hc & HP); [lia|]. injection Hc as ->. rewrite HP. simpl.
      apply IH. intros i Hi. destruct (H (S i)) as (c' & Hc' & HP'); [lia|]. eauto.
    + apply IH. intros i Hi. destruct (H (S i)) as (c' & Hc' & HP'); [lia|]. eauto.
Qed.

Lemma all_digits_forallb s : all_digits s = string_forallb isdigit s.
Proof. induction s as [|a s IH]; simpl; [reflexivity | rewrite IH; reflexivity]. Qed.

Lemma forallb_get (P : ascii -> bool) s :
  string_forallb P s = true -> forall i c, String.get i s = Some c -> P c = true.
Proof.
  induction s as [|a s IH]; intros H i c Hg; [destruct i; discriminate|].
  simpl in H. apply andb_true_iff in H. destruct H as [Ha Hs].
  destruct i as [|i]; simpl in Hg; [congruence | eauto].
Qed.

Lemma append_assoc (s t u : string) : (s +:+ t) +:+ u = s +:+ (t +:+ u).
Proof.
  induction s as [|c s IH]; [reflexivity|].
  change ((String c s +:+ t) +:+ u) with (String c ((s +:+ t) +:+ u)).
  rewrite IH. reflexivity.
Qed.

End StringFacts.

(** ** The tokens of the lexer, over the input *)

Module LexerCover.
Import Lexer LexerFacts StringFacts.

Lemma currentChar_get l :
  isAtEnd l = false -> String.get (pos_ l) (input_ l) = Some (currentChar l).
Proof.
  intros He. unfold currentChar. rewrite He.
  apply isAtEnd_false in He. destruct (get_lt_Some _ _ He) as [c ->]. reflexivity.
Qed.

Lemma currentChar_end l : isAtEnd l = true -> currentChar l = Ascii.zero.
Proof. unfold currentChar. intros ->. reflexivity. Qed.

(** A loop whose condition holds only inside the input, on characters of
    the class [P]: it counts the characters it passes, stays inside the
    input, and passes only characters of the class. *)
Lemma advance_while_run cond (P : ascii -> bool) fuel : forall l n l' n',
  (forall l, cond l = true -> isAtEnd l = false /\ P (currentChar l) = true) ->
  advance_while cond fuel l n = (l', n') ->
  n' = n + (pos_ l' - pos_ l) /\
  (pos_ l <= String.length (input_ l) -> pos_ l' <= String.length (input_ l)) /\
  forall i, pos_ l <= i < pos_ l' ->
            exists c, String.get i (input_ l) = Some c /\ P c = true.
Proof.
  induction fuel as [|fuel IH]; intros l n l' n' Hc H; simpl in H.
  - injection H as <- <-. repeat split; [lia | auto | intros i Hi; lia].
  - destruct (cond l) eqn:E.
    + destruct (Hc l E) as [He HP].
      pose proof (advance_pos l He) as Hp. pose proof (advance_input l) as Hi.
      destruct (IH _ _ _ _ Hc H) as (Hn & Hw & Hall).
      pose proof (advance_while_state _ _ _ _ _ _ H) as [_ Hle].
      rewrite Hp in *. rewrite Hi in *.
      split; [lia|]. split.
      * intros _. apply Hw. apply isAtEnd_false in He. lia.
      * intros i Hrange. destruct (Nat.eq_dec i (pos_ l)) as [-> | Hne].
        -- exists (currentChar l). split; [apply currentChar_get, He | exact HP].
        -- apply Hall. lia.
    + injection H as <- <-. repeat split; [lia | auto | intros i Hi; lia].
Qed.

Lemma at_digit_inside l : at_digit l = true -> isAtEnd l = false /\ isdigit (currentChar l) = true.
Proof.
  unfold at_digit. intros H. split; [|exact H].
  destruct (isAtEnd l) eqn:E; [|reflexivity].
  rewrite (currentChar_end l E) in H. discriminate.
Qed.

Lemma isIdentifierPart_inside l :
  isIdentifierPart (currentChar l) = true ->
  isAtEnd l = false /\ isIdentifierPart (currentChar l) = true.
Proof.
  intros H. split; [|exact H].
  destruct (isAtEnd l) eqn:E; [|reflexivity].
  rewrite (currentChar_end l E) in H. discriminate.
Qed.

Lemma isspace_inside l :
  negb (isAtEnd l) && isspace (currentChar l) = true ->
  isAtEnd l = false /\ isspace (currentChar l) = true.
Proof.
  intros H. apply andb_true_iff in H. destruct H as [H1 H2].
  split; [destruct (isAtEnd l); [discriminate | reflexivity] | exact H2].
Qed.

Lemma advance_within l :
  pos_ l <= String.length (input_ l) -> pos_ (advance l) <= String.length (input_ l).
Proof.
  intros H. unfold advance. destruct (isAtEnd l) eqn:E; [exact H|].
  apply isAtEnd_false in E. simpl. lia.
Qed.

(** [skipWhitespace] passes white space only. *)
Lemma skipWhitespace_spaces l :
  pos_ l <= String.length (input_ l) ->
  pos_ (skipWhitespace l) <= String.length (input_ l) /\
  forall i, pos_ l <= i < pos_ (skipWhitespace l) ->
            exists c, String.get i (input_ l) = Some c /\ isspace c = true.
Proof.
  intros Hw. unfold skipWhitespace.
  destruct (advance_while _ (remaining l) l 0) as [l' n'] eqn:E.
  destruct (advance_while_run _ isspace _ _ _ _ _ isspace_inside E) as (_ & Hw' & Hall).
  simpl. split; [apply Hw', Hw | exact Hall].
Qed.

Section WithStrtod.
Variable uf : Z -> Z -> bool.

(** The token of [lexNumber] is the text it has read. *)
Lemma lexNumber_token l token l' :
  lexNumber uf l = Return (token, l') ->
  pos_ l <= String.length (input_ l) ->
  type token = Number /\ position token = pos_ l /\
  lexeme token = String.substring (pos_ l) (pos_ l' - pos_ l) (input_ l) /\
  stod uf (lexeme token) = Return (number_value token) /\
  pos_ l' <= String.length (input_ l).
Proof.
  unfold lexNumber.
  destruct (advance_while at_digit (remaining l) l 0) as [l1 n1] eqn:E1.
  destruct (if Ascii.eqb (currentChar l1) "."%char then _ else _) as [l2 n2] eqn:E2.
  destruct (negb _); [discriminate|].
  destruct (if Ascii.eqb (currentChar l2) "e"%char || _ then _ else _) as [l3| |] eqn:E3;
    simpl; try discriminate.
  destruct (stod uf _) as [value| |] eqn:Es; simpl; try discriminate.
  intros [= <- <-] Hw. simpl.
  destruct (advance_while_run _ isdigit _ _ _ _ _ at_digit_inside E1) as (_ & Hw1 & _).
  pose proof (advance_while_state _ _ _ _ _ _ E1) as [Hi1 _].
  assert (H2 : input_ l2 = input_ l1 /\
               (pos_ l1 <= String.length (input_ l1) -> pos_ l2 <= String.length (input_ l1))).
  { destruct (Ascii.eqb (currentChar l1) "."%char).
    - destruct (advance_while_run _ isdigit _ _ _ _ _ at_digit_inside E2) as (_ & Hw2 & _).
      apply advance_while_state in E2. rewrite advance_input in *.
      split; [tauto|]. intros H. apply Hw2, advance_within, H.
    - injection E2 as <- <-. tauto. }
  destruct H2 as [Hi2 Hw2].
  assert (H3 : input_ l3 = input_ l2 /\
               (pos_ l2 <= String.length (input_ l2) -> pos_ l3 <= String.length (input_ l2))).
  { cbv zeta in E3. destruct (Ascii.eqb (currentChar l2) "e"%char || _).
    - match type of E3 with
      | context [advance_while at_digit (remaining ?x) ?x 0] =>
          assert (Hx : input_ x = input_ l2 /\
                       (pos_ l2 <= String.length (input_ l2) ->
                        pos_ x <= String.length (input_ l2)))
            by (pose proof (advance_within l2) as Ha1;
                pose proof (advance_within (advance l2)) as Ha2;
                rewrite advance_input in Ha2;
                destruct (_ || _); rewrite ?advance_input; split; auto);
          destruct (advance_while at_digit (remaining x) x 0) as [l4 n4] eqn:E4
      end.
      destruct (n4 =? 0); [discriminate|]. injection E3 as <-.
      destruct (advance_while_run _ isdigit _ _ _ _ _ at_digit_inside E4) as (_ & Hw4 & _).
      apply advance_while_state in E4. destruct E4 as [Hi4 _]. destruct Hx as [Hix Hwx].
      split; [congruence|]. intros H. rewrite Hix in Hw4. apply Hw4, Hwx, H.
    - injection E3 as <-. tauto. }
  destruct H3 as [Hi3 Hw3].
  assert (Hi : input_ l3 = input_ l) by congruence.
  rewrite Hi in *. rewrite Hi2, Hi1 in *.
  repeat split; try reflexivity; [exact Es | auto].
Qed.

End WithStrtod.

Lemma lexIdentifier_token l token l' :
  lexIdentifier l = (token, l') ->
  pos_ l <= String.length (input_ l) ->
  type token = Identifier /\ position token = pos_ l /\
  lexeme token = String.substring (pos_ l) (pos_ l' - pos_ l) (input_ l) /\
  string_forallb isIdentifierPart (lexeme token) = true /\
  pos_ l' <= String.length (input_ l).
Proof.
  unfold lexIdentifier.
  destruct (advance_while _ (remaining l) l 0) as [l1 n1] eqn:E1.
  intros [= <- <-] Hw. simpl.
  destruct (advance_while_run _ isIdentifierPart _ _ _ _ _ isIdentifierPart_inside E1)
    as (_ & Hw1 & Hall).
  apply advance_while_state in E1. destruct E1 as [-> Hle].
  repeat split; auto.
  apply substring_forallb. intros i Hi. apply Hall. lia.
Qed.

Lemma lexHistoryRef_token l token l' :
  lexHistoryRef l = Return (token, l') ->
  isAtEnd l = false -> currentChar l = "$"%char ->
  type token = HistoryRef /\ position token = pos_ l /\
  lexeme token = String.substring (pos_ l) (pos_ l' - pos_ l) (input_ l) /\
  (exists ds, lexeme token = String "$"%char ds /\ 0 < String.length ds /\
              all_digits ds = true /\ stoi ds = Return (history_index token)) /\
  S (pos_ l) < pos_ l' /\
  pos_ l' <= String.length (input_ l).
Proof.
  unfold lexHistoryRef. intros H He Hc.
  destruct (advance_while at_digit _ (advance l) 0) as [l1 n1] eqn:E1.
  destruct (Nat.eqb_spec n1 0) as [|Hn]; [discriminate|].
  destruct (stoi _) as [index| |] eqn:Es; simpl in H; try discriminate.
  injection H as <- <-. simpl.
  destruct (advance_while_run _ isdigit _ _ _ _ _ at_digit_inside E1) as (Hn1 & Hw1 & Hall).
  apply advance_while_state in E1. destruct E1 as [Hi _].
  rewrite advance_input in *. rewrite (advance_pos l He) in *.
  pose proof (proj1 (isAtEnd_false l) He).
  assert (Hw : pos_ l1 <= String.length (input_ l)) by (apply Hw1; lia).
  rewrite Hi in *. rewrite Nat.add_1_r in *.
  repeat split; try lia.
  - replace (pos_ l1 - pos_ l) with (S n1) by lia.
    rewrite (substring_get _ _ n1 "$"%char); [reflexivity|].
    rewrite <- Hc. apply currentChar_get, He.
  - eexists. split; [reflexivity|].
    split; [rewrite substring_length; lia|]. split; [|exact Es].
    rewrite all_digits_forallb. apply substring_forallb.
    intros i Hi'. apply Hall. lia.
Qed.

Lemma punctuation_not_End c ty : punctuation c = Some ty -> ty <> End.
Proof.
  unfold punctuation.
  repeat (destruct (Ascii.eqb c _); [intros [= <-]; discriminate|]). discriminate.
Qed.

Lemma covers_skip input ts pos pos' :
  covers input ts pos -> pos <= pos' ->
  (forall i, pos <= i < pos' -> exists c, String.get i input = Some c /\ isspace c = true) ->
  covers input ts pos'.
Proof.
  intros (Hof & Hend & Hord & Hcov) Hle Hsp. repeat split; try assumption.
  - eapply Forall_impl; [exact Hend|]. simpl. intros t Ht. lia.
  - intros i c Hi Hg. destruct (Nat.lt_ge_cases i pos) as [Hlt | Hge].
    + apply (Hcov i c Hlt Hg).
    + destruct (Hsp i) as (c' & Hg' & Hs); [lia|]. left. congruence.
Qed.

(** A token read from [pos] to [pos'] extends what is covered. *)
Lemma covers_snoc input ts pos t pos' :
  covers input ts pos ->
  type t <> End -> position t = pos -> pos < pos' -> pos' <= String.length input ->
  lexeme t = String.substring pos (pos' - pos) input ->
  covers input (ts ++ [t]) pos'.
Proof.
  intros (Hof & Hend & Hord & Hcov) Hty Hpos Hlt Hw Hlex.
  assert (Hlen : String.length (lexeme t) = pos' - pos).
  { rewrite Hlex. apply substring_length. lia. }
  assert (Hte : token_end t = pos') by (unfold token_end; lia).
  repeat split.
  - apply Forall_app. split; [exact Hof|]. apply Forall_singleton.
    split; [exact Hty|]. split; [lia|]. rewrite Hlen, Hpos. symmetry. exact Hlex.
  - apply Forall_app. split.
    + eapply Forall_impl; [exact Hend|]. simpl. intros t' Ht'. lia.
    + apply Forall_singleton. lia.
  - intros i j t1 t2 Hij H1 H2.
    destruct (Nat.lt_ge_cases j (length ts)) as [Hj | Hj].
    + rewrite lookup_app_l in H1, H2 by lia. apply (Hord i j t1 t2 Hij H1 H2).
    + rewrite lookup_app_r in H2 by lia.
      destruct (j - length ts) eqn:Ej; [|destruct n; discriminate].
      injection H2 as <-.
      rewrite lookup_app_l in H1 by lia.
      rewrite Forall_forall in Hend.
      specialize (Hend t1 (list_elem_of_lookup_2 _ _ _ H1)).
      simpl in Hend. lia.
  - intros i c Hi Hg. destruct (Nat.lt_ge_cases i pos) as [Hlt' | Hge].
    + destruct (Hcov i c Hlt' Hg) as [Hs | (t' & Hin & Hr)]; [left; exact Hs|].
      right. exists t'. split; [apply elem_of_app; left; exact Hin | exact Hr].
    + right. exists t. split; [apply elem_of_app; right; apply list_elem_of_singleton; reflexivity|].
      lia.
Qed.

Section Cover.
Variable uf : Z -> Z -> bool.

Lemma identifier_shape c s n m :
  String.get n s = Some c -> isIdentifierStart c = true -> 0 < m ->
  string_forallb isIdentifierPart (String.substring n m s) = true ->
  is_identifier (String.substring n m s) = true.
Proof.
  intros Hg Hc Hm. destruct m as [|m]; [lia|].
  rewrite (substring_get _ _ _ _ Hg). simpl. rewrite Hc.
  intros H. apply andb_true_iff in H. destruct H as [_ H]. exact H.
Qed.

Lemma punctuation_shape c ty pos :
  punctuation c = Some ty -> token_shape uf (mkToken ty (char_to_string c) pos 0 0).
Proof.
  intros H.
  assert (Hc : exists c', char_to_string c = String c' EmptyString /\ punctuation c' = Some ty)
    by (exists c; split; [reflexivity | exact H]).
  unfold token_shape. simpl. revert H. unfold punctuation.
  repeat (destruct (Ascii.eqb c _); [intros [= <-]; exact Hc|]). discriminate.
Qed.

Lemma tokenize_loop_covers fuel : forall l tokens ts,
  pos_ l <= String.length (input_ l) ->
  covers (input_ l) tokens (pos_ l) ->
  Forall (token_shape uf) tokens ->
  tokenize_loop uf fuel l tokens = Return ts ->
  exists front,
    ts = front ++ [mkToken End "" (String.length (input_ l)) 0 0] /\
    covers (input_ l) front (String.length (input_ l)) /\
    Forall (token_shape uf) front.
Proof.
  induction fuel as [|fuel IH]; intros l tokens ts Hw Hcov Hsh H; simpl in H; [discriminate|].
  destruct (isAtEnd l) eqn:He0.
  { injection H as <-. unfold isAtEnd in He0. apply Nat.leb_le in He0.
    assert (Hp : pos_ l = String.length (input_ l)) by lia.
    exists tokens. unfold end_token. rewrite Hp in *. auto. }
  destruct (skipWhitespace_state l) as [Hi Hp].
  destruct (skipWhitespace_spaces l Hw) as [Hw1 Hsp].
  set (l1 := skipWhitespace l) in *.
  assert (Hcov1 : covers (input_ l) tokens (pos_ l1)) by (apply (covers_skip _ _ _ _ Hcov Hp Hsp)).
  destruct (isAtEnd l1) eqn:He.
  { injection H as <-. unfold isAtEnd in He. apply Nat.leb_le in He. rewrite Hi in He.
    assert (Hp1 : pos_ l1 = String.length (input_ l)) by lia.
    exists tokens. unfold end_token. rewrite Hp1 in *. auto. }
  rewrite <- Hi in Hw1, Hcov1.
  assert (Hnext : forall l2 t,
            input_ l2 = input_ l1 -> pos_ l2 <= String.length (input_ l1) ->
            pos_ l1 < pos_ l2 -> type t <> End -> position t = pos_ l1 ->
            lexeme t = String.substring (pos_ l1) (pos_ l2 - pos_ l1) (input_ l1) ->
            token_shape uf t ->
            tokenize_loop uf fuel l2 (tokens ++ [t]) = Return ts ->
            exists front,
              ts = front ++ [mkToken End "" (String.length (input_ l)) 0 0] /\
              covers (input_ l) front (String.length (input_ l)) /\
              Forall (token_shape uf) front).
  { intros l2 t Hi2 Hw2 Hp2 Hty Hpos Hlex Hshape Hrun. rewrite <- Hi, <- Hi2.
    apply (IH l2 (tokens ++ [t]) ts); [rewrite Hi2; exact Hw2 | | | exact Hrun].
    - rewrite Hi2. apply (covers_snoc _ _ (pos_ l1)); assumption.
    - apply Forall_app. split; [exact Hsh | apply Forall_singleton, Hshape]. }
  destruct (isdigit (currentChar l1) || _) eqn:Hnum.
  { destruct (lexNumber uf l1) as [[token l2]| e |] eqn:E; simpl in H; try discriminate.
    destruct (lexNumber_token uf _ _ _ E Hw1) as (Hty & Hpos & Hlex & Hval & Hw2).
    destruct (lexNumber_state uf _ _ _ E) as [Hi2 Hp2].
    apply (Hnext l2 token); try assumption.
    - apply Hp2; [|assumption].
      destruct (isdigit (currentChar l1)); [reflexivity|]. simpl in *.
      apply andb_true_iff in Hnum. tauto.
    - rewrite Hty; discriminate.
    - unfold token_shape. rewrite Hty. exact Hval. }
  destruct (isIdentifierStart (currentChar l1)) eqn:Hid.
  { destruct (lexIdentifier l1) as [token l2] eqn:E.
    destruct (lexIdentifier_token _ _ _ E Hw1) as (Hty & Hpos & Hlex & Hpart & Hw2).
    destruct (lexIdentifier_state _ _ _ E) as [Hi2 Hp2].
    specialize (Hp2 Hid He).
    apply (Hnext l2 token); try assumption; [rewrite Hty; discriminate|].
    unfold token_shape. rewrite Hty. rewrite Hlex in *.
    apply (identifier_shape (currentChar l1)); try assumption; [|lia].
    apply currentChar_get, He. }
  destruct (Ascii.eqb_spec (currentChar l1) "$"%char) as [Hdollar | Hdollar].
  { destruct (lexHistoryRef l1) as [[token l2]| e |] eqn:E; simpl in H; try discriminate.
    destruct (lexHistoryRef_token _ _ _ E He Hdollar) as (Hty & Hpos & Hlex & Hds & Hlt & Hw2).
    destruct (lexHistoryRef_state _ _ _ E) as [Hi2 _].
    apply (Hnext l2 token); try assumption; [lia | rewrite Hty; discriminate|].
    unfold token_shape. rewrite Hty. exact Hds. }
  destruct (punctuation (currentChar l1)) as [ty|] eqn:Hpunct; [|discriminate].
  apply (Hnext (advance l1) (mkToken ty (char_to_string (currentChar l1)) (pos_ l1) 0 0));
    try assumption; simpl.
  - apply advance_input.
  - apply advance_within, Hw1.
  - rewrite (advance_pos l1 He). lia.
  - apply (punctuation_not_End _ _ Hpunct).
  - reflexivity.
  - rewrite (advance_pos l1 He). replace (S (pos_ l1) - pos_ l1) with 1 by lia.
    symmetry. apply substring_one, currentChar_get, He.
  - apply punctuation_shape, Hpunct.
Qed.

Lemma tokenize_covers input ts :
  tokenize uf input = Return ts ->
  exists front,
    ts = front ++ [mkToken End "" (String.length input) 0 0] /\
    covers input front (String.length input) /\
    Forall (token_shape uf) front.
Proof.
  intros H. apply (tokenize_loop_covers _ (mkLexer input 0) [] ts) in H; try assumption.
  - simpl. lia.
  - repeat split; try apply Forall_nil; simpl.
    + constructor.
    + constructor.
    + intros i j t1 t2 _ Hl. rewrite lookup_nil in Hl. discriminate.
    + intros i c Hi. lia.
  - constructor.
Qed.

End Cover.

End LexerCover.

(** ** The failures of the lexer *)

Module LexerFailures.
Import Lexer LexerFacts StringFacts LexerCover.

Lemma peekChar_advance l : isAtEnd l = false -> currentChar (advance l) = peekChar l 1.
Proof.
  intros He. unfold currentChar, peekChar, advance, isAtEnd in *. rewrite He. simpl.
  rewrite Nat.add_1_r.
  destruct (Nat.leb_spec (String.length (input_ l)) (S (pos_ l)));
    destruct (Nat.ltb_spec (S (pos_ l)) (String.length (input_ l))); try lia; reflexivity.
Qed.

Lemma span_digits_first c rest :
  isdigit c = true -> 0 < String.length (fst (span_digits (String c rest))).
Proof. intros H. simpl. rewrite H. destruct (span_digits rest). simpl. lia. Qed.

Lemma decimal_to_double_throws uf m e x :
  decimal_to_double uf m e = Throw x -> x = std_out_of_range "stod".
Proof.
  unfold decimal_to_double. destruct (m =? 0)%Z; [discriminate|].
  destruct (if (0 <=? e)%Z then _ else _); try (intros [= <-]; reflexivity);
    destruct (_ && _); try discriminate; intros [= <-]; reflexivity.
Qed.

(** [std::stod] accepts a text that starts with a digit, or with a point
    and a digit: it can fail on the range only. *)
Lemma stod_first_digit uf c rest x :
  isdigit c = true -> stod uf (String c rest) = Throw x -> x = std_out_of_range "stod".
Proof.
  intros Hc. unfold stod. pose proof (span_digits_first c rest Hc) as Hlen.
  destruct (span_digits (String c rest)) as [ip r1]. simpl in Hlen.
  destruct (match r1 with String a r => _ | EmptyString => _ end) as [fp r2].
  destruct (Nat.eqb_spec (String.length ip + String.length fp) 0); [lia|].
  apply decimal_to_double_throws.
Qed.

Lemma stod_point_digit uf d rest x :
  isdigit d = true -> stod uf (String "."%char (String d rest)) = Throw x ->
  x = std_out_of_range "stod".
Proof.
  intros Hd. unfold stod.
  change (span_digits (String "."%char (String d rest)))
    with (EmptyString, String "."%char (String d rest)).
  cbv iota beta. change (Ascii.eqb "." ".") with true. cbv iota.
  pose proof (span_digits_first d rest Hd) as Hlen.
  destruct (span_digits (String d rest)) as [fp r2]. simpl in Hlen.
  destruct (Nat.eqb_spec (String.length EmptyString + String.length fp) 0);
    [simpl in *; lia|].
  apply decimal_to_double_throws.
Qed.

Lemma stoi_first_digit c rest x :
  isdigit c = true -> stoi (String c rest) = Throw x -> x = std_out_of_range "stoi".
Proof.
  intros Hc. unfold stoi. pose proof (span_digits_first c rest Hc) as Hlen.
  destruct (span_digits (String c rest)) as [ds r]. simpl in Hlen.
  destruct (Nat.eqb_spec (String.length ds) 0); [lia|].
  destruct (_ <? _)%Z; [intros [= <-]; reflexivity | discriminate].
Qed.

(** What is thrown on the way to a number token, from a position where
    [tokenize] calls [lexNumber]. *)
Lemma lexNumber_failure uf l x :
  lexNumber uf l = Throw x ->
  isAtEnd l = false ->
  isdigit (currentChar l)
  || (Ascii.eqb (currentChar l) "."%char && isdigit (peekChar l 1)) = true ->
  (exists k c, String.get k (input_ l) = Some c /\ (c = "e"%char \/ c = "E"%char) /\
               x = ParseError ("Invalid number at position " +:+ size_to_string k)) \/
  x = std_out_of_range "stod".
Proof.
  intros H He Hstart. unfold lexNumber in H.
  destruct (advance_while at_digit (remaining l) l 0) as [l1 n1] eqn:E1.
  destruct (if Ascii.eqb (currentChar l1) "."%char then _ else _) as [l2 n2] eqn:E2.
  pose proof (currentChar_get l He) as Hget.
  destruct (advance_while_run _ isdigit _ _ _ _ _ at_digit_inside E1) as (Hn1 & _ & _).
  pose proof (advance_while_state _ _ _ _ _ _ E1) as [Hi1 Hp1].
  assert (H2 : input_ l2 = input_ l1 /\ pos_ l1 <= pos_ l2).
  { destruct (Ascii.eqb (currentChar l1) "."%char).
    - apply advance_while_state in E2. rewrite advance_input in E2.
      pose proof (advance_forward l1). split; [tauto | lia].
    - injection E2 as <- <-. split; [reflexivity | lia]. }
  destruct H2 as [Hi2 Hp2].
  (* the first characters of the lexeme, and the digits seen *)
  assert (Hshape : ((0 <? n1) || (0 <? n2) = true) /\
            forall p, pos_ l2 <= p ->
              stod uf (String.substring (pos_ l) (p - pos_ l) (input_ l)) = Throw x ->
              x = std_out_of_range "stod").
  { destruct (isdigit (currentChar l)) eqn:Hd.
    - pose proof (advance_while_progress _ _ _ _ _ E1 Hd He) as Hlt.
      split; [destruct (Nat.ltb_spec 0 n1); [reflexivity | lia]|].
      intros p Hp. replace (p - pos_ l) with (S (p - pos_ l - 1)) by lia.
      rewrite (substring_get _ _ _ _ Hget). apply stod_first_digit, Hd.
    - simpl in Hstart. apply andb_true_iff in Hstart. destruct Hstart as [Hdot Hpeek].
      destruct (remaining_pos l He) as [k Hk]. rewrite Hk in E1. simpl in E1.
      unfold at_digit in E1 at 1. rewrite Hd in E1. injection E1 as <- <-.
      rewrite Hdot in E2. rewrite <- (peekChar_advance l He) in Hpeek.
      destruct (at_digit_inside (advance l) Hpeek) as [He' _].
      pose proof (advance_while_progress _ _ _ _ _ E2 Hpeek He') as Hlt.
      destruct (advance_while_run _ isdigit _ _ _ _ _ at_digit_inside E2) as (Hn2 & _ & _).
      rewrite (advance_pos l He) in *.
      split; [destruct (Nat.ltb_spec 0 n2); [apply orb_true_r | lia]|].
      intros p Hp. replace (p - pos_ l) with (S (S (p - pos_ l - 2))) by lia.
      rewrite (substring_get _ _ _ _ Hget).
      pose proof (currentChar_get (advance l) He') as Hget'.
      rewrite advance_input, (advance_pos l He) in Hget'.
      rewrite (substring_get _ _ _ _ Hget').
      apply Ascii.eqb_eq in Hdot. rewrite Hdot. apply stod_point_digit, Hpeek. }
  destruct Hshape as [Hdigits Hstod]. rewrite Hdigits in H. cbv zeta in H. simpl negb in H.
  cbv iota in H.
  destruct (Ascii.eqb (currentChar l2) "e"%char || Ascii.eqb (currentChar l2) "E"%char) eqn:Hexp.
  - match type of H with
    | context [advance_while at_digit (remaining ?y) ?y 0] =>
        assert (Hy : input_ y = input_ l2 /\ pos_ l2 <= pos_ y)
          by (pose proof (advance_forward l2); pose proof (advance_forward (advance l2));
              destruct (Ascii.eqb (currentChar (advance l2)) "+"%char || _);
              rewrite ?advance_input; split; try reflexivity; lia);
        destruct (advance_while at_digit (remaining y) y 0) as [l4 n4] eqn:E4
    end.
    destruct Hy as [Hiy Hpy].
    destruct (n4 =? 0).
    + simpl in H. injection H as <-. left.
      exists (pos_ l2), (currentChar l2). split; [|split; [|reflexivity]].
      * rewrite <- Hi1, <- Hi2. apply currentChar_get.
        destruct (isAtEnd l2) eqn:E; [|reflexivity].
        rewrite (currentChar_end l2 E) in Hexp. discriminate.
      * apply orb_true_iff in Hexp. destruct Hexp as [Hx | Hx];
          apply Ascii.eqb_eq in Hx; auto.
    + simpl in H. apply advance_while_state in E4. destruct E4 as [Hi4 Hp4].
      destruct (stod uf _) eqn:Es; simpl in H; try discriminate.
      injection H as <-. right. apply (Hstod (pos_ l4)); [lia|].
      rewrite <- Es. f_equal. f_equal. congruence.
  - simpl in H.
    destruct (stod uf _) eqn:Es; simpl in H; try discriminate.
    injection H as <-. right. apply (Hstod (pos_ l2)); [lia|].
    rewrite <- Es. f_equal. f_equal. congruence.
Qed.

Lemma lexHistoryRef_failure l x :
  lexHistoryRef l = Throw x -> isAtEnd l = false ->
  x = ParseError ("Unexpected token '$' at position " +:+ size_to_string (pos_ l)) \/
  x = std_out_of_range "stoi".
Proof.
  unfold lexHistoryRef. intros H He.
  destruct (advance_while at_digit _ (advance l) 0) as [l1 n1] eqn:E1.
  destruct (Nat.eqb_spec n1 0) as [|Hn]; [injection H as <-; left; reflexivity|].
  destruct (stoi _) as [index| e |] eqn:Es; simpl in H; try discriminate.
  injection H as <-. right.
  destruct (advance_while_run _ isdigit _ _ _ _ _ at_digit_inside E1) as (Hn1 & _ & Hall).
  apply advance_while_state in E1. destruct E1 as [Hi _].
  rewrite advance_input in *. rewrite (advance_pos l He) in *.
  destruct (Hall (S (pos_ l))) as (d & Hget & Hd); [lia|].
  rewrite Hi, Nat.add_1_r in Es.
  replace n1 with (S (n1 - 1)) in Es by lia.
  rewrite (substring_get _ _ _ _ Hget) in Es.
  apply (stoi_first_digit _ _ _ Hd Es).
Qed.

Section Failures.
Variable uf : Z -> Z -> bool.

Lemma tokenize_loop_failure fuel : forall l tokens x,
  pos_ l <= String.length (input_ l) ->
  tokenize_loop uf fuel l tokens = Throw x -> lexer_failure (input_ l) x.
Proof.
  induction fuel as [|fuel IH]; intros l tokens x Hw H; simpl in H; [discriminate|].
  destruct (isAtEnd l) eqn:He0; [discriminate|].
  destruct (skipWhitespace_state l) as [Hi Hp].
  destruct (skipWhitespace_spaces l Hw) as [Hw1 _].
  set (l1 := skipWhitespace l) in *.
  destruct (isAtEnd l1) eqn:He; [discriminate|].
  rewrite <- Hi in *.
  destruct (isdigit (currentChar l1) || _) eqn:Hnum.
  { destruct (lexNumber uf l1) as [[token l2]| e |] eqn:E; simpl in H; try discriminate.
    - destruct (lexNumber_token uf _ _ _ E Hw1) as (_ & _ & _ & _ & Hw2).
      destruct (lexNumber_state uf _ _ _ E) as [Hi2 _]. rewrite <- Hi2 in *.
      apply (IH _ _ _ Hw2 H).
    - injection H as <-.
      destruct (lexNumber_failure uf _ _ E He Hnum) as [Hx | Hx];
        unfold lexer_failure; tauto. }
  apply orb_false_iff in Hnum. destruct Hnum as [Hdigit _].
  destruct (isIdentifierStart (currentChar l1)) eqn:Hid.
  { destruct (lexIdentifier l1) as [token l2] eqn:E.
    destruct (lexIdentifier_token _ _ _ E Hw1) as (_ & _ & _ & _ & Hw2).
    destruct (lexIdentifier_state _ _ _ E) as [Hi2 _]. rewrite <- Hi2 in *.
    apply (IH _ _ _ Hw2 H). }
  destruct (Ascii.eqb_spec (currentChar l1) "$"%char) as [Hdollar | Hdollar].
  { destruct (lexHistoryRef l1) as [[token l2]| e |] eqn:E; simpl in H; try discriminate.
    - destruct (lexHistoryRef_token _ _ _ E He Hdollar) as (_ & _ & _ & _ & _ & Hw2).
      destruct (lexHistoryRef_state _ _ _ E) as [Hi2 _]. rewrite <- Hi2 in *.
      apply (IH _ _ _ Hw2 H).
    - injection H as <-.
      destruct (lexHistoryRef_failure _ _ E He) as [Hx | Hx];
        [|unfold lexer_failure; tauto].
      left. exists (pos_ l1), "$"%char. rewrite <- Hdollar at 1.
      repeat split; [apply currentChar_get, He | exact Hx]. }
  destruct (punctuation (currentChar l1)) as [ty|] eqn:Hpunct.
  - pose proof (advance_within l1 Hw1) as Hw2. rewrite <- (advance_input l1) in *.
    apply (IH _ _ _ Hw2 H).
  - injection H as <-. left. exists (pos_ l1), (currentChar l1).
    repeat split; try assumption. apply currentChar_get, He.
Qed.

Lemma tokenize_failure input x :
  tokenize uf input = Throw x -> lexer_failure input x.
Proof.
  intros H. apply (tokenize_loop_failure _ (mkLexer input 0) [] x) in H; [exact H|].
  simpl. lia.
Qed.

End Failures.

End LexerFailures.

(** ** Two kinds of text: blank, and a name *)

Module LexerTexts.
Import Lexer LexerFacts StringFacts LexerCover.

(** A loop given [remaining] fuel leaves on its condition or at the end. *)
Lemma advance_while_exit cond fuel : forall l n l' n',
  remaining l <= fuel -> advance_while cond fuel l n = (l', n') ->
  cond l' = false \/ isAtEnd l' = true.
Proof.
  induction fuel as [|fuel IH]; intros l n l' n' Hf H; simpl in H.
  - injection H as <- <-. right. unfold isAtEnd, remaining in *. apply Nat.leb_le. lia.
  - destruct (cond l) eqn:E; [|injection H as <- <-; left; exact E].
    apply (IH _ _ _ _) in H; [exact H|].
    unfold advance, isAtEnd, remaining in *.
    destruct (Nat.leb_spec (String.length (input_ l)) (pos_ l)); simpl; lia.
Qed.

Lemma identifier_start_class c :
  isIdentifierStart c = true ->
  isspace c = false /\ isdigit c = false /\ Ascii.eqb c "."%char = false /\
  isIdentifierPart c = true.
Proof.
  destruct c as [[] [] [] [] [] [] [] []]; intros H;
    try discriminate H; repeat split; reflexivity.
Qed.

Section Texts.
Variable uf : Z -> Z -> bool.

(** A text of white space only, the empty text among them, is the token
    [End] alone. *)
Lemma tokenize_blank text :
  string_forallb isspace text = true ->
  tokenize uf text = Return [mkToken End "" (String.length text) 0 0].
Proof.
  intros Hall. unfold tokenize. cbn [tokenize_loop].
  destruct (isAtEnd (mkLexer text 0)) eqn:He0.
  { unfold isAtEnd in He0. apply Nat.leb_le in He0. simpl in He0.
    assert (H0 : String.length text = 0) by lia. rewrite H0. reflexivity. }
  assert (Hw : pos_ (mkLexer text 0) <= String.length (input_ (mkLexer text 0)))
    by (simpl; lia).
  destruct (skipWhitespace_spaces _ Hw) as [Hw1 _].
  destruct (skipWhitespace_state (mkLexer text 0)) as [Hi _].
  assert (Hexit : isAtEnd (skipWhitespace (mkLexer text 0)) = true).
  { unfold skipWhitespace in *.
    destruct (advance_while _ _ (mkLexer text 0) 0) as [l1 n1] eqn:E. simpl in *.
    destruct (advance_while_exit _ _ _ _ _ _ (Nat.le_refl _) E) as [Hc | Hc]; [|exact Hc].
    destruct (isAtEnd l1) eqn:He; [reflexivity|]. simpl in Hc.
    pose proof (currentChar_get l1 He) as Hg. rewrite Hi in Hg.
    rewrite (forallb_get _ _ Hall _ _ Hg) in Hc. discriminate. }
  rewrite Hexit. unfold end_token. simpl. f_equal. f_equal. f_equal.
  unfold isAtEnd in Hexit. apply Nat.leb_le in Hexit. simpl in *. rewrite Hi in *. lia.
Qed.

(** A name is one [Identifier] token. *)
Lemma tokenize_identifier name :
  is_identifier name = true ->
  tokenize uf name =
  Return [mkToken Identifier name 0 0 0; mkToken End "" (String.length name) 0 0].
Proof.
  intros Hname. destruct name as [|c rest]; [discriminate|].
  simpl in Hname. apply andb_true_iff in Hname. destruct Hname as [Hc Hrest].
  destruct (identifier_start_class c Hc) as (Hsp & Hdg & Hdot & Hpart).
  set (name := String c rest) in *.
  assert (Hall : string_forallb isIdentifierPart name = true)
    by (simpl; rewrite Hpart, Hrest; reflexivity).
  unfold tokenize. cbn [tokenize_loop].
  assert (He : isAtEnd (mkLexer name 0) = false) by reflexivity.
  assert (Hcur : currentChar (mkLexer name 0) = c) by reflexivity.
  assert (Hskip : skipWhitespace (mkLexer name 0) = mkLexer name 0).
  { unfold skipWhitespace, remaining. cbn [pos_ input_ String.length name Nat.sub].
    cbn [advance_while]. fold name. rewrite He, Hcur, Hsp. reflexivity. }
  rewrite He, Hskip, He, Hcur, Hdg, Hdot, Hc. cbn [orb andb].
  unfold lexIdentifier.
  destruct (advance_while _ _ (mkLexer name 0) 0) as [l2 n2] eqn:E.
  destruct (advance_while_run _ isIdentifierPart _ _ _ _ _ isIdentifierPart_inside E)
    as (_ & Hw2 & _).
  pose proof (advance_while_state _ _ _ _ _ _ E) as [Hi2 _].
  assert (Hexit : isAtEnd l2 = true).
  { destruct (advance_while_exit _ _ _ _ _ _ (Nat.le_refl _) E) as [Hx | Hx]; [|exact Hx].
    destruct (isAtEnd l2) eqn:He2; [reflexivity|].
    pose proof (currentChar_get l2 He2) as Hg. rewrite Hi2 in Hg.
    simpl in Hg, Hx. rewrite (forallb_get _ _ Hall _ _ Hg) in Hx. discriminate. }
  assert (Hp2 : pos_ l2 = String.length name).
  { unfold isAtEnd in Hexit. apply Nat.leb_le in Hexit. rewrite Hi2 in *.
    simpl in Hw2, Hexit. specialize (Hw2 (Nat.le_0_l _)). simpl. lia. }
  cbn [pos_ input_] in *. rewrite Hi2, Hp2, Nat.sub_0_r, DigitsFacts.substring_all.
  change (String.length name) with (S (String.length rest)) at 1.
  cbn [tokenize_loop]. rewrite Hexit. unfold end_token. rewrite Hp2. reflexivity.
Qed.

End Texts.

End LexerTexts.

(** ** The errors of the parser *)

Module ParserErrors.
Import Parser ParserFacts.

Lemma current_elem p : pos_ p < length (tokens_ p) -> current p ∈ tokens_ p.
Proof.
  intros H. unfold current.
  destruct (lookup_lt_is_Some_2 (tokens_ p) (pos_ p) H) as [t Ht].
  rewrite (nth_lookup_Some _ _ no_token _ Ht). apply (list_elem_of_lookup_2 _ _ _ Ht).
Qed.

Lemma reports_bind {A B : Type} (ok : A -> Prop) p (r : result (A * Parser))
  (k : A * Parser -> result B) :
  pos_ p < length (tokens_ p) ->
  parsed ok p r -> reports (tokens_ p) r ->
  (forall a p', tokens_ p' = tokens_ p -> pos_ p' < length (tokens_ p') ->
                reports (tokens_ p') (k (a, p'))) ->
  reports (tokens_ p) (bind r k).
Proof.
  intros Hin Hp Hr Hk. destruct r as [[a p']| e |]; simpl in *; [|exact Hr | exact I].
  destruct Hp as (_ & Ht & _ & Hi). rewrite <- Ht. apply Hk; [exact Ht|].
  rewrite Ht. apply Hi, Hin.
Qed.

Lemma reports_expect {A : Type} p ty (a : A) :
  pos_ p < length (tokens_ p) ->
  reports (tokens_ p) (let* p := expect p ty in Return (a, p)).
Proof.
  intros Hin. unfold expect. destruct (check p ty); simpl; [exact I|].
  exists (current p). split; [apply current_elem, Hin | reflexivity].
Qed.

Lemma reports_advance {A : Type} p (r : result A) :
  reports (tokens_ (advance p)) r -> reports (tokens_ p) r.
Proof. rewrite advance_tokens. auto. Qed.

Lemma advance_inside_twice p :
  pos_ p < length (tokens_ p) -> pos_ (advance (advance p)) < length (tokens_ p).
Proof.
  intros H. rewrite <- (advance_tokens p). apply advance_inside.
  rewrite advance_tokens. apply advance_inside, H.
Qed.

Ltac inside :=
  repeat first [ assumption
               | rewrite advance_tokens
               | apply advance_inside_twice
               | apply advance_inside ].

Lemma parser_reports n :
  (forall p, pos_ p < length (tokens_ p) -> reports (tokens_ p) (parseExpression n p)) /\
  (forall p, pos_ p < length (tokens_ p) -> reports (tokens_ p) (parseAdditive n p)) /\
  (forall x p, pos_ p < length (tokens_ p) -> reports (tokens_ p) (additive_loop n x p)) /\
  (forall p, pos_ p < length (tokens_ p) -> reports (tokens_ p) (parseMultiplicative n p)) /\
  (forall x p, pos_ p < length (tokens_ p) ->
               reports (tokens_ p) (multiplicative_loop n x p)) /\
  (forall p, pos_ p < length (tokens_ p) -> reports (tokens_ p) (parseUnary n p)) /\
  (forall p, pos_ p < length (tokens_ p) -> reports (tokens_ p) (parsePower n p)) /\
  (forall p, pos_ p < length (tokens_ p) -> reports (tokens_ p) (parsePrimary n p)) /\
  (forall x p, pos_ p < length (tokens_ p) -> reports (tokens_ p) (arguments_loop n x p)).
Proof.
  induction n as [|n IH].
  - repeat split.
  - destruct IH as (IH1 & IH2 & IH3 & IH4 & IH5 & IH6 & IH7 & IH8 & IH9).
    destruct (parser_parsed n) as (P1 & P2 & _ & P4 & _ & P6 & _ & P8 & _).
    repeat split; intros.
    + rewrite parseExpression_S. apply IH2; assumption.
    + rewrite parseAdditive_S.
      eapply reports_bind; [assumption | apply P4 | apply IH4; assumption|].
      intros a p' _ Hin. apply IH3, Hin.
    + rewrite additive_loop_S.
      destruct (check p Plus); [|destruct (check p Minus)]; [| |exact I];
        apply reports_advance;
        (eapply reports_bind; [inside | apply P4 | apply IH4; inside|]);
        intros a p' _ Hin; apply IH3, Hin.
    + rewrite parseMultiplicative_S.
      eapply reports_bind; [assumption | apply P6 | apply IH6; assumption|].
      intros a p' _ Hin. apply IH5, Hin.
    + rewrite multiplicative_loop_S.
      destruct (check p Star); [|destruct (check p Slash); [|destruct (check p Percent)]];
        [| | |exact I];
        apply reports_advance;
        (eapply reports_bind; [inside | apply P6 | apply IH6; inside|]);
        intros a p' _ Hin; apply IH5, Hin.
    + rewrite parseUnary_S. destruct (check p Minus); [|apply IH7; assumption].
      apply reports_advance.
      eapply reports_bind; [inside | apply P6 | apply IH6; inside|].
      intros a p' _ _. exact I.
    + rewrite parsePower_S.
      eapply reports_bind; [assumption | apply P8 | apply IH8; assumption|].
      intros a p' _ Hin. destruct (check p' Caret); [|exact I].
      apply reports_advance.
      eapply reports_bind; [inside | apply P6 | apply IH6; inside|].
      intros b p'' _ _. exact I.
    + rewrite parsePrimary_S.
      destruct (check p Number); [exact I|].
      destruct (check p HistoryRef); [exact I|].
      destruct (check p Identifier).
      * cbv zeta. destruct (check (advance p) LParen); [|exact I].
        apply reports_advance, reports_advance.
        destruct (parser_parsed n) as (_ & _ & _ & _ & _ & _ & _ & _ & P9).
        destruct (negb (check (advance (advance p)) RParen)).
        -- eapply reports_bind; [inside | apply P9; reflexivity | apply IH9; inside|].
           intros args p' _ Hin. apply reports_expect, Hin.
        -- cbn [bind]. apply reports_expect. inside.
      * destruct (check p LParen).
        -- apply reports_advance.
           eapply reports_bind; [inside | apply P1 | apply IH1; inside|].
           intros a p' _ Hin. apply reports_expect, Hin.
        -- exists (current p). split; [apply current_elem; assumption | reflexivity].
    + rewrite arguments_loop_S.
      eapply reports_bind; [assumption | apply P1 | apply IH1; assumption|].
      intros a p' _ Hin. destruct (check p' Comma); [|exact I].
      apply reports_advance. apply IH9. inside.
Qed.

Lemma parseStatement_fuel_reports n p :
  pos_ p < length (tokens_ p) -> reports (tokens_ p) (parseStatement_fuel n p).
Proof.
  intros Hin. unfold parseStatement_fuel.
  destruct (parser_reports n) as (R1 & _).
  destruct (parser_parsed n) as (P1 & _).
  assert (Hlast : forall (node : Node) (p' : Parser),
            tokens_ p' = tokens_ p -> pos_ p' < length (tokens_ p') ->
            reports (tokens_ p')
              (if negb (check p' End) then Throw (throwUnexpected (current p'))
               else Return node)).
  { intros node p' _ Hin'. destruct (negb _); [|exact I].
    exists (current p'). split; [apply current_elem, Hin' | reflexivity]. }
  destruct (check p Identifier && _).
  - cbv zeta.
    specialize (R1 (advance (advance p))). specialize (P1 (advance (advance p))).
    assert (Hin2 : pos_ (advance (advance p)) < length (tokens_ (advance (advance p))))
      by (rewrite !advance_tokens; apply advance_inside_twice, Hin).
    specialize (R1 Hin2). rewrite !advance_tokens in R1.
    destruct (parseExpression _ (advance (advance p))) as [[expression p']| |];
      cbn [bind parsed reports] in *; [|exact R1 | exact I].
    destruct P1 as (_ & Ht & _ & Hi). rewrite !advance_tokens in Ht, Hi, Hin2.
    rewrite <- Ht. apply Hlast; [exact Ht|]. rewrite Ht. apply Hi. exact Hin2.
  - specialize (R1 p Hin). specialize (P1 p).
    destruct (parseExpression _ p) as [[node p']| |];
      cbn [bind parsed reports] in *; [|exact R1 | exact I].
    destruct P1 as (_ & Ht & _ & Hi).
    rewrite <- Ht. apply Hlast; [exact Ht|]. rewrite Ht. apply Hi. exact Hin.
Qed.

(** A syntax error names one of the tokens. *)
Lemma parseStatement_reports tokens :
  tokens <> [] -> reports tokens (parseStatement tokens).
Proof.
  intros Hne. apply (parseStatement_fuel_reports _ (mkParser tokens 0)).
  destruct tokens; simpl; [congruence | lia].
Qed.

(** The root of the tree of an assignment statement: the first token is
    the name. *)
Lemma parseStatement_assignment tokens name expression :
  parseStatement tokens = Return (AssignmentNode name expression) ->
  type (nth 0 tokens no_token) = Identifier /\ name = lexeme (nth 0 tokens no_token).
Proof.
  unfold parseStatement, parseStatement_fuel.
  set (p := mkParser tokens 0).
  destruct (parser_parsed (enough_fuel tokens)) as (P1 & _).
  destruct (check p Identifier && _) eqn:C.
  - cbv zeta. destruct (parseExpression _ _) as [[e p']| |]; simpl; try discriminate.
    destruct (negb _); [discriminate|]. intros [= <- <-].
    apply andb_true_iff in C. destruct C as [C _].
    unfold check, TokenType_eqb in C. apply bool_decide_eq_true in C.
    split; [exact C | reflexivity].
  - specialize (P1 p). destruct (parseExpression _ p) as [[node p']| |]; simpl; try discriminate.
    destruct (negb _); [discriminate|]. intros [= ->].
    simpl in P1. destruct P1 as [P1 _]. discriminate P1.
Qed.

End ParserErrors.

(** ** The grammar of primary expressions *)

Module ParserPrimary.
Import Parser ParserFacts ParserRules.

Lemma arguments_loop_fuel n acc p k x :
  n <= k -> arguments_loop n acc p = Return x -> arguments_loop k acc p = Return x.
Proof.
  apply (fuel_mono (fun i => arguments_loop i acc p)).
  intros i. apply (parser_fuel_S i).
Qed.

(** The token that [advance] has passed. *)
Lemma previous_advance p ty :
  ends_with_End (tokens_ p) -> check p ty = true -> ty <> End ->
  previous (advance p) = current p.
Proof.
  intros Hend Hc Hty. pose proof (check_advance p ty Hend Hc Hty) as Hlt.
  unfold tokens_left in Hlt. rewrite advance_tokens in Hlt.
  unfold previous, current, advance in *.
  destruct (pos_ p <? length (tokens_ p) - 1); simpl in *; [|lia].
  rewrite Nat.sub_0_r. reflexivity.
Qed.

Lemma primary_parenthesised p a p1 :
  check p LParen = true -> parses parseExpression (advance p) a p1 ->
  check p1 RParen = true -> parses parsePrimary p a (advance p1).
Proof.
  intros C [n H] C1. exists (S n). rewrite parsePrimary_S.
  rewrite (check_other p LParen Number C), (check_other p LParen HistoryRef C),
    (check_other p LParen Identifier C), C by discriminate.
  rewrite H. cbn [bind]. unfold expect. rewrite C1. reflexivity.
Qed.

Lemma primary_variable p :
  ends_with_End (tokens_ p) -> check p Identifier = true ->
  check (advance p) LParen = false ->
  parses parsePrimary p (VariableNode (lexeme (current p))) (advance p).
Proof.
  intros Hend C C1. exists 1. rewrite parsePrimary_S.
  rewrite (check_other p Identifier Number C), (check_other p Identifier HistoryRef C), C
    by discriminate.
  cbv zeta. rewrite C1, (previous_advance p Identifier Hend C) by discriminate. reflexivity.
Qed.

Lemma primary_call_without_arguments p :
  ends_with_End (tokens_ p) -> check p Identifier = true ->
  check (advance p) LParen = true -> check (advance (advance p)) RParen = true ->
  parses parsePrimary p (CallNode (lexeme (current p)) [])
         (advance (advance (advance p))).
Proof.
  intros Hend C C1 C2. exists 1. rewrite parsePrimary_S.
  rewrite (check_other p Identifier Number C), (check_other p Identifier HistoryRef C), C
    by discriminate.
  cbv zeta. rewrite C1, C2, (previous_advance p Identifier Hend C) by discriminate.
  cbn [negb bind]. unfold expect. rewrite C2. reflexivity.
Qed.

Lemma primary_call p args p1 :
  ends_with_End (tokens_ p) -> check p Identifier = true ->
  check (advance p) LParen = true -> check (advance (advance p)) RParen = false ->
  parses (fun fuel => arguments_loop fuel []) (advance (advance p)) args p1 ->
  check p1 RParen = true ->
  parses parsePrimary p (CallNode (lexeme (current p)) args) (advance p1).
Proof.
  intros Hend C C1 C2 [n H] C3. exists (S n). rewrite parsePrimary_S.
  rewrite (check_other p Identifier Number C), (check_other p Identifier HistoryRef C), C
    by discriminate.
  cbv zeta. rewrite C1, C2, (previous_advance p Identifier Hend C) by discriminate.
  cbn [negb]. rewrite H. cbn [bind]. unfold expect. rewrite C3. reflexivity.
Qed.

Lemma arguments_last acc p a p1 :
  parses parseExpression p a p1 -> check p1 Comma = false ->
  parses (fun fuel => arguments_loop fuel acc) p (acc ++ [a]) p1.
Proof.
  intros [n H] C. exists (S n). rewrite arguments_loop_S, H. cbn [bind]. rewrite C.
  reflexivity.
Qed.

Lemma arguments_more acc p a p1 args p2 :
  parses parseExpression p a p1 -> check p1 Comma = true ->
  parses (fun fuel => arguments_loop fuel (acc ++ [a])) (advance p1) args p2 ->
  parses (fun fuel => arguments_loop fuel acc) p args p2.
Proof.
  intros [n H] C [k Hk]. exists (S (n + k)). rewrite arguments_loop_S.
  rewrite (parseExpression_fuel n p (n + k) _ (Nat.le_add_r _ _) H). cbn [bind]. rewrite C.
  apply (arguments_loop_fuel k); [lia | exact Hk].
Qed.

End ParserPrimary.

(** ** The order of [double] *)

Module FloatOrder.

Lemma SFltb_irrefl x : SFltb x x = false.
Proof.
  unfold SFltb. destruct x as [s|s| |s m e]; simpl; try destruct s; try reflexivity;
    rewrite Z.compare_refl;
    change (PosDef.Pos.compare_cont Eq m m) with (Pos.compare m m);
    rewrite Pos.compare_refl; reflexivity.
Qed.

Lemma lex_lt e1 e2 e3 m1 m2 m3 :
  match (e1 ?= e2)%Z with Eq => Pos.compare m1 m2 | Lt => Lt | Gt => Gt end = Lt ->
  match (e2 ?= e3)%Z with Eq => Pos.compare m2 m3 | Lt => Lt | Gt => Gt end = Lt ->
  match (e1 ?= e3)%Z with Eq => Pos.compare m1 m3 | Lt => Lt | Gt => Gt end = Lt.
Proof.
  destruct (Z.compare_spec e1 e2), (Z.compare_spec e2 e3), (Z.compare_spec e1 e3);
    subst; try lia; try discriminate; try reflexivity.
  rewrite !Pos.compare_lt_iff. lia.
Qed.

Lemma lex_gt e1 e2 e3 m1 m2 m3 :
  match (e1 ?= e2)%Z with Eq => CompOpp (Pos.compare m1 m2) | Lt => Gt | Gt => Lt end = Lt ->
  match (e2 ?= e3)%Z with Eq => CompOpp (Pos.compare m2 m3) | Lt => Gt | Gt => Lt end = Lt ->
  match (e1 ?= e3)%Z with Eq => CompOpp (Pos.compare m1 m3) | Lt => Gt | Gt => Lt end = Lt.
Proof.
  destruct (Z.compare_spec e1 e2), (Z.compare_spec e2 e3), (Z.compare_spec e1 e3);
    subst; try lia; try discriminate; try reflexivity.
  destruct (Pos.compare_spec m1 m2), (Pos.compare_spec m2 m3), (Pos.compare_spec m1 m3);
    subst; simpl; try lia; try discriminate; reflexivity.
Qed.

Lemma SFltb_trans x y z : SFltb x y = true -> SFltb y z = true -> SFltb x z = true.
Proof.
  unfold SFltb.
  destruct x as [sx|sx| |sx mx ex], y as [sy|sy| |sy my ey], z as [sz|sz| |sz mz ez];
    simpl; try discriminate; try reflexivity;
    try destruct sx; try destruct sy; try destruct sz;
    try discriminate; try reflexivity;
    change (PosDef.Pos.compare_cont Eq ?a ?b) with (Pos.compare a b).
  - intros H1 H2.
    pose proof (lex_gt ex ey ez mx my mz) as H.
    destruct (match (ex ?= ey)%Z with Eq => _ | Lt => _ | Gt => _ end); try discriminate.
    destruct (match (ey ?= ez)%Z with Eq => _ | Lt => _ | Gt => _ end); try discriminate.
    rewrite H; reflexivity.
  - intros H1 H2.
    pose proof (lex_lt ex ey ez mx my mz) as H.
    destruct (match (ex ?= ey)%Z with Eq => _ | Lt => _ | Gt => _ end); try discriminate.
    destruct (match (ey ?= ez)%Z with Eq => _ | Lt => _ | Gt => _ end); try discriminate.
    rewrite H; reflexivity.
Qed.

(** [operator<] on [double] is irreflexive and transitive, not-a-number
    included. *)
Lemma ltb_irrefl (x : float) : ltb x x = false.
Proof. rewrite FloatAxioms.ltb_spec. apply SFltb_irrefl. Qed.

Lemma ltb_trans (x y z : float) : ltb x y = true -> ltb y z = true -> ltb x z = true.
Proof. rewrite !FloatAxioms.ltb_spec. apply SFltb_trans. Qed.

End FloatOrder.

(** ** The built-in functions [min] and [max] *)

Module EvaluatorOrder.
Import Evaluator FloatOrder.

Lemma fold_least xs : forall seen s,
  s ∈ seen -> (forall y, y ∈ seen -> ltb y s = false) ->
  let v := fold_left (fun smallest y => if ltb y smallest then y else smallest) xs s in
  v ∈ seen ++ xs /\ forall y, y ∈ seen ++ xs -> ltb y v = false.
Proof.
  induction xs as [|x xs IH]; intros seen s Hin Hle; simpl.
  - rewrite app_nil_r. auto.
  - replace (seen ++ x :: xs) with ((seen ++ [x]) ++ xs) by (rewrite <- app_assoc; reflexivity).
    destruct (ltb x s) eqn:E; apply IH.
    + apply elem_of_app. right. apply list_elem_of_singleton. reflexivity.
    + intros y Hy. apply elem_of_app in Hy. destruct Hy as [Hy | Hy].
      * destruct (ltb y x) eqn:E'; [|reflexivity].
        rewrite <- (Hle y Hy). symmetry. apply (ltb_trans y x s E' E).
      * apply list_elem_of_singleton in Hy. subst. apply ltb_irrefl.
    + apply elem_of_app. left. exact Hin.
    + intros y Hy. apply elem_of_app in Hy. destruct Hy as [Hy | Hy]; [apply Hle, Hy|].
      apply list_elem_of_singleton in Hy. subst. exact E.
Qed.

Lemma fold_greatest xs : forall seen s,
  s ∈ seen -> (forall y, y ∈ seen -> ltb s y = false) ->
  let v := fold_left (fun largest y => if ltb largest y then y else largest) xs s in
  v ∈ seen ++ xs /\ forall y, y ∈ seen ++ xs -> ltb v y = false.
Proof.
  induction xs as [|x xs IH]; intros seen s Hin Hle; simpl.
  - rewrite app_nil_r. auto.
  - replace (seen ++ x :: xs) with ((seen ++ [x]) ++ xs) by (rewrite <- app_assoc; reflexivity).
    destruct (ltb s x) eqn:E; apply IH.
    + apply elem_of_app. right. apply list_elem_of_singleton. reflexivity.
    + intros y Hy. apply elem_of_app in Hy. destruct Hy as [Hy | Hy].
      * destruct (ltb x y) eqn:E'; [|reflexivity].
        rewrite <- (Hle y Hy). symmetry. apply (ltb_trans s x y E E').
      * apply list_elem_of_singleton in Hy. subst. apply ltb_irrefl.
    + apply elem_of_app. left. exact Hin.
    + intros y Hy. apply elem_of_app in Hy. destruct Hy as [Hy | Hy]; [apply Hle, Hy|].
      apply list_elem_of_singleton in Hy. subst. exact E.
Qed.

Lemma min_element_least x xs :
  min_element (x :: xs) ∈ x :: xs /\
  forall y, y ∈ x :: xs -> ltb y (min_element (x :: xs)) = false.
Proof.
  apply (fold_least xs [x] x).
  - apply list_elem_of_singleton. reflexivity.
  - intros y Hy. apply list_elem_of_singleton in Hy. subst. apply ltb_irrefl.
Qed.

Lemma max_element_greatest x xs :
  max_element (x :: xs) ∈ x :: xs /\
  forall y, y ∈ x :: xs -> ltb (max_element (x :: xs)) y = false.
Proof.
  apply (fold_greatest xs [x] x).
  - apply list_elem_of_singleton. reflexivity.
  - intros y Hy. apply list_elem_of_singleton in Hy. subst. apply ltb_irrefl.
Qed.

End EvaluatorOrder.

(** ** The divisor of [/] and [%] *)

Module EvaluatorDivisor.
Import Evaluator FloatOrder.

Lemma SFeqb_refl_nan x : SFeqb x x = false -> x = S754_nan.
Proof.
  unfold SFeqb. destruct x as [s|s| |s m e]; simpl; try destruct s;
    try discriminate; try reflexivity;
    rewrite Z.compare_refl;
    change (PosDef.Pos.compare_cont Eq m m) with (Pos.compare m m);
    rewrite Pos.compare_refl; discriminate.
Qed.

(** A zero of either sign is below the tolerance. *)
Lemma zero_below_epsilon (x : float) :
  PrimFloat.eqb x 0 = true -> ltb (abs x) kZeroEpsilon = true.
Proof.
  rewrite FloatAxioms.eqb_spec, FloatAxioms.ltb_spec, FloatAxioms.abs_spec.
  replace (Prim2SF 0) with (S754_zero false) by (vm_compute; reflexivity).
  replace (Prim2SF kZeroEpsilon)
    with (S754_finite false 4951760157141521 (-92)) by (vm_compute; reflexivity).
  destruct (Prim2SF x) as [s|s| |s m e]; try destruct s; discriminate || reflexivity.
Qed.

(** Not-a-number is not. *)
Lemma nan_not_below_epsilon (x : float) :
  PrimFloat.eqb x x = false -> ltb (abs x) kZeroEpsilon = false.
Proof.
  rewrite FloatAxioms.eqb_spec, FloatAxioms.ltb_spec, FloatAxioms.abs_spec. intros H.
  rewrite (SFeqb_refl_nan _ H). reflexivity.
Qed.

End EvaluatorDivisor.

(** ** What a walk depends on *)

Module EvaluatorFrame.
Import Context Evaluator.

Lemma same_ret {A : Type} S (a : A) : same S (ret a).
Proof. intros ctx1 ctx2 H. split; [reflexivity | exact H]. Qed.

Lemma same_read {A : Type} S (f : EvaluationContext -> result A) :
  (forall ctx1 ctx2, agree S ctx1 ctx2 -> f ctx1 = f ctx2) -> same S (read f).
Proof. intros Hf ctx1 ctx2 H. split; [apply Hf, H | exact H]. Qed.

Lemma same_and_then {A B : Type} S (c : eval A) (k : A -> eval B) :
  same S c -> (forall a, same S (k a)) -> same S (and_then c k).
Proof.
  intros Hc Hk ctx1 ctx2 H. unfold and_then.
  destruct (Hc ctx1 ctx2 H) as [Hr Ha].
  destruct (c ctx1) as [r1 ctx1'], (c ctx2) as [r2 ctx2']. simpl in Hr, Ha. subst r2.
  destruct r1 as [a| e |]; [apply Hk, Ha | split; [reflexivity | exact Ha] ..].
Qed.

Lemma same_setVariable S name value :
  S name -> same S (fun ctx => setVariable ctx name value).
Proof.
  intros Hname ctx1 ctx2 [Hh Hv]. unfold setVariable.
  destruct (String.eqb name "pi" || String.eqb name "e"); cbn [fst snd];
    [split; [reflexivity | split; assumption]|].
  split; [reflexivity|]. split; [exact Hh|]. cbn [variables_]. intros k Hk.
  destruct (decide (name = k)) as [-> | Hne].
  - rewrite !lookup_insert_eq. reflexivity.
  - rewrite !lookup_insert_ne by exact Hne. apply Hv, Hk.
Qed.

Section WithCmath.
Variable m : cmath.

Lemma same_evalArguments S nodes : forall args,
  Forall (fun node => same S (evalNode m node)) nodes ->
  same S (evalArguments (evalNode m) nodes args).
Proof.
  induction nodes as [|node nodes IH]; intros args H; simpl.
  - apply same_ret.
  - inversion H; subst. apply same_and_then; [assumption|].
    intros value. apply IH. assumption.
Qed.

(** A walk of a tree depends on the history and on the variables that the
    tree mentions. *)
Lemma same_evalNode S node :
  (forall name, mentions name node = true -> S name) -> same S (evalNode m node).
Proof.
  induction node as [value|name|index|op operand IH|op lhs rhs IHl IHr|fn args IH
                    |name expression IH] using Node_induction; intros HS; simpl.
  - apply same_ret.
  - apply same_read. intros ctx1 ctx2 [_ Hv]. unfold getVariable.
    rewrite (Hv name); [reflexivity|]. apply HS. simpl. apply String.eqb_refl.
  - apply same_read. intros ctx1 ctx2 [Hh _]. unfold getHistoryValue. rewrite Hh. reflexivity.
  - destruct op. apply same_and_then; [apply IH, HS|]. intros a. apply same_ret.
  - apply same_and_then.
    + apply IHl. intros name H. apply HS. simpl. rewrite H. reflexivity.
    + intros a. apply same_and_then.
      * apply IHr. intros name H. apply HS. simpl. rewrite H. apply orb_true_r.
      * intros b. apply same_read. reflexivity.
  - apply same_and_then; [|intros vs; apply same_read; reflexivity].
    apply same_evalArguments.
    rewrite Forall_forall in IH. apply Forall_forall. intros arg Harg.
    apply (IH arg Harg). intros name H. apply HS. simpl.
    apply existsb_exists. exists arg. split; [apply list_elem_of_In, Harg | exact H].
  - apply same_and_then.
    + apply IH. intros k H. apply HS. simpl. rewrite H. apply orb_true_r.
    + intros value. apply same_and_then; [|intros _; apply same_ret].
      apply same_setVariable. apply HS. simpl. rewrite String.eqb_refl. reflexivity.
Qed.

(** The first argument that throws decides how a call ends, whatever the
    function. *)
Lemma evalArguments_first_error pre : forall arg post args ctx e ctx',
  Forall (fun node => exists value, evalNode m node ctx = (Return value, ctx)) pre ->
  evalNode m arg ctx = (Throw e, ctx') ->
  evalArguments (evalNode m) (pre ++ arg :: post) args ctx = (Throw e, ctx').
Proof.
  induction pre as [|node pre IH]; intros arg post args ctx e ctx' Hpre Harg; simpl.
  - unfold and_then. rewrite Harg. reflexivity.
  - inversion Hpre as [|? ? [value Hv] Hrest]; subst.
    unfold and_then at 1. rewrite Hv. apply IH; assumption.
Qed.

End WithCmath.

End EvaluatorFrame.

(** ** Texts of one token, evaluated *)

Module CalculatorTexts.
Import Context Calculator.
Import ParserFacts EvaluatorFacts CalculatorFacts.

Section WithPlatform.
Variable uf : Z -> Z -> bool.
Variable m : cmath.

Lemma parse_blank position :
  Parser.parseStatement [mkToken End "" position 0 0]
  = Throw (ParseError ("Unexpected token '<end>' at position " +:+ size_to_string position)).
Proof. reflexivity. Qed.

Lemma parse_identifier name position end_position :
  Parser.parseStatement [mkToken Identifier name position 0 0;
                         mkToken End "" end_position 0 0]
  = Return (VariableNode name).
Proof. reflexivity. Qed.

Lemma parse_history position lexeme index end_position :
  Parser.parseStatement [mkToken HistoryRef lexeme position 0 index;
                         mkToken End "" end_position 0 0]
  = Return (HistoryRefNode index).
Proof. reflexivity. Qed.

Lemma evaluate_blank calc text :
  string_forallb isspace text = true ->
  evaluate uf m calc text
  = (Throw (ParseError ("Unexpected token '<end>' at position "
                        +:+ size_to_string (String.length text))), calc).
Proof.
  intros H. unfold evaluate.
  rewrite (LexerTexts.tokenize_blank uf text H), parse_blank. reflexivity.
Qed.

Lemma evaluate_identifier calc name :
  is_identifier name = true ->
  evaluate uf m calc name =
  match variables_ (context_ calc) !! name with
  | Some value => (Return value, mkCalculator (pushHistory (context_ calc) value))
  | None => (Throw (EvalError ("Unknown variable '" +:+ name +:+ "'")), calc)
  end.
Proof.
  intros H. unfold evaluate.
  rewrite (LexerTexts.tokenize_identifier uf name H), parse_identifier.
  unfold Evaluator.evaluate. cbn [Evaluator.evalNode]. unfold Evaluator.read, getVariable.
  destruct (variables_ (context_ calc) !! name); [reflexivity|].
  rewrite Calculator_eta. reflexivity.
Qed.

Lemma evaluate_history_text calc n :
  (Z.of_nat n <= INT_MAX)%Z ->
  evaluate uf m calc (String "$" (size_to_string n)) =
  if (1 <=? n) && (n <=? length (history calc))
  then (Return (nth (n - 1) (history calc) 0%float),
        mkCalculator (pushHistory (context_ calc) (nth (n - 1) (history calc) 0%float)))
  else (Throw (EvalError ("History reference '$" +:+ int_to_string (Z.of_nat n)
                          +:+ "' out of range")), calc).
Proof.
  intros Hn. unfold evaluate, history, Context.history.
  rewrite (DigitsFacts.tokenize_history_reference uf
             (size_to_string n) (DigitsFacts.size_to_string_not_empty n)
             (DigitsFacts.size_to_string_digits n)).
  rewrite (DigitsFacts.stoi_size_to_string n Hn). cbn [bind].
  rewrite parse_history.
  unfold Evaluator.evaluate. cbn [Evaluator.evalNode].
  unfold Evaluator.read, getHistoryValue.
  replace (Z.to_nat (Z.of_nat n - 1)) with (n - 1) by lia.
  destruct (Z.leb_spec (Z.of_nat n) 0) as [H0 | H0];
    destruct (Nat.leb_spec 1 n) as [H1 | H1]; try lia; cbn [orb andb].
  - rewrite Calculator_eta. reflexivity.
  - destruct (Z.ltb_spec (Z.of_nat (length (history_ (context_ calc)))) (Z.of_nat n));
      destruct (Nat.leb_spec n (length (history_ (context_ calc)))); try lia.
    + rewrite Calculator_eta. reflexivity.
    + reflexivity.
Qed.

(** *** One call, and a sequence of calls *)

Lemma evaluate_history calc text :
  history (snd (evaluate uf m calc text)) =
  history calc ++ match fst (evaluate uf m calc text) with
                  | Return value => [value]
                  | _ => []
                  end.
Proof.
  destruct (evaluate uf m calc text) as [[value| e |] calc'] eqn:H; simpl.
  - apply evaluate_returns in H.
    destruct H as (tokens & ast & ctx' & _ & _ & _ & HE & ->).
    unfold history, Context.history. simpl.
    pose proof (evalNode_evaluated m ast (context_ calc)) as (Hh & _).
    unfold Evaluator.evaluate in HE. rewrite HE in Hh. simpl in Hh. rewrite Hh. reflexivity.
  - apply evaluate_throws in H. subst. rewrite app_nil_r. reflexivity.
  - exfalso. apply (evaluate_returns_or_throws uf m calc text). rewrite H. reflexivity.
Qed.

Lemma after_history calc lines :
  history (after uf m calc lines) = history calc ++ returned uf m calc lines.
Proof.
  revert calc. induction lines as [|line lines IH]; intros calc; simpl.
  - rewrite app_nil_r. reflexivity.
  - unfold after in *. simpl. rewrite IH.
    pose proof (evaluate_history calc line) as H.
    destruct (evaluate uf m calc line) as [[value| e |] calc']; simpl in *;
      rewrite H, <- app_assoc; reflexivity.
Qed.

(** A call binds or rebinds at most one variable, and unbinds none. *)
Lemma evaluate_variables calc text name value :
  variables_ (context_ calc) !! name = Some value ->
  exists value', variables_ (context_ (snd (evaluate uf m calc text))) !! name = Some value'.
Proof.
  intros Hv. destruct (evaluate uf m calc text) as [[v| e |] calc'] eqn:H; simpl.
  - apply evaluate_returns in H.
    destruct H as (tokens & ast & ctx' & _ & _ & Hshape & HE & ->). simpl.
    pose proof (evaluate_statement m ast (context_ calc) Hshape) as HS.
    rewrite HE in HS. destruct HS as [_ HS].
    destruct ast; try (rewrite HS; eauto).
    destruct HS as (_ & _ & ->).
    destruct (decide (name0 = name)) as [-> | Hne].
    + rewrite lookup_insert_eq. eauto.
    + rewrite lookup_insert_ne by exact Hne. eauto.
  - apply evaluate_throws in H. subst. eauto.
  - exfalso. apply (evaluate_returns_or_throws uf m calc text). rewrite H. reflexivity.
Qed.

Lemma after_variables lines : forall calc name,
  hasVariable (context_ calc) name = true ->
  hasVariable (context_ (after uf m calc lines)) name = true.
Proof.
  induction lines as [|line lines IH]; intros calc name H; [exact H|].
  unfold after in *. simpl. apply IH.
  unfold hasVariable in *. apply bool_decide_eq_true in H. apply bool_decide_eq_true.
  destruct H as [value Hv].
  destruct (evaluate_variables calc line name value Hv) as [value' Hv']. eauto.
Qed.

End WithPlatform.

End CalculatorTexts.

(** ** [trim] *)

Module TrimFacts.
Import Repl.

Lemma find_if_le pred chars : find_if pred chars <= length chars.
Proof. induction chars as [|c chars IH]; simpl; [lia|]. destruct (pred c); simpl; lia. Qed.

Lemma find_if_before pred chars :
  Forall (fun c => pred c = false) (take (find_if pred chars) chars).
Proof.
  induction chars as [|c chars IH]; simpl; [constructor|].
  destruct (pred c) eqn:E; simpl; [constructor | constructor; assumption].
Qed.

Lemma find_if_found pred chars :
  find_if pred chars < length chars ->
  exists c, chars !! find_if pred chars = Some c /\ pred c = true.
Proof.
  induction chars as [|c chars IH]; simpl; [lia|].
  destruct (pred c) eqn:E; simpl; [eauto|]. intros H. apply IH. lia.
Qed.

Lemma find_if_first pred chars : forall i c,
  chars !! i = Some c -> pred c = true -> find_if pred chars <= i.
Proof.
  induction chars as [|a chars IH]; intros i c Hi Hc; [discriminate|]. simpl.
  destruct (pred a) eqn:E; [lia|].
  destruct i as [|i]; simpl in Hi; [congruence|]. specialize (IH i c Hi Hc). lia.
Qed.

Lemma lookup_nth_error {A : Type} (l : list A) : forall i, l !! i = nth_error l i.
Proof. induction l as [|a l IH]; intros [|i]; simpl; auto. Qed.

Lemma rev_lookup {A : Type} (l : list A) i :
  i < length l -> rev l !! i = l !! (length l - S i).
Proof.
  intros H. rewrite !lookup_nth_error, nth_error_rev.
  destruct (Nat.ltb_spec i (length l)); [reflexivity | lia].
Qed.

Lemma trim_trim_chars input :
  trim input = string_of_list_ascii (trim_chars (list_ascii_of_string input)).
Proof.
  unfold trim, trim_chars. cbv zeta.
  destruct (_ =? _); reflexivity.
Qed.

Lemma not_space_false c : not_space c = false <-> isspace c = true.
Proof. unfold not_space. destruct (isspace c); simpl; split; congruence. Qed.

(** The characters are white space, what [trim] keeps, and white space;
    what it keeps neither starts nor ends with white space. *)
Lemma trim_chars_spec chars :
  exists pre post,
    chars = pre ++ trim_chars chars ++ post /\
    Forall (fun c => isspace c = true) pre /\
    Forall (fun c => isspace c = true) post /\
    (forall c, head (trim_chars chars) = Some c -> isspace c = false) /\
    (forall c, last (trim_chars chars) = Some c -> isspace c = false).
Proof.
  unfold trim_chars. cbv zeta.
  set (s := find_if not_space chars). set (k := find_if not_space (rev chars)).
  set (n := length chars).
  pose proof (find_if_le not_space chars) as Hs. fold s n in Hs.
  pose proof (find_if_before not_space chars) as Hpre. fold s in Hpre.
  assert (Hspaces : forall l, Forall (fun c => not_space c = false) l ->
                              Forall (fun c => isspace c = true) l).
  { intros l Hl. eapply Forall_impl; [exact Hl|]. intros c. apply not_space_false. }
  destruct (Nat.eqb_spec s n) as [Heq | Hne].
  - exists chars, []. rewrite app_nil_r. repeat split; try discriminate; [|constructor].
    apply Hspaces. rewrite Heq in Hpre. unfold n in Hpre. rewrite firstn_all in Hpre. exact Hpre.
  - destruct (find_if_found not_space chars) as (c & Hc & Hnc); [fold s n; lia|]. fold s in Hc.
    assert (Hk : k <= n - S s).
    { apply (find_if_first not_space (rev chars) _ c); [|exact Hnc].
      rewrite rev_lookup by (fold n; lia). fold n.
      replace (n - S (n - S s)) with s by lia. exact Hc. }
    destruct (find_if_found not_space (rev chars)) as (d & Hd & Hnd);
      [rewrite length_rev; fold k n; lia|]. fold k in Hd.
    rewrite rev_lookup in Hd by (fold n; lia). fold n in Hd.
    pose proof (find_if_before not_space (rev chars)) as Hpost. fold k in Hpost.
    rewrite firstn_rev in Hpost. fold n in Hpost.
    exists (take s chars), (drop (n - k) chars). repeat split.
    + rewrite <- (take_drop s chars) at 1. f_equal.
      rewrite <- (take_drop (n - k - s) (drop s chars)) at 1. f_equal.
      rewrite drop_drop. f_equal. lia.
    + apply Hspaces, Hpre.
    + apply Hspaces. apply Forall_rev in Hpost. rewrite rev_involutive in Hpost. exact Hpost.
    + intros a Ha. rewrite head_lookup, lookup_take_lt, lookup_drop, Nat.add_0_r in Ha by lia.
      rewrite Hc in Ha. injection Ha as <-. unfold not_space in Hnc.
      destruct (isspace c); [discriminate | reflexivity].
    + intros a Ha. rewrite last_lookup, length_take, length_drop in Ha. fold n in Ha.
      rewrite lookup_take_lt, lookup_drop in Ha by lia.
      replace (s + Nat.pred (Nat.min (n - k - s) (n - s))) with (n - S k) in Ha by lia.
      rewrite Hd in Ha. injection Ha as <-. unfold not_space in Hnd.
      destruct (isspace d); [discriminate | reflexivity].
Qed.

(** What neither starts nor ends with white space is kept whole. *)
Lemma trim_chars_fixed chars :
  (forall c, head chars = Some c -> isspace c = false) ->
  (forall c, last chars = Some c -> isspace c = false) ->
  trim_chars chars = chars.
Proof.
  intros Hh Hl. unfold trim_chars. cbv zeta.
  destruct chars as [|c chars]; [reflexivity|].
  assert (Hs : find_if not_space (c :: chars) = 0).
  { simpl. unfold not_space. rewrite (Hh c eq_refl). reflexivity. }
  assert (Hk : find_if not_space (rev (c :: chars)) = 0).
  { destruct (rev (c :: chars)) as [|d l] eqn:E.
    - reflexivity.
    - simpl. unfold not_space. rewrite (Hl d); [reflexivity|].
      rewrite <- (rev_involutive (c :: chars)), E. simpl. apply last_snoc. }
  rewrite Hs, Hk. cbn [Nat.eqb length]. rewrite !Nat.sub_0_r, drop_0.
  apply (firstn_all (c :: chars)).
Qed.

Lemma string_of_list_ascii_app l1 l2 :
  string_of_list_ascii (l1 ++ l2) = string_of_list_ascii l1 +:+ string_of_list_ascii l2.
Proof. induction l1 as [|c l1 IH]; simpl; [reflexivity | rewrite IH; reflexivity]. Qed.

Lemma forallb_of_list (P : ascii -> bool) l :
  Forall (fun c => P c = true) l -> string_forallb P (string_of_list_ascii l) = true.
Proof.
  induction 1 as [|c l Hc _ IH]; simpl; [reflexivity|]. rewrite Hc, IH. reflexivity.
Qed.

Lemma get_of_list l i : String.get i (string_of_list_ascii l) = l !! i.
Proof.
  revert i. induction l as [|c l IH]; intros i; [destruct i; reflexivity|].
  destruct i as [|i]; simpl; [reflexivity | apply IH].
Qed.

Lemma length_of_list l : String.length (string_of_list_ascii l) = length l.
Proof. induction l as [|c l IH]; simpl; [reflexivity | rewrite IH; reflexivity]. Qed.

End TrimFacts.

(** ** The REPL *)

Module ReplFacts.
Import Context Calculator Repl.
Import CalculatorFacts.

Section WithPlatform.
Variable uf : Z -> Z -> bool.
Variable m : cmath.
Variable format_double : float -> string.

(** What leaves [evaluate] and is no [CalcError] is one of the two range
    errors of the standard conversions. *)
Lemma evaluate_exception calc text e calc' :
  evaluate uf m calc text = (Throw e, calc') ->
  is_CalcError e = true \/ e = std_out_of_range "stod" \/ e = std_out_of_range "stoi".
Proof.
  unfold evaluate.
  destruct (Lexer.tokenize uf text) as [tokens| e0 |] eqn:EL.
  - destruct (Parser.parseStatement tokens) as [ast| e0 |] eqn:EP.
    + pose proof (EvaluatorFacts.evalNode_evaluated m ast (context_ calc)) as (_ & _ & Hr).
      unfold Evaluator.evaluate.
      destruct (Evaluator.evalNode m ast (context_ calc)) as [[value| e0 |] ctx'];
        try discriminate.
      intros [= <- _]. left. unfold is_CalcError. simpl in Hr. rewrite Hr. apply orb_true_r.
    + intros [= <- _]. left. unfold is_CalcError.
      rewrite (ParserFacts.parseStatement_throws _ _ EP). reflexivity.
    + discriminate.
  - intros [= <- _].
    apply LexerFailures.tokenize_failure in EL.
    destruct EL as [(k & c & _ & _ & _ & _ & ->) | [(k & c & _ & _ & ->) | [-> | ->]]]; auto.
  - discriminate.
Qed.

Lemma run_loop_exit interactive pre : forall l post s,
  trim l = "exit" \/ trim l = "quit" ->
  run_loop uf m format_double interactive (pre ++ l :: post) s
  = run_loop uf m format_double interactive pre s.
Proof.
  induction pre as [|line pre IH]; intros l post s Hl.
  - simpl. destruct Hl as [-> | ->]; reflexivity.
  - cbn [app run_loop].
    destruct (String.length (trim line) =? 0); [apply IH, Hl|].
    destruct (String.eqb (trim line) "exit" || String.eqb (trim line) "quit"); [reflexivity|].
    destruct (String.eqb (trim line) "help"); [apply IH, Hl|].
    destruct (String.eqb (trim line) "history"); [apply IH, Hl|].
    destruct (evaluate uf m _ (trim line)) as [[value| e |] calc']; try reflexivity.
    + apply IH, Hl.
    + destruct (is_CalcError e); [apply IH, Hl | reflexivity].
Qed.

Lemma run_loop_calculator interactive lines : forall s,
  fst (run_loop uf m format_double interactive lines s) = Return tt ->
  calculator_ (snd (run_loop uf m format_double interactive lines s))
  = after uf m (calculator_ s) (expressions lines).
Proof.
  induction lines as [|line lines IH]; intros s.
  - simpl. destruct interactive; reflexivity.
  - cbn [run_loop expressions].
    set (s' := if interactive then _ else s).
    assert (Hs : calculator_ s' = calculator_ s) by (unfold s'; destruct interactive; reflexivity).
    destruct (String.length (trim line) =? 0);
      [intros H; rewrite (IH _ H), Hs; reflexivity|].
    destruct (String.eqb (trim line) "exit" || String.eqb (trim line) "quit");
      [intros _; exact Hs|].
    destruct (String.eqb (trim line) "help");
      [intros H; rewrite (IH _ H); cbn [orb calculator_]; rewrite Hs; reflexivity|].
    destruct (String.eqb (trim line) "history");
      [intros H; rewrite (IH _ H); cbn [orb calculator_]; rewrite Hs; reflexivity|].
    cbn [orb]. unfold after. cbn [fold_left]. rewrite <- Hs.
    destruct (evaluate uf m (calculator_ s') (trim line)) as [[value| e |] calc'];
      cbn [snd]; try discriminate.
    + intros H. rewrite (IH _ H). reflexivity.
    + destruct (is_CalcError e); [|discriminate].
      intros H. rewrite (IH _ H). reflexivity.
Qed.

Lemma run_loop_ends interactive lines : forall s,
  match fst (run_loop uf m format_double interactive lines s) with
  | Return _ => True
  | Throw e => e = std_out_of_range "stod" \/ e = std_out_of_range "stoi"
  | OutOfFuel => False
  end.
Proof.
  induction lines as [|line lines IH]; intros s.
  - simpl. exact I.
  - cbn [run_loop].
    set (s' := if interactive then _ else s).
    destruct (String.length (trim line) =? 0); [apply IH|].
    destruct (String.eqb (trim line) "exit" || String.eqb (trim line) "quit"); [exact I|].
    destruct (String.eqb (trim line) "help"); [apply IH|].
    destruct (String.eqb (trim line) "history"); [apply IH|].
    pose proof (evaluate_returns_or_throws uf m (calculator_ s') (trim line)) as Hr.
    pose proof (evaluate_exception (calculator_ s') (trim line)) as Hx.
    destruct (evaluate uf m (calculator_ s') (trim line)) as [[value| e |] calc'].
    + apply IH.
    + destruct (is_CalcError e) eqn:E; [apply IH|]. simpl.
      destruct (Hx e calc' eq_refl) as [H | H]; [congruence | exact H].
    + apply Hr. reflexivity.
Qed.

End WithPlatform.

End ReplFacts.

(** ** The command line *)

Module MainFacts.
Import Context Calculator Main.
Import CalculatorFacts.

Lemma append_not_empty (s t : string) : 0 < String.length t -> s +:+ t <> "".
Proof.
  intros Ht H. apply (f_equal String.length) in H.
  rewrite DigitsFacts.length_append in H. simpl in H. lia.
Qed.

Lemma join_arguments_spaced args : forall i oss,
  1 < i -> join_arguments i args oss = oss +:+ spaced args.
Proof.
  induction args as [|arg args IH]; intros i oss Hi; simpl.
  - symmetry. apply DigitsFacts.append_empty.
  - destruct (Nat.ltb_spec 1 i); [|lia]. rewrite IH by lia.
    rewrite !StringFacts.append_assoc. reflexivity.
Qed.

Lemma concat_spaced arg args : String.concat " " (arg :: args) = arg +:+ spaced args.
Proof.
  revert arg. induction args as [|arg' args IH]; intros arg.
  - simpl. symmetry. apply DigitsFacts.append_empty.
  - change (String.concat " " (arg :: arg' :: args))
      with (arg +:+ " " +:+ String.concat " " (arg' :: args)).
    rewrite IH. reflexivity.
Qed.

(** The arguments joined by single spaces. *)
Lemma join_arguments_spaces args : join_arguments 1 args "" = String.concat " " args.
Proof.
  destruct args as [|arg args]; [reflexivity|].
  cbn [join_arguments Nat.ltb Nat.leb]. rewrite join_arguments_spaced by lia.
  rewrite concat_spaced. reflexivity.
Qed.

Lemma forallb_append (P : ascii -> bool) (s t : string) :
  string_forallb P (s +:+ t) = string_forallb P s && string_forallb P t.
Proof.
  induction s as [|c s IH]; [reflexivity|].
  change (String c s +:+ t) with (String c (s +:+ t)). simpl. rewrite IH.
  apply andb_assoc.
Qed.

Lemma joined_is_no_option arg args :
  is_option arg = false -> is_option (String.concat " " (arg :: args)) = false.
Proof.
  intros H. destruct args as [|arg' args]; [exact H|].
  change (String.concat " " (arg :: arg' :: args))
    with (arg +:+ " " +:+ String.concat " " (arg' :: args)).
  set (joined := arg +:+ " " +:+ _).
  assert (Hsp : string_forallb no_space joined = false).
  { unfold joined. rewrite forallb_append.
    change (" " +:+ ?x) with (String " "%char x). simpl. apply andb_false_r. }
  unfold is_option.
  repeat match goal with
  | |- context [String.eqb joined ?flag] =>
      destruct (String.eqb_spec joined flag) as [E | _];
      [rewrite E in Hsp; discriminate Hsp|]
  end.
  reflexivity.
Qed.

Section WithPlatform.
Variable uf : Z -> Z -> bool.
Variable m : cmath.
Variable format_double : float -> string.
Variable read_lines : string -> option (list string).

(** [has_error] is set when, and only when, [std::cerr] is written to. *)
Lemma evaluateFile_loop_status lines : forall calc n has_error o r o',
  evaluateFile_loop uf m format_double lines calc n has_error o = (Return r, o') ->
  (has_error = true <-> cerr o <> "") ->
  (r = true <-> cerr o' <> "").
Proof.
  induction lines as [|line lines IH]; intros calc n he o r o' H Hinv.
  - simpl in H. injection H as <- <-. exact Hinv.
  - cbn [evaluateFile_loop] in H.
    destruct (_ || _); [apply (IH _ _ _ _ _ _ H Hinv)|].
    destruct (evaluate uf m calc (trim line)) as [[value| e |] calc']; try discriminate.
    + apply (IH _ _ _ _ _ _ H). exact Hinv.
    + destruct (is_CalcError e); [|discriminate].
      apply (IH _ _ _ _ _ _ H). simpl. split; [intros _|reflexivity].
      apply append_not_empty. rewrite !DigitsFacts.length_append. simpl. lia.
Qed.

(** Neither the outcome nor [std::cout] depends on the number of the
    line or on what [std::cerr] holds. *)
Lemma evaluateFile_loop_numbering lines : forall calc n n' has_error o o',
  cout o = cout o' ->
  fst (evaluateFile_loop uf m format_double lines calc n has_error o)
  = fst (evaluateFile_loop uf m format_double lines calc n' has_error o') /\
  cout (snd (evaluateFile_loop uf m format_double lines calc n has_error o))
  = cout (snd (evaluateFile_loop uf m format_double lines calc n' has_error o')).
Proof.
  induction lines as [|line lines IH]; intros calc n n' he o o' Ho.
  - simpl. split; [reflexivity | exact Ho].
  - cbn [evaluateFile_loop].
    destruct (_ || _); [apply IH, Ho|].
    destruct (evaluate uf m calc (trim line)) as [[value| e |] calc'].
    + apply IH. simpl. rewrite Ho. reflexivity.
    + destruct (is_CalcError e); [apply IH; exact Ho | split; [reflexivity | exact Ho]].
    + split; [reflexivity | exact Ho].
Qed.

Lemma evaluateFile_loop_skips pre : forall line post calc n has_error o,
  skipped line = true ->
  fst (evaluateFile_loop uf m format_double (pre ++ line :: post) calc n has_error o)
  = fst (evaluateFile_loop uf m format_double (pre ++ post) calc n has_error o) /\
  cout (snd (evaluateFile_loop uf m format_double (pre ++ line :: post) calc n has_error o))
  = cout (snd (evaluateFile_loop uf m format_double (pre ++ post) calc n has_error o)).
Proof.
  induction pre as [|l pre IH]; intros line post calc n he o Hskip.
  - cbn [app evaluateFile_loop].
    assert (Hc : (String.length (trim line) =? 0)
                 || match String.get 0 (trim line) with
                    | Some c => Ascii.eqb c "#"%char
                    | None => false
                    end = true).
    { unfold skipped in Hskip. destruct (trim line) as [|c rest]; [reflexivity | exact Hskip]. }
    rewrite Hc. apply evaluateFile_loop_numbering. reflexivity.
  - cbn [app evaluateFile_loop].
    destruct (_ || _); [apply IH, Hskip|].
    destruct (evaluate uf m calc (trim l)) as [[value| e |] calc'].
    + apply IH, Hskip.
    + destruct (is_CalcError e); [apply IH, Hskip | split; reflexivity].
    + split; reflexivity.
Qed.

End WithPlatform.

End MainFacts.

(** * Further properties of the code *)

(** ** The lexer *)

(** The tokens of a text lie in the text: every token but the last is a
    piece of the input at its position, the pieces follow each other without
    overlap, every character outside them is white space, and the last
    token is [End], at the length of the input. *)
Theorem tokens_cover_the_input (strtod_underflow_erange : Z -> Z -> bool)
  (input : string) (tokens : list Token) :
  Lexer.tokenize strtod_underflow_erange input = Return tokens ->
  exists front,
    tokens = front ++ [mkToken End "" (String.length input) 0 0] /\
    Forall (token_of input) front /\
    (forall i j t1 t2, i < j -> front !! i = Some t1 -> front !! j = Some t2 ->
                       token_end t1 <= position t2) /\
    (forall i c, String.get i input = Some c ->
                 isspace c = true \/
                 exists t, t ∈ front /\ position t <= i < token_end t).
Proof.
  intros H. destruct (LexerCover.tokenize_covers _ _ _ H) as (front & -> & Hcov & _).
  destruct Hcov as (Hof & _ & Hord & Hc).
  exists front. repeat split; try assumption.
  intros i c Hg. apply (Hc i c); [|exact Hg]. apply (StringFacts.get_Some_lt _ _ _ Hg).
Qed.

Lemma tokens_cover_the_input_witness :
  exists front,
    [mkToken Number "12" 1 12 0; mkToken Plus "+" 3 0 0; mkToken Identifier "x" 5 0 0;
     mkToken End "" 7 0 0] = front ++ [mkToken End "" 7 0 0] /\
    Forall (token_of " 12+ x ") front.
Proof.
  assert (H : Lexer.tokenize sample_underflow_erange " 12+ x "
              = Return [mkToken Number "12" 1 12 0; mkToken Plus "+" 3 0 0;
                        mkToken Identifier "x" 5 0 0; mkToken End "" 7 0 0])
    by (vm_compute; reflexivity).
  destruct (tokens_cover_the_input sample_underflow_erange " 12+ x " _ H)
    as (front & H1 & H2 & _).
  exists front. split; assumption.
Defined.

(** The fields of a token agree: the value of a [Number] is what
    [std::stod] reads in its lexeme, an [Identifier] is a name, a
    [HistoryRef] is [$] and digits whose value by [std::stoi] is its index,
    an operator token is its one character, and [End] has no lexeme. *)
Theorem token_fields_agree (strtod_underflow_erange : Z -> Z -> bool)
  (input : string) (tokens : list Token) :
  Lexer.tokenize strtod_underflow_erange input = Return tokens ->
  Forall (token_shape strtod_underflow_erange) tokens.
Proof.
  intros H. destruct (LexerCover.tokenize_covers _ _ _ H) as (front & -> & _ & Hsh).
  apply Forall_app. split; [exact Hsh|]. apply Forall_singleton. reflexivity.
Qed.

Lemma token_fields_agree_witness :
  Forall (token_shape sample_underflow_erange)
    [mkToken Number "1.5e1" 0 15 0; mkToken Star "*" 5 0 0; mkToken HistoryRef "$2" 6 0 2;
     mkToken End "" 8 0 0].
Proof.
  assert (H : Lexer.tokenize sample_underflow_erange "1.5e1*$2"
              = Return [mkToken Number "1.5e1" 0 15 0; mkToken Star "*" 5 0 0;
                        mkToken HistoryRef "$2" 6 0 2; mkToken End "" 8 0 0])
    by (vm_compute; reflexivity).
  exact (token_fields_agree sample_underflow_erange "1.5e1*$2" _ H).
Defined.

(** The ways [tokenize] fails: on a character of the input that starts no
    token ([$] without digits and a point without a digit among them), named
    with its position; on an exponent without digits, at the position of its
    [e]; and with the [std::out_of_range] of [std::stod] or [std::stoi]. It
    hands the conversions no text that they refuse as invalid. *)
Theorem lexer_failures (strtod_underflow_erange : Z -> Z -> bool)
  (input : string) (e : exception) :
  Lexer.tokenize strtod_underflow_erange input = Throw e -> lexer_failure input e.
Proof. apply LexerFailures.tokenize_failure. Qed.

Lemma lexer_failures_witness :
  lexer_failure "2 . 3" (ParseError "Unexpected token '.' at position 2").
Proof.
  assert (H : Lexer.tokenize sample_underflow_erange "2 . 3"
              = Throw (ParseError "Unexpected token '.' at position 2"))
    by (vm_compute; reflexivity).
  exact (lexer_failures sample_underflow_erange "2 . 3" _ H).
Defined.

Section OnAPlatform.

Variable strtod_underflow_erange : Z -> Z -> bool.
Variable m : cmath.

Abbreviation evaluate := (Calculator.evaluate strtod_underflow_erange m).
Abbreviation tokenize := (Lexer.tokenize strtod_underflow_erange).
Abbreviation after := (after strtod_underflow_erange m).
Abbreviation returned := (returned strtod_underflow_erange m).

(** ** The parser *)

(** A text of white space only, the empty text among them, is a syntax
    error at its end, and leaves the calculator as it was. *)
Theorem blank_text_is_a_syntax_error (calc : Calculator) (text : string) :
  string_forallb isspace text = true ->
  evaluate calc text
  = (Throw (ParseError ("Unexpected token '<end>' at position "
                        +:+ size_to_string (String.length text))), calc).
Proof. apply CalculatorTexts.evaluate_blank. Qed.

(** A syntax error names a token of the text: the text of the token with
    its position, or [<end>] with the length of the text. *)
Theorem syntax_error_names_a_token (text : string) (tokens : list Token) (e : exception) :
  tokenize text = Return tokens ->
  Parser.parseStatement tokens = Throw e ->
  exists shown k,
    e = ParseError ("Unexpected token '" +:+ shown +:+ "' at position " +:+ size_to_string k) /\
    ((shown = "<end>" /\ k = String.length text) \/
     (0 < String.length shown /\ String.substring k (String.length shown) text = shown)).
Proof.
  intros HL HP.
  destruct (LexerCover.tokenize_covers _ _ _ HL) as (front & -> & ((Hof & _) & _)).
  assert (Hne : front ++ [mkToken End "" (String.length text) 0 0] <> [])
    by (destruct front; discriminate).
  pose proof (ParserErrors.parseStatement_reports _ Hne) as Hr. rewrite HP in Hr.
  destruct Hr as (t & Hin & ->).
  apply elem_of_app in Hin. destruct Hin as [Hin | Hin].
  - rewrite Forall_forall in Hof. destruct (Hof t Hin) as (_ & Hlen & Hsub).
    exists (lexeme t), (position t). split; [|right; split; assumption].
    unfold Parser.throwUnexpected.
    destruct (Nat.eqb_spec (String.length (lexeme t)) 0); [lia | reflexivity].
  - apply list_elem_of_singleton in Hin. subst t.
    exists "<end>", (String.length text). split; [reflexivity | left; split; reflexivity].
Qed.

(** The tree of a statement has an assignment at its root or nowhere:
    the parser, which ends on every token sequence that ends with [End],
    accepts [name = expression] as a whole statement only. *)
Theorem assignment_only_at_the_root (tokens : list Token) :
  ends_with_End tokens ->
  match Parser.parseStatement tokens with
  | Return ast => statement_shape ast
  | Throw e => is_ParseError e = true
  | OutOfFuel => False
  end.
Proof. apply parseStatement_spec. Qed.

(** ** The evaluator *)

(** [min] and [max] of one argument or more return one of the arguments,
    such that no argument is less than the minimum and none is greater
    than the maximum by [operator<]; without arguments they throw. *)
Theorem min_and_max_of_the_arguments (x : float) (xs : list float) :
  (exists lo hi,
     Evaluator.applyCall m "min" (x :: xs) = Return lo /\
     Evaluator.applyCall m "max" (x :: xs) = Return hi /\
     lo ∈ x :: xs /\ hi ∈ x :: xs /\
     forall y, y ∈ x :: xs -> ltb y lo = false /\ ltb hi y = false) /\
  Evaluator.applyCall m "min" []
  = Throw (EvalError "Function 'min' expects at least 1 argument but got 0") /\
  Evaluator.applyCall m "max" []
  = Throw (EvalError "Function 'max' expects at least 1 argument but got 0").
Proof.
  split; [|split; reflexivity].
  destruct (EvaluatorOrder.min_element_least x xs) as [Hlo Hle].
  destruct (EvaluatorOrder.max_element_greatest x xs) as [Hhi Hge].
  exists (Evaluator.min_element (x :: xs)), (Evaluator.max_element (x :: xs)).
  repeat split; try assumption; try reflexivity; [apply Hle | apply Hge]; assumption.
Qed.

(** [/] and [%] refuse a divisor nearer to zero than [1e-12], a zero
    of either sign among them, whatever the dividend; a divisor that is
    not a number passes the test. *)
Theorem zero_divisor_throws (lhs rhs : float) :
  (ltb (abs rhs) Evaluator.kZeroEpsilon = true ->
   Evaluator.applyBinary m Divide lhs rhs = Throw (EvalError "Division by zero") /\
   Evaluator.applyBinary m Modulo lhs rhs = Throw (EvalError "Modulo by zero")) /\
  (PrimFloat.eqb rhs 0 = true -> ltb (abs rhs) Evaluator.kZeroEpsilon = true) /\
  (PrimFloat.eqb rhs rhs = false ->
   Evaluator.applyBinary m Divide lhs rhs = Return (lhs / rhs)%float /\
   Evaluator.applyBinary m Modulo lhs rhs = Return (std_fmod m lhs rhs)).
Proof.
  split; [|split].
  - intros H. unfold Evaluator.applyBinary. rewrite H. split; reflexivity.
  - apply EvaluatorDivisor.zero_below_epsilon.
  - intros H. unfold Evaluator.applyBinary.
    rewrite (EvaluatorDivisor.nan_not_below_epsilon rhs H). split; reflexivity.
Qed.

(** The outcome of a walk depends on the history and on the variables
    that the tree mentions: two contexts that agree on these give the same
    value or the same exception. *)
Theorem value_depends_on_mentioned_variables (node : Node)
  (ctx1 ctx2 : EvaluationContext) :
  history_ ctx1 = history_ ctx2 ->
  (forall name, mentions name node = true ->
                variables_ ctx1 !! name = variables_ ctx2 !! name) ->
  fst (Evaluator.evaluate m node ctx1) = fst (Evaluator.evaluate m node ctx2).
Proof.
  intros Hh Hv.
  apply (EvaluatorFrame.same_evalNode m (fun name => mentions name node = true) node);
    [auto | split; assumption].
Qed.

(** The first argument of a call that throws decides how the call ends,
    whatever the name of the function and the number of arguments. *)
Theorem first_failing_argument_decides (fn : string) (pre : list Node) (arg : Node)
  (post : list Node) (ctx : EvaluationContext) (e : exception) (ctx' : EvaluationContext) :
  Forall (fun node => exists value, Evaluator.evaluate m node ctx = (Return value, ctx)) pre ->
  Evaluator.evaluate m arg ctx = (Throw e, ctx') ->
  Evaluator.evaluate m (CallNode fn (pre ++ arg :: post)) ctx = (Throw e, ctx').
Proof.
  intros Hpre Harg. unfold Evaluator.evaluate in *. cbn [Evaluator.evalNode].
  unfold Evaluator.and_then.
  rewrite (EvaluatorFrame.evalArguments_first_error m pre arg post [] ctx e ctx' Hpre Harg).
  reflexivity.
Qed.

(** ** The calculator *)

(** A name alone is the value of its variable, which joins the history,
    or the error [Unknown variable]; also when it is the name of a
    function. *)
Theorem name_evaluates_to_its_variable (calc : Calculator) (name : string) :
  is_identifier name = true ->
  evaluate calc name =
  match variables_ (context_ calc) !! name with
  | Some value => (Return value, mkCalculator (pushHistory (context_ calc) value))
  | None => (Throw (EvalError ("Unknown variable '" +:+ name +:+ "'")), calc)
  end.
Proof. apply CalculatorTexts.evaluate_identifier. Qed.

(** After the statement [name = expression] has returned a value, the
    text [name] returns that value. *)
Theorem assigned_variable_reads_back (calc : Calculator) (text : string)
  (tokens : list Token) (name : string) (expression : Node)
  (value : float) (calc' : Calculator) :
  tokenize text = Return tokens ->
  Parser.parseStatement tokens = Return (AssignmentNode name expression) ->
  evaluate calc text = (Return value, calc') ->
  evaluate calc' name
  = (Return value, mkCalculator (pushHistory (context_ calc') value)).
Proof.
  intros HL HP HE.
  destruct (ParserErrors.parseStatement_assignment _ _ _ HP) as [Hty Hname].
  destruct (LexerCover.tokenize_covers _ _ _ HL) as (front & -> & _ & Hsh).
  assert (Hid : is_identifier name = true).
  { destruct front as [|t front]; [discriminate Hty|]. simpl in Hty, Hname.
    inversion Hsh as [|? ? Ht _]; subst. unfold token_shape in Ht. rewrite Hty in Ht.
    exact Ht. }
  rewrite (CalculatorTexts.evaluate_identifier strtod_underflow_erange m calc' name Hid).
  apply evaluate_returns in HE.
  destruct HE as (tokens' & ast & ctx' & HL' & HP' & Hshape & HE & ->).
  rewrite HL in HL'. injection HL' as <-. rewrite HP in HP'. injection HP' as <-.
  pose proof (evaluate_statement m _ (context_ calc) Hshape) as HS.
  rewrite HE in HS. destruct HS as (_ & _ & _ & Hv).
  cbn [context_ pushHistory variables_]. rewrite Hv, lookup_insert_eq. reflexivity.
Qed.

(** The history is the values returned, in the order of the calls: a call
    that throws leaves no entry. *)
Theorem history_is_the_returned_values (calc : Calculator) (lines : list string) :
  history (after calc lines) = history calc ++ returned calc lines.
Proof. apply CalculatorTexts.after_history. Qed.

(** A value returned stays in the history at its place: after any
    further calls, the reference [$n] to it returns it, [n] being its number
    in the history (as long as [n] fits an [int]). *)
Theorem returned_value_stays_in_history (calc : Calculator) (text : string)
  (value : float) (calc' : Calculator) (lines : list string) :
  evaluate calc text = (Return value, calc') ->
  (Z.of_nat (length (history calc')) <= INT_MAX)%Z ->
  fst (evaluate (after calc' lines) (String "$" (size_to_string (length (history calc')))))
  = Return value.
Proof.
  intros HE Hn.
  pose proof (CalculatorTexts.evaluate_history strtod_underflow_erange m calc text) as Hh.
  rewrite HE in Hh. cbn [fst snd] in Hh.
  rewrite (CalculatorTexts.evaluate_history_text strtod_underflow_erange m _ _ Hn).
  rewrite (CalculatorTexts.after_history strtod_underflow_erange m calc' lines).
  set (n := length (history calc')) in *.
  assert (Hn1 : n = S (length (history calc)))
    by (unfold n; rewrite Hh, length_app; simpl; lia).
  rewrite length_app. fold n.
  destruct (Nat.leb_spec 1 n); [|lia].
  destruct (Nat.leb_spec n (n + length (returned calc' lines))); [|lia].
  cbn [andb fst]. f_equal.
  rewrite app_nth1 by (fold n; lia). rewrite Hh, app_nth2 by lia.
  replace (n - 1 - length (history calc)) with 0 by lia. reflexivity.
Qed.

(** A variable, once bound, stays bound: no call unbinds it. *)
Theorem variables_are_never_unset (calc : Calculator) (lines : list string) (name : string) :
  hasVariable (context_ calc) name = true ->
  hasVariable (context_ (after calc lines)) name = true.
Proof. apply CalculatorTexts.after_variables. Qed.

End OnAPlatform.


Lemma blank_text_is_a_syntax_error_witness :
  Calculator.evaluate sample_underflow_erange sample_cmath (Calculator.new sample_cmath) "   "
  = (Throw (ParseError "Unexpected token '<end>' at position 3"), Calculator.new sample_cmath).
Proof.
  exact (blank_text_is_a_syntax_error sample_underflow_erange sample_cmath
           (Calculator.new sample_cmath) "   " eq_refl).
Defined.

Lemma syntax_error_names_a_token_witness :
  exists shown k,
    ParseError "Unexpected token '*' at position 4"
    = ParseError ("Unexpected token '" +:+ shown +:+ "' at position " +:+ size_to_string k) /\
    ((shown = "<end>" /\ k = 7) \/
     (0 < String.length shown /\ String.substring k (String.length shown) "2 + * 3" = shown)).
Proof.
  assert (HL : Lexer.tokenize sample_underflow_erange "2 + * 3"
               = Return [mkToken Number "2" 0 2 0; mkToken Plus "+" 2 0 0;
                         mkToken Star "*" 4 0 0; mkToken Number "3" 6 3 0;
                         mkToken End "" 7 0 0]) by (vm_compute; reflexivity).
  assert (HP : Parser.parseStatement [mkToken Number "2" 0 2 0; mkToken Plus "+" 2 0 0;
                                      mkToken Star "*" 4 0 0; mkToken Number "3" 6 3 0;
                                      mkToken End "" 7 0 0]
               = Throw (ParseError "Unexpected token '*' at position 4"))
    by (vm_compute; reflexivity).
  exact (syntax_error_names_a_token sample_underflow_erange "2 + * 3" _ _ HL HP).
Defined.

Lemma assignment_only_at_the_root_witness :
  match Parser.parseStatement [mkToken Identifier "x" 0 0 0; mkToken Assign "=" 2 0 0;
                               mkToken LParen "(" 4 0 0; mkToken Identifier "y" 5 0 0;
                               mkToken Assign "=" 7 0 0; mkToken Number "1" 9 1 0;
                               mkToken RParen ")" 10 0 0; mkToken End "" 11 0 0] with
  | Return ast => statement_shape ast
  | Throw e => is_ParseError e = true
  | OutOfFuel => False
  end.
Proof.
  apply (assignment_only_at_the_root
           [mkToken Identifier "x" 0 0 0; mkToken Assign "=" 2 0 0;
            mkToken LParen "(" 4 0 0; mkToken Identifier "y" 5 0 0;
            mkToken Assign "=" 7 0 0; mkToken Number "1" 9 1 0;
            mkToken RParen ")" 10 0 0; mkToken End "" 11 0 0]).
  exists [mkToken Identifier "x" 0 0 0; mkToken Assign "=" 2 0 0;
          mkToken LParen "(" 4 0 0; mkToken Identifier "y" 5 0 0;
          mkToken Assign "=" 7 0 0; mkToken Number "1" 9 1 0;
          mkToken RParen ")" 10 0 0], (mkToken End "" 11 0 0).
  split; reflexivity.
Defined.

Lemma value_depends_on_mentioned_variables_witness :
  fst (Evaluator.evaluate sample_cmath (BinaryNode Add (VariableNode "x") (NumberNode 1))
         (mkContext (<["x" := 2%float]> (<["y" := 3%float]> ∅)) []))
  = fst (Evaluator.evaluate sample_cmath (BinaryNode Add (VariableNode "x") (NumberNode 1))
           (mkContext (<["x" := 2%float]> ∅) [])).
Proof.
  apply (value_depends_on_mentioned_variables sample_cmath
           (BinaryNode Add (VariableNode "x") (NumberNode 1))
           (mkContext (<["x" := 2%float]> (<["y" := 3%float]> ∅)) [])
           (mkContext (<["x" := 2%float]> ∅) [])).
  - reflexivity.
  - intros name H. cbn [mentions] in H. rewrite orb_false_r in H. apply String.eqb_eq in H.
    subst name. vm_compute. reflexivity.
Defined.

Lemma first_failing_argument_decides_witness :
  Evaluator.evaluate sample_cmath
    (CallNode "foo" ([NumberNode 1] ++ BinaryNode Divide (NumberNode 1) (NumberNode 0)
                                    :: [HistoryRefNode 7]))
    (Context.new sample_cmath)
  = (Throw (EvalError "Division by zero"), Context.new sample_cmath).
Proof.
  apply (first_failing_argument_decides sample_cmath "foo" [NumberNode 1]
           (BinaryNode Divide (NumberNode 1) (NumberNode 0)) [HistoryRefNode 7]
           (Context.new sample_cmath)).
  - apply Forall_singleton. exists 1%float. reflexivity.
  - vm_compute. reflexivity.
Defined.

Lemma name_evaluates_to_its_variable_witness :
  Calculator.evaluate sample_underflow_erange sample_cmath (Calculator.new sample_cmath) "sin"
  = match variables_ (context_ (Calculator.new sample_cmath)) !! "sin" with
    | Some value =>
        (Return value,
         mkCalculator (pushHistory (context_ (Calculator.new sample_cmath)) value))
    | None => (Throw (EvalError "Unknown variable 'sin'"), Calculator.new sample_cmath)
    end.
Proof.
  exact (name_evaluates_to_its_variable sample_underflow_erange sample_cmath
           (Calculator.new sample_cmath) "sin" eq_refl).
Defined.

Lemma assigned_variable_reads_back_witness :
  Calculator.evaluate sample_underflow_erange sample_cmath
    (Calculator.session sample_underflow_erange sample_cmath ["x = 2 + 3"]) "x"
  = (Return 5%float,
     mkCalculator
       (pushHistory
          (context_ (Calculator.session sample_underflow_erange sample_cmath ["x = 2 + 3"]))
          5%float)).
Proof.
  assert (HL : Lexer.tokenize sample_underflow_erange "x = 2 + 3"
               = Return [mkToken Identifier "x" 0 0 0; mkToken Assign "=" 2 0 0;
                         mkToken Number "2" 4 2 0; mkToken Plus "+" 6 0 0;
                         mkToken Number "3" 8 3 0; mkToken End "" 9 0 0])
    by (vm_compute; reflexivity).
  assert (HP : Parser.parseStatement
                 [mkToken Identifier "x" 0 0 0; mkToken Assign "=" 2 0 0;
                  mkToken Number "2" 4 2 0; mkToken Plus "+" 6 0 0;
                  mkToken Number "3" 8 3 0; mkToken End "" 9 0 0]
               = Return (AssignmentNode "x" (BinaryNode Add (NumberNode 2) (NumberNode 3))))
    by (vm_compute; reflexivity).
  assert (HE : Calculator.evaluate sample_underflow_erange sample_cmath
                 (Calculator.new sample_cmath) "x = 2 + 3"
               = (Return 5%float,
                  Calculator.session sample_underflow_erange sample_cmath ["x = 2 + 3"]))
    by (vm_compute; reflexivity).
  exact (assigned_variable_reads_back sample_underflow_erange sample_cmath
           (Calculator.new sample_cmath) "x = 2 + 3" _ "x" _ 5%float _ HL HP HE).
Defined.

Lemma returned_value_stays_in_history_witness :
  fst (Calculator.evaluate sample_underflow_erange sample_cmath
         (after sample_underflow_erange sample_cmath
            (Calculator.session sample_underflow_erange sample_cmath ["2 + 3"])
            ["1 / 0"; "7"; "x = $2"])
         "$1")
  = Return 5%float.
Proof.
  assert (HE : Calculator.evaluate sample_underflow_erange sample_cmath
                 (Calculator.new sample_cmath) "2 + 3"
               = (Return 5%float,
                  Calculator.session sample_underflow_erange sample_cmath ["2 + 3"]))
    by (vm_compute; reflexivity).
  assert (Hn : (Z.of_nat (length (history (Calculator.session sample_underflow_erange
                                             sample_cmath ["2 + 3"]))) <= INT_MAX)%Z)
    by (vm_compute; discriminate).
  exact (returned_value_stays_in_history sample_underflow_erange sample_cmath
           (Calculator.new sample_cmath) "2 + 3" 5%float _ ["1 / 0"; "7"; "x = $2"] HE Hn).
Defined.

Lemma variables_are_never_unset_witness :
  hasVariable
    (context_ (after sample_underflow_erange sample_cmath
                 (Calculator.session sample_underflow_erange sample_cmath ["x = 2"])
                 ["x = 1 / 0"; "y = 3"; "pi = 4"]))
    "x" = true.
Proof.
  apply (variables_are_never_unset sample_underflow_erange sample_cmath
           (Calculator.session sample_underflow_erange sample_cmath ["x = 2"])
           ["x = 1 / 0"; "y = 3"; "pi = 4"] "x").
  vm_compute. reflexivity.
Defined.

(** ** The front ends *)

(** [trim] removes white space at both ends and nothing else: the input
    is white space, the result, and white space; the result neither starts
    nor ends with white space; trimming twice is trimming once; and the two
    definitions, of Repl.cpp and of main.cpp, are one function. *)
Theorem trim_removes_the_white_space_around (input : string) :
  (exists pre post,
     input = pre +:+ Repl.trim input +:+ post /\
     string_forallb isspace pre = true /\ string_forallb isspace post = true) /\
  (forall c, String.get 0 (Repl.trim input) = Some c -> isspace c = false) /\
  (forall c, String.get (String.length (Repl.trim input) - 1) (Repl.trim input) = Some c ->
             isspace c = false) /\
  Repl.trim (Repl.trim input) = Repl.trim input /\
  Main.trim input = Repl.trim input.
Proof.
  rewrite !TrimFacts.trim_trim_chars.
  set (chars := list_ascii_of_string input).
  destruct (TrimFacts.trim_chars_spec chars) as (pre & post & Heq & Hpre & Hpost & Hh & Hl).
  assert (Hget0 : forall c, String.get 0 (string_of_list_ascii (trim_chars chars)) = Some c ->
                            isspace c = false).
  { intros c. rewrite TrimFacts.get_of_list, <- head_lookup. apply Hh. }
  assert (Hgetl : forall c,
            String.get (String.length (string_of_list_ascii (trim_chars chars)) - 1)
              (string_of_list_ascii (trim_chars chars)) = Some c -> isspace c = false).
  { intros c. rewrite TrimFacts.get_of_list, TrimFacts.length_of_list.
    rewrite Nat.sub_1_r, <- last_lookup. apply Hl. }
  split; [|split; [exact Hget0 | split; [exact Hgetl | split; [|reflexivity]]]].
  - exists (string_of_list_ascii pre), (string_of_list_ascii post).
    split; [|split; apply TrimFacts.forallb_of_list; assumption].
    rewrite <- !TrimFacts.string_of_list_ascii_app, <- Heq.
    symmetry. apply string_of_list_ascii_of_string.
  - rewrite list_ascii_of_string_of_list_ascii.
    rewrite TrimFacts.trim_chars_fixed; [reflexivity | exact Hh | exact Hl].
Qed.

Section OnAPlatformWithStreams.

Variable strtod_underflow_erange : Z -> Z -> bool.
Variable m : cmath.
Variable format_double : float -> string.
Variable read_lines : string -> option (list string).

Abbreviation run := (Repl.run strtod_underflow_erange m format_double).
Abbreviation main := (Main.main strtod_underflow_erange m format_double read_lines).

(** What leaves [evaluate] and is no [CalcError] is the
    [std::out_of_range] of a literal or of a history index; and the REPL,
    which catches every [CalcError], ends on its input, on [exit] or [quit],
    or with one of these two exceptions. *)
Theorem repl_ends_or_meets_a_range_error (interactive : bool) (lines : list string)
  (s : Repl.State) :
  (forall calc text e calc',
     Calculator.evaluate strtod_underflow_erange m calc text = (Throw e, calc') ->
     is_CalcError e = true \/ e = std_out_of_range "stod" \/ e = std_out_of_range "stoi") /\
  match fst (run interactive lines s) with
  | Return _ => True
  | Throw e => e = std_out_of_range "stod" \/ e = std_out_of_range "stoi"
  | OutOfFuel => False
  end.
Proof.
  split; [apply ReplFacts.evaluate_exception|]. apply ReplFacts.run_loop_ends.
Qed.

(** The line [exit] or [quit], white space around it or not, ends the
    REPL: the lines after it are not read. *)
Theorem exit_ends_the_session (interactive : bool) (pre : list string) (line : string)
  (post : list string) (s : Repl.State) :
  Repl.trim line = "exit" \/ Repl.trim line = "quit" ->
  run interactive (pre ++ line :: post) s = run interactive pre s.
Proof. intros H. apply ReplFacts.run_loop_exit, H. Qed.

(** The calculator of a REPL that has ended without an exception is the
    one after the calls of [evaluate] on the lines that are neither blank
    nor a command, trimmed, up to the first [exit] or [quit]: the commands
    [help] and [history] change nothing in it. *)
Theorem repl_calculator_is_the_session (interactive : bool) (lines : list string)
  (s : Repl.State) :
  fst (run interactive lines s) = Return tt ->
  Repl.calculator_ (snd (run interactive lines s))
  = after strtod_underflow_erange m (Repl.calculator_ s) (expressions lines).
Proof.
  intros H. unfold Repl.run in *.
  rewrite (ReplFacts.run_loop_calculator _ _ _ _ _ _ H).
  destruct interactive; reflexivity.
Qed.

(** With arguments on the command line, the exit status is 0 if and only
    if nothing was written to [std::cerr]. *)
Theorem exit_status_and_stderr (program_name arg : string) (args stdin : list string)
  (code : Z) (o : Main.Output) :
  main program_name (arg :: args) stdin = (Return code, o) ->
  (code = 0%Z <-> Main.cerr o = "").
Proof.
  unfold Main.main.
  destruct (String.eqb arg "--help" || String.eqb arg "-h").
  { intros [= <- <-]. split; reflexivity. }
  destruct (String.eqb arg "--file" || String.eqb arg "-f").
  { destruct args as [|path args].
    - intros [= <- <-]. split; discriminate.
    - unfold Main.evaluateFile. destruct (read_lines path) as [lines|].
      + destruct (Main.evaluateFile_loop _ _ _ lines _ 0 false _) as [[r| e |] o'] eqn:E;
          try discriminate.
        intros [= <- <-].
        pose proof (MainFacts.evaluateFile_loop_status _ _ _ _ _ _ _ _ _ _ E) as Hs.
        destruct Hs as [Hs1 Hs2]; [split; [discriminate | intros H; exfalso; apply H; reflexivity]|].
        destruct r; split; try discriminate; try reflexivity.
        * intros H. exfalso. apply (Hs1 eq_refl), H.
        * intros _. destruct (decide (Main.cerr o' = "")) as [Hc | Hc]; [exact Hc|].
          discriminate (Hs2 Hc).
      + intros [= <- <-]. split; [discriminate|].
        intros H. exfalso. revert H. apply MainFacts.append_not_empty.
        rewrite !DigitsFacts.length_append. simpl. lia. }
  unfold Main.evaluateSingleExpression.
  destruct (Calculator.evaluate _ _ _ _) as [[value| e |] calc']; try discriminate.
  - intros [= <- <-]. split; reflexivity.
  - destruct (is_CalcError e); [|discriminate].
    intros [= <- <-]. split; [discriminate|].
    intros H. exfalso. revert H. apply MainFacts.append_not_empty.
    rewrite !DigitsFacts.length_append. simpl. lia.
Qed.

(** Arguments that are no option are one expression, joined by single
    spaces: [calc 2 + 3] is [calc "2 + 3"]. *)
Theorem arguments_are_joined_by_spaces (program_name arg : string) (args stdin : list string) :
  is_option arg = false ->
  main program_name (arg :: args) stdin
  = main program_name [String.concat " " (arg :: args)] stdin.
Proof.
  intros H. pose proof (MainFacts.joined_is_no_option arg args H) as Hj.
  unfold is_option in H, Hj. unfold Main.main.
  apply orb_false_iff in H. destruct H as [H H4]. apply orb_false_iff in H. destruct H as [H H3].
  apply orb_false_iff in Hj. destruct Hj as [Hj Hj4].
  apply orb_false_iff in Hj. destruct Hj as [Hj Hj3].
  rewrite H, Hj. cbn [orb]. rewrite H3, H4, Hj3, Hj4. cbn [orb].
  unfold Main.evaluateSingleExpression.
  rewrite !MainFacts.join_arguments_spaces. reflexivity.
Qed.

End OnAPlatformWithStreams.

(** In a file, a blank line and a line that starts with [#] are skipped:
    with or without such a line the file gives the same exit status and the
    same text on [std::cout] (the line counts in the numbers of the lines on
    [std::cerr]). *)
Theorem comment_lines_are_skipped (strtod_underflow_erange : Z -> Z -> bool) (m : cmath)
  (format_double : float -> string) (path : string) (pre : list string) (line : string)
  (post : list string) (o : Main.Output) :
  skipped line = true ->
  fst (Main.evaluateFile strtod_underflow_erange m format_double
         (fun _ => Some (pre ++ line :: post)) path o)
  = fst (Main.evaluateFile strtod_underflow_erange m format_double
           (fun _ => Some (pre ++ post)) path o) /\
  Main.cout (snd (Main.evaluateFile strtod_underflow_erange m format_double
                    (fun _ => Some (pre ++ line :: post)) path o))
  = Main.cout (snd (Main.evaluateFile strtod_underflow_erange m format_double
                      (fun _ => Some (pre ++ post)) path o)).
Proof.
  intros H. unfold Main.evaluateFile.
  destruct (MainFacts.evaluateFile_loop_skips strtod_underflow_erange m format_double
              pre line post (Calculator.new m) 0 false o H) as [Hf Hc].
  destruct (Main.evaluateFile_loop _ _ _ (pre ++ line :: post) _ 0 false o) as [r1 o1].
  destruct (Main.evaluateFile_loop _ _ _ (pre ++ post) _ 0 false o) as [r2 o2].
  simpl in Hf, Hc. subst r2. destruct r1; split; simpl; auto.
Qed.


Lemma exit_ends_the_session_witness :
  Repl.run sample_underflow_erange sample_cmath sample_format_double false
    (["x = 2"] ++ " exit " :: ["x = 3"]) (Repl.mkState (Calculator.new sample_cmath) "" "")
  = Repl.run sample_underflow_erange sample_cmath sample_format_double false
      ["x = 2"] (Repl.mkState (Calculator.new sample_cmath) "" "").
Proof.
  apply (exit_ends_the_session sample_underflow_erange sample_cmath sample_format_double
           false ["x = 2"] " exit " ["x = 3"]).
  left. vm_compute. reflexivity.
Defined.

Lemma repl_calculator_is_the_session_witness :
  Repl.calculator_
    (snd (Repl.run sample_underflow_erange sample_cmath sample_format_double true
            ["x = 2"; "help"; ""; " x + 3 "; "1 / 0"; "history"; "quit"; "x = 7"]
            (Repl.mkState (Calculator.new sample_cmath) "" "")))
  = after sample_underflow_erange sample_cmath (Calculator.new sample_cmath)
      (expressions ["x = 2"; "help"; ""; " x + 3 "; "1 / 0"; "history"; "quit"; "x = 7"]).
Proof.
  apply (repl_calculator_is_the_session sample_underflow_erange sample_cmath
           sample_format_double true
           ["x = 2"; "help"; ""; " x + 3 "; "1 / 0"; "history"; "quit"; "x = 7"]
           (Repl.mkState (Calculator.new sample_cmath) "" "")).
  vm_compute. reflexivity.
Defined.

Lemma exit_status_and_stderr_witness :
  (1%Z = 0%Z <-> ("Line 5: Division by zero" +:+ newline) = "").
Proof.
  assert (H : Main.main sample_underflow_erange sample_cmath sample_format_double
                sample_read_lines "calc" ("--file" :: ["input.txt"]) []
              = (Return 1%Z,
                 Main.mkOutput ("2" +:+ newline +:+ "5" +:+ newline)
                               ("Line 5: Division by zero" +:+ newline)))
    by (vm_compute; reflexivity).
  exact (exit_status_and_stderr sample_underflow_erange sample_cmath sample_format_double
           sample_read_lines "calc" "--file" ["input.txt"] [] 1%Z _ H).
Defined.

Lemma arguments_are_joined_by_spaces_witness :
  Main.main sample_underflow_erange sample_cmath sample_format_double sample_read_lines
    "calc" ("2" :: ["+"; "3"]) []
  = Main.main sample_underflow_erange sample_cmath sample_format_double sample_read_lines
      "calc" [String.concat " " ("2" :: ["+"; "3"])] [].
Proof.
  exact (arguments_are_joined_by_spaces sample_underflow_erange sample_cmath
           sample_format_double sample_read_lines "calc" "2" ["+"; "3"] [] eq_refl).
Defined.

Lemma comment_lines_are_skipped_witness :
  fst (Main.evaluateFile sample_underflow_erange sample_cmath sample_format_double
         (fun _ => Some (["x = 2"] ++ "  # twice x" :: ["x + x"])) "input.txt"
         (Main.mkOutput "" ""))
  = fst (Main.evaluateFile sample_underflow_erange sample_cmath sample_format_double
           (fun _ => Some (["x = 2"] ++ ["x + x"])) "input.txt" (Main.mkOutput "" "")) /\
  Main.cout (snd (Main.evaluateFile sample_underflow_erange sample_cmath sample_format_double
                    (fun _ => Some (["x = 2"] ++ "  # twice x" :: ["x + x"])) "input.txt"
                    (Main.mkOutput "" "")))
  = Main.cout (snd (Main.evaluateFile sample_underflow_erange sample_cmath
                      sample_format_double (fun _ => Some (["x = 2"] ++ ["x + x"]))
                      "input.txt" (Main.mkOutput "" ""))).
Proof.
  exact (comment_lines_are_skipped sample_underflow_erange sample_cmath sample_format_double
           "input.txt" ["x = 2"] "  # twice x" ["x + x"] (Main.mkOutput "" "") eq_refl).
Defined.


(** ** Primary expressions and calls *)

(** The grammar of primary expressions: [( E )] is [E]; a name not
    followed by [(] is a variable; [f()] is a call without arguments and
    [f(E1, ..., En)] a call with the arguments in their order, the loop
    over the arguments going on after each comma. *)
Theorem calls_and_parentheses :
  (forall p a p1,
     Parser.check p LParen = true -> parses Parser.parseExpression (Parser.advance p) a p1 ->
     Parser.check p1 RParen = true ->
     parses Parser.parsePrimary p a (Parser.advance p1)) /\
  (forall p,
     ends_with_End (Parser.tokens_ p) -> Parser.check p Identifier = true ->
     Parser.check (Parser.advance p) LParen = false ->
     parses Parser.parsePrimary p (VariableNode (lexeme (Parser.current p)))
            (Parser.advance p)) /\
  (forall p,
     ends_with_End (Parser.tokens_ p) -> Parser.check p Identifier = true ->
     Parser.check (Parser.advance p) LParen = true ->
     Parser.check (Parser.advance (Parser.advance p)) RParen = true ->
     parses Parser.parsePrimary p (CallNode (lexeme (Parser.current p)) [])
            (Parser.advance (Parser.advance (Parser.advance p)))) /\
  (forall p args p1,
     ends_with_End (Parser.tokens_ p) -> Parser.check p Identifier = true ->
     Parser.check (Parser.advance p) LParen = true ->
     Parser.check (Parser.advance (Parser.advance p)) RParen = false ->
     parses (fun fuel => Parser.arguments_loop fuel [])
            (Parser.advance (Parser.advance p)) args p1 ->
     Parser.check p1 RParen = true ->
     parses Parser.parsePrimary p (CallNode (lexeme (Parser.current p)) args)
            (Parser.advance p1)) /\
  (forall acc p a p1,
     parses Parser.parseExpression p a p1 -> Parser.check p1 Comma = false ->
     parses (fun fuel => Parser.arguments_loop fuel acc) p (acc ++ [a]) p1) /\
  (forall acc p a p1 args p2,
     parses Parser.parseExpression p a p1 -> Parser.check p1 Comma = true ->
     parses (fun fuel => Parser.arguments_loop fuel (acc ++ [a])) (Parser.advance p1) args p2 ->
     parses (fun fuel => Parser.arguments_loop fuel acc) p args p2) /\
  (forall p a p1 b p2,
     parses Parser.parseExpression p a p1 -> Parser.check p1 Comma = true ->
     parses Parser.parseExpression (Parser.advance p1) b p2 ->
     Parser.check p2 Comma = false ->
     parses (fun fuel => Parser.arguments_loop fuel []) p [a; b] p2).
Proof.
  split; [exact ParserPrimary.primary_parenthesised|].
  split; [exact ParserPrimary.primary_variable|].
  split; [exact ParserPrimary.primary_call_without_arguments|].
  split; [exact ParserPrimary.primary_call|].
  split; [exact ParserPrimary.arguments_last|].
  split; [exact ParserPrimary.arguments_more|].
  intros p a p1 b p2 Ha C1 Hb C2.
  apply (ParserPrimary.arguments_more [] p a p1 [a; b] p2 Ha C1).
  apply (ParserPrimary.arguments_last [a] (Parser.advance p1) b p2 Hb C2).
Qed.

(** The built-in functions check the number of their arguments before
    they compute: a function of one argument called with another number of
    arguments throws an error that names it and the number it got, a name
    that is none of the eleven built-in functions throws [Unknown
    function], and these names are matched as they are written. *)
Theorem functions_check_their_arguments (m : cmath) (fn : string) (args : list float) :
  (fn ∈ unary_functions -> length args <> 1 ->
   Evaluator.applyCall m fn args
   = Throw (EvalError ("Function '" +:+ fn +:+ "' expects 1 argument but got "
                       +:+ size_to_string (length args)))) /\
  (fn ∈ unary_functions -> length args = 1 ->
   exists value, Evaluator.applyCall m fn args = Return value) /\
  (fn ∉ unary_functions -> fn <> "min" -> fn <> "max" ->
   Evaluator.applyCall m fn args = Throw (EvalError ("Unknown function '" +:+ fn +:+ "'"))).
Proof.
  split; [|split].
  - intros Hfn Hlen. unfold unary_functions in Hfn.
    repeat (apply elem_of_cons in Hfn; destruct Hfn as [-> | Hfn]);
      try (apply elem_of_nil in Hfn; contradiction);
      unfold Evaluator.applyCall; cbn [String.eqb Ascii.eqb Bool.eqb];
      unfold Evaluator.unary_function, Evaluator.requireArgCount;
      destruct (Nat.eqb_spec (length args) 1); (contradiction || reflexivity).
  - intros Hfn Hlen. unfold unary_functions in Hfn.
    repeat (apply elem_of_cons in Hfn; destruct Hfn as [-> | Hfn]);
      try (apply elem_of_nil in Hfn; contradiction);
      unfold Evaluator.applyCall; cbn [String.eqb Ascii.eqb Bool.eqb];
      unfold Evaluator.unary_function, Evaluator.requireArgCount;
      rewrite Hlen; cbn [Nat.eqb negb bind]; eexists; reflexivity.
  - intros Hfn Hmin Hmax. unfold unary_functions in Hfn.
    repeat (apply not_elem_of_cons in Hfn; destruct Hfn as [?H Hfn]).
    unfold Evaluator.applyCall.
    repeat match goal with
    | H : fn <> ?name |- context [String.eqb fn ?name] =>
        rewrite (proj2 (String.eqb_neq fn name) H)
    end.
    reflexivity.
Qed.
